(** * orbit_pyqtgraph: the orbital-mechanics core, embedded in Rocq

    Shallow embedding of [orbit_pyqtgraph/orb_math.py] and of the propagation
    and sidereal-time code of [orbit_pyqtgraph/orbit.py].

    Numbers.  Python floats and numpy float64 arrays are idealised as real
    numbers ([R]): no rounding, no overflow.  Where numpy gives NaN or inf
    with a warning and no exception (the square root of a negative number, a
    division by zero inside an array expression), the model has the value of
    the total real function; the text parser, which can read [nan] and [inf],
    keeps them apart ([pyfloat]).  A statement about which inputs are
    accepted, or about the values computed from them, therefore names the
    range it is made for: [PyNum.axis_in_range] and [PyNum.moderate] below
    keep the cube [a ** 3] and what is computed from it inside the floats.
    A numpy array is a [list]; a scalar broadcast against an array is written
    out.  Python exceptions are explicit: a function that can raise returns a
    [result]. *)

From Stdlib Require Import Ascii String.
From Stdlib Require Import Reals Lra Lia ZArith List Bool Psatz.
Import ListNotations.

Open Scope R_scope.

(** ** Python exceptions and fallible results *)

Inductive exn : Type :=
| ValueError
| IndexError
| ZeroDivisionError
| OverflowError
| TypeError.

Inductive result (A : Type) : Type :=
| Ok (a : A)
| Raise (e : exn).
Arguments Ok {A} a.
Arguments Raise {A} e.

Definition bind {A B} (r : result A) (k : A -> result B) : result B :=
  match r with
  | Ok a => k a
  | Raise e => Raise e
  end.

Notation "'let*' x ':=' r 'in' k" := (bind r (fun x => k))
  (at level 10, x pattern, r at level 100, k at level 200).

Definition is_ok {A} (r : result A) : bool :=
  match r with Ok _ => true | Raise _ => false end.

(** ** Numeric helpers: the Python and numpy primitives the code uses *)

Module PyNum.

Definition Rltb (x y : R) : bool := if Rlt_dec x y then true else false.

(** [x % m] on floats: the result has the sign of [m]. *)
Definition py_mod (x m : R) : R := x - m * IZR (Zfloor (x / m)).

(** [np.deg2rad] / [math.radians] and [np.rad2deg]. *)
Definition deg2rad (d : R) : R := d * (PI / 180).
Definition rad2deg (r : R) : R := r * (180 / PI).

(** [np.arctan2 y x], by quadrant. *)
Definition arctan2 (y x : R) : R :=
  if Rlt_dec 0 x then atan (y / x)
  else if Rlt_dec x 0 then
         (if Rle_dec 0 y then atan (y / x) + PI else atan (y / x) - PI)
  else if Rlt_dec 0 y then PI / 2
  else if Rlt_dec y 0 then - (PI / 2)
  else 0.

(** [np.hypot]. *)
Definition hypot (x y : R) : R := sqrt (x * x + y * y).

(** Python float division: raises on a zero divisor. *)
Definition py_div (x y : R) : result R :=
  if Req_dec_T y 0 then Raise ZeroDivisionError else Ok (x / y).

(** [math.sqrt]: raises on a negative argument. *)
Definition math_sqrt (x : R) : result R :=
  if Rlt_dec x 0 then Raise ValueError else Ok (sqrt x).

(** The range of the float model.  For a semi-major axis of size between
    1e-100 and 1e100 the cube [a ** 3] and the quotients [MU_EARTH / a ** 3]
    and [a ** 3 / MU_EARTH] are floats in the normal range.  Outside it
    Python leaves the reals: [a ** 3] raises OverflowError above about
    5.6e102 and is [0.0] below about 1.3e-108, so that the division raises
    ZeroDivisionError for an [a] that is not zero. *)
Definition axis_in_range (a : R) : Prop := 1e-100 <= Rabs a <= 1e100.

(** A number of moderate size: products with the mean motion of an axis in
    range stay finite. *)
Definition moderate (x : R) : Prop := Rabs x <= 1e100.

(** Elementwise binary operation on two arrays of the same shape. *)
Fixpoint map2 {A B C} (f : A -> B -> C) (xs : list A) (ys : list B) : list C :=
  match xs, ys with
  | x :: xs', y :: ys' => f x y :: map2 f xs' ys'
  | _, _ => []
  end.

End PyNum.
Import PyNum.

(** ** Physical constants of [orb_math.py] *)

Definition MU_EARTH : R := 398600.4418.
Definition OMEGA_EARTH : R := 7.2921150e-5.

(** ** Kepler solver: [kepler_E] *)

Module Kepler.

(** [(M + np.pi) % (2*np.pi) - np.pi] *)
Definition normalize (M : R) : R := py_mod (M + PI) (2 * PI) - PI.

(** One element of [f], [fp] and [dE] of the loop body. *)
Definition residual (e M E : R) : R := E - e * sin E - M.
Definition slope (e E : R) : R := 1 - e * cos E.
Definition delta (e M E : R) : R := - residual e M E / slope e E.

(** The array [dE] and the update [E += dE]. *)
Definition deltas (e : R) (M E : list R) : list R := map2 (delta e) M E.
Definition update (e : R) (M E : list R) : list R := map2 Rplus E (deltas e M E).

(** [np.all(np.abs(dE) < tol)] *)
Definition all_below (tol : R) (dE : list R) : bool :=
  forallb (fun d => Rltb (Rabs d) tol) dE.

(** [for _ in range(maxiter): ...; if np.all(...): break] *)
Fixpoint newton (e tol : R) (M E : list R) (maxiter : nat) : list R :=
  match maxiter with
  | O => E
  | S k =>
      let dE := deltas e M E in
      let E' := map2 Rplus E dE in
      if all_below tol dE then E' else newton e tol M E' k
  end.

(** Initial guess: [E = M.copy()], and [E[mask] = np.pi] when [|e| > 0.8]. *)
Definition initial_guess (e : R) (M : list R) : list R :=
  if Rltb 0.8 (Rabs e) then map (fun _ => PI) M else M.

Definition kepler_E (M : list R) (e tol : R) (maxiter : nat) : list R :=
  let M := map normalize M in
  newton e tol M (initial_guess e M) maxiter.

(** Default arguments [tol=1e-10, maxiter=100]. *)
Definition default_tol : R := 1e-10.
Definition default_maxiter : nat := 100.
Definition kepler_E_default (M : list R) (e : R) : list R :=
  kepler_E M e default_tol default_maxiter.

(** Number of Newton updates the loop performs before it returns. *)
Fixpoint iterations (e tol : R) (M E : list R) (maxiter : nat) : nat :=
  match maxiter with
  | O => O
  | S k =>
      if all_below tol (deltas e M E) then 1%nat
      else S (iterations e tol M (update e M E) k)
  end.

(** Whether the loop leaves through [break], that is through the tolerance
    test, within [maxiter] updates. *)
Fixpoint converged (e tol : R) (M E : list R) (maxiter : nat) : bool :=
  match maxiter with
  | O => false
  | S k =>
      if all_below tol (deltas e M E) then true
      else converged e tol M (update e M E) k
  end.

(** The update [E + dE] of one element. *)
Definition step (e M E : R) : R := E + delta e M E.

(** A mean anomaly and an eccentricity above 0.8 for which the start at pi
    leads the updates into a cycle between two intervals. *)
Definition M_cycle : R := -0.4787.
Definition e_cycle : R := 0.8962.
Definition near_zero (E : R) : Prop := -0.006 <= E <= 0.006.
Definition far_left (E : R) : Prop := -4.6118 <= E <= -4.6109.
Definition in_cycle (E : R) : Prop := near_zero E \/ far_left E.

End Kepler.

(** ** Vectors and rotation matrices *)

Record vec3 : Type := mkVec { vx : R; vy : R; vz : R }.

(** A 3x3 matrix, by rows. *)
Record mat3 : Type := mkMat { row1 : vec3; row2 : vec3; row3 : vec3 }.

Definition dot (u v : vec3) : R := vx u * vx v + vy u * vy v + vz u * vz v.

(** [A @ v] *)
Definition mat_vec (A : mat3) (v : vec3) : vec3 :=
  mkVec (dot (row1 A) v) (dot (row2 A) v) (dot (row3 A) v).

Definition col1 (A : mat3) : vec3 := mkVec (vx (row1 A)) (vx (row2 A)) (vx (row3 A)).
Definition col2 (A : mat3) : vec3 := mkVec (vy (row1 A)) (vy (row2 A)) (vy (row3 A)).
Definition col3 (A : mat3) : vec3 := mkVec (vz (row1 A)) (vz (row2 A)) (vz (row3 A)).

(** [A @ B] *)
Definition mat_mul (A B : mat3) : mat3 :=
  let row r := mkVec (dot r (col1 B)) (dot r (col2 B)) (dot r (col3 B)) in
  mkMat (row (row1 A)) (row (row2 A)) (row (row3 A)).

(** [np.linalg.norm] of one row. *)
Definition norm (v : vec3) : R := sqrt (vx v * vx v + vy v * vy v + vz v * vz v).

(** [[[c, -s, 0], [s, c, 0], [0, 0, 1]]] *)
Definition Rz (t : R) : mat3 :=
  mkMat (mkVec (cos t) (- sin t) 0) (mkVec (sin t) (cos t) 0) (mkVec 0 0 1).

(** [[[1, 0, 0], [0, c, -s], [0, s, c]]] *)
Definition Rx (t : R) : mat3 :=
  mkMat (mkVec 1 0 0) (mkVec 0 (cos t) (- sin t)) (mkVec 0 (sin t) (cos t)).

(** A position argument: one vector of shape (3,) or an array of shape (N, 3). *)
Inductive positions : Type :=
| Single (r : vec3)
| Batch (rows : list vec3).

(** ** [orb_math.py]: propagation and frame transforms *)

Module OrbMath.
Import Kepler.

(** [Q_pX = Rz_raan @ Rx_i @ Rz_argp] *)
Definition Q_pX (i_deg raan_deg argp_deg : R) : mat3 :=
  let i := deg2rad i_deg in
  let raan := deg2rad raan_deg in
  let argp := deg2rad argp_deg in
  mat_mul (mat_mul (Rz raan) (Rx i)) (Rz argp).

(** True anomaly from the eccentric anomaly. *)
Definition true_anomaly (e E : R) : R :=
  let cosf := (cos E - e) / (1 - e * cos E) in
  let sinf := (sqrt (1 - e ^ 2) * sin E) / (1 - e * cos E) in
  arctan2 sinf cosf.

(** Perifocal position [(r cos f, r sin f, 0)] for one eccentric anomaly. *)
Definition perifocal (a e E : R) : vec3 :=
  let f := true_anomaly e E in
  let r := a * (1 - e * cos E) in
  mkVec (r * cos f) (r * sin f) 0.

(** [kepler_E] on a scalar, as [oe_to_rv] calls it.  [np.array(M)] is a 0-d
    array, but [(M + np.pi) % (2*np.pi) - np.pi] and [M.copy()] are numpy
    scalars.  For [|e| > 0.8] the mask is true and [E[mask] = np.pi] is an
    item assignment on a numpy scalar, which raises TypeError.  Otherwise
    the loop runs as it does on a one-element array. *)
Definition kepler_E_scalar (M e : R) : result R :=
  if Rltb 0.8 (Rabs e) then Raise TypeError
  else Ok (nth 0 (kepler_E_default [M] e) 0).

(** [oe_to_rv(a, e, i_deg, raan_deg, argp_deg, M_deg)]: returns
    [(r_eci, v_eci)]. *)
Definition oe_to_rv (a e i_deg raan_deg argp_deg M_deg : R) : result (vec3 * vec3) :=
  let M := deg2rad M_deg in
  let* q := py_div MU_EARTH (a ^ 3) in
  let n := sqrt q in
  let* E := kepler_E_scalar M e in
  let f := true_anomaly e E in
  let r_pf := perifocal a e E in
  let h := sqrt (MU_EARTH * a * (1 - e ^ 2)) in
  let vx_pf := - MU_EARTH / h * sin f in
  let vy_pf := MU_EARTH / h * (e + cos f) in
  let v_pf := mkVec vx_pf vy_pf 0 in
  let Q := Q_pX i_deg raan_deg argp_deg in
  Ok (mat_vec Q r_pf, mat_vec Q v_pf).

(** [propagate_orbit(elems, times_s, M0_epoch_time=0.0)]: the result is the
    (N x 3) array [r_eci_all], one row per time.  [a ^ 3] is the cube over
    the reals; Python's [a ** 3] agrees with it for an axis in range
    ([PyNum.axis_in_range]) and leaves it outside (OverflowError for a large
    [a], a zero cube for a small one), and [np.sqrt] of a negative number is
    NaN where [sqrt] is 0: statements about accepted inputs or computed
    values name their range. *)
Definition propagate_orbit (elems : list R) (times_s : list R) (M0_epoch_time : R)
  : result (list vec3) :=
  match elems with
  | [a; e; i_deg; raan_deg; argp_deg; M0_deg] =>
      let times := times_s in
      let* q := py_div MU_EARTH (a ^ 3) in
      let n := sqrt q in
      let M0 := deg2rad M0_deg in
      let M := map (fun t => M0 + n * (t - M0_epoch_time)) times in
      let M := map normalize M in
      let E := kepler_E_default M e in
      let r_pf := map (perifocal a e) E in
      let Q := Q_pX i_deg raan_deg argp_deg in
      Ok (map (mat_vec Q) r_pf)
  | _ => Raise ValueError
  end.

(** The loop [for idx in range(N): ... theta[idx] ... out[idx] = Rz @ r[idx]]
    of [eci_to_ecef], with the matrix [[ct, st, 0], [-st, ct, 0], [0, 0, 1]]. *)
Definition rot_ecef (theta : R) : mat3 :=
  let ct := cos theta in
  let st := sin theta in
  mkMat (mkVec ct st 0) (mkVec (- st) ct 0) (mkVec 0 0 1).

Fixpoint rotate_rows (theta : list R) (idx : nat) (rows : list vec3)
  : result (list vec3) :=
  match rows with
  | [] => Ok []
  | r :: rest =>
      match nth_error theta idx with
      | None => Raise IndexError
      | Some th =>
          let* out := rotate_rows theta (S idx) rest in
          Ok (mat_vec (rot_ecef th) r :: out)
      end
  end.

(** [eci_to_ecef(r_eci, t_sec, gst0=0.0)]; a scalar [t_sec] is a one-element
    [t_sec] here, as both have [theta.size == 1]. *)
Definition eci_to_ecef (r_eci : positions) (t_sec : list R) (gst0 : R)
  : result positions :=
  let r := match r_eci with Single v => [v] | Batch rows => rows end in
  let theta := map (fun t => gst0 + OMEGA_EARTH * t) t_sec in
  let N := length r in
  let theta :=
    match theta with
    | [th] => repeat th N
    | _ => theta
    end in
  let* out := rotate_rows theta 0 r in
  match r_eci with
  | Single _ => Ok (Single (nth 0 out (mkVec 0 0 0)))
  | Batch _ => Ok (Batch out)
  end.

(** Result of [ecef_to_latlon]: three scalars for a (3,) input, three arrays
    for an (N x 3) input. *)
Inductive latlon : Type :=
| LatLon1 (lat lon alt : R)
| LatLonN (lat lon alt : list R).

Definition lat_of (v : vec3) : R := arctan2 (vz v) (hypot (vx v) (vy v)).
Definition lon_of (v : vec3) : R := arctan2 (vy v) (vx v).
Definition alt_of (v : vec3) : R := norm v - 6371.0.

(** The rows of a position argument, and the altitudes of a result. *)
Definition rows_of (p : positions) : list vec3 :=
  match p with Single v => [v] | Batch rows => rows end.

Definition altitudes (l : latlon) : list R :=
  match l with LatLon1 _ _ alt => [alt] | LatLonN _ _ alt => alt end.

Definition ecef_to_latlon (r_ecef : positions) : latlon :=
  match r_ecef with
  | Single v => LatLon1 (rad2deg (lat_of v)) (rad2deg (lon_of v)) (alt_of v)
  | Batch rows =>
      LatLonN (map (fun v => rad2deg (lat_of v)) rows)
              (map (fun v => rad2deg (lon_of v)) rows)
              (map alt_of rows)
  end.

End OrbMath.

(** ** Python text primitives: slicing, [strip], [int] and [float] of a string

    A line is a sequence of characters with code points below 256
    ([list ascii]); the TLE format is ASCII. *)

Module PyStr.
Local Open Scope nat_scope.

Definition text := list ascii.

(** [s[a:b]] for [0 <= a <= b]: clipped to the string, never an error. *)
Definition slice (a b : nat) (s : text) : text := firstn (b - a) (skipn a s).

(** Whitespace of [str.strip] and of [int]/[float]: 0x09-0x0D, 0x1C-0x20,
    0x85 and 0xA0. *)
Definition is_space (c : ascii) : bool :=
  let n := nat_of_ascii c in
  ((9 <=? n) && (n <=? 13)) || ((28 <=? n) && (n <=? 32))
  || (n =? 133) || (n =? 160).

Fixpoint lstrip (s : text) : text :=
  match s with
  | c :: s' => if is_space c then lstrip s' else s
  | [] => []
  end.

Definition strip (s : text) : text := rev (lstrip (rev (lstrip s))).

Definition is_digit (c : ascii) : bool :=
  let n := nat_of_ascii c in (48 <=? n) && (n <=? 57).

Definition digit_value (c : ascii) : N := N.of_nat (nat_of_ascii c - 48).

Definition is_underscore (c : ascii) : bool := Ascii.eqb c "_"%char.

(** Underscores of a numeric literal: each one directly after a digit and
    directly before a digit.  Returns the text without them. *)
Fixpoint drop_underscores (prev_digit : bool) (s : text) : option text :=
  match s with
  | [] => Some []
  | c :: s' =>
      if is_underscore c then
        match s' with
        | d :: _ =>
            if prev_digit && is_digit d then drop_underscores false s' else None
        | [] => None
        end
      else
        match drop_underscores (is_digit c) s' with
        | Some r => Some (c :: r)
        | None => None
        end
  end.

(** Longest prefix of digits, as a number, with its length and the rest. *)
Fixpoint digits (acc : N) (len : nat) (s : text) : N * nat * text :=
  match s with
  | c :: s' =>
      if is_digit c then digits (10 * acc + digit_value c)%N (S len) s'
      else (acc, len, s)
  | [] => (acc, len, [])
  end.

(** Optional sign: [true] for a minus. *)
Definition sign (s : text) : bool * text :=
  match s with
  | "-"%char :: s' => (true, s')
  | "+"%char :: s' => (false, s')
  | _ => (false, s)
  end.

(** [int(s)] in base 10; [None] is ValueError. *)
Definition int_syntax (s : text) : option Z :=
  match drop_underscores false (strip s) with
  | None => None
  | Some t =>
      let '(neg, t) := sign t in
      match digits 0 0 t with
      | (_, O, _) => None
      | (n, S _, []) => Some (if neg then - Z.of_N n else Z.of_N n)%Z
      | (_, S _, _ :: _) => None
      end
  end.

(** What a float literal denotes, before it becomes a number. *)
Inductive float_literal : Type :=
| LitDec (neg : bool) (mantissa : N) (exponent : Z)
| LitInf (neg : bool)
| LitNan.

Definition lower (c : ascii) : ascii :=
  let n := nat_of_ascii c in
  if (65 <=? n) && (n <=? 90) then ascii_of_nat (n + 32) else c.

Definition text_eqb (s t : text) : bool :=
  String.eqb (string_of_list_ascii s) (string_of_list_ascii t).

Definition is_exp_mark (c : ascii) : bool :=
  Ascii.eqb c "e"%char || Ascii.eqb c "E"%char.

(** Optional exponent part [e[+-]digits], to the end of the text. *)
Definition exponent_part (s : text) : option Z :=
  match s with
  | [] => Some 0%Z
  | c :: s' =>
      if is_exp_mark c then
        let '(neg, t) := sign s' in
        match digits 0 0 t with
        | (_, O, _) => None
        | (n, S _, []) => Some (if neg then - Z.of_N n else Z.of_N n)%Z
        | (_, S _, _ :: _) => None
        end
      else None
  end.

(** Decimal literal [digits [. digits] [exponent]], at least one digit in
    the mantissa. *)
Definition decimal (neg : bool) (s : text) : option float_literal :=
  let '(ip, ilen, rest) := digits 0 0 s in
  let '(m, flen, rest) :=
    match rest with
    | "."%char :: rest' =>
        let '(m, flen, rest'') := digits ip 0 rest' in (m, flen, rest'')
    | _ => (ip, O, rest)
    end in
  if (ilen + flen =? 0) then None
  else
    match exponent_part rest with
    | Some ex => Some (LitDec neg m (ex - Z.of_nat flen))
    | None => None
    end.

(** [float(s)] up to the value of the literal; [None] is ValueError. *)
Definition float_syntax (s : text) : option float_literal :=
  match drop_underscores false (strip s) with
  | None => None
  | Some t =>
      let '(neg, body) := sign t in
      let low := map lower body in
      if text_eqb low (list_ascii_of_string "inf")
         || text_eqb low (list_ascii_of_string "infinity")
      then Some (LitInf neg)
      else if text_eqb low (list_ascii_of_string "nan") then Some LitNan
      else decimal neg body
  end.

End PyStr.

(** ** Python floats that need not be finite *)

Inductive pyfloat : Type :=
| Finite (x : R)
| Infinite (negative : bool)
| NaN.

(** A Python number that may have become complex. *)
Inductive pynumber : Type :=
| Float (x : pyfloat)
| Complex (re im : R).

Definition literal_value (l : PyStr.float_literal) : pyfloat :=
  match l with
  | PyStr.LitDec neg m ex =>
      let v := IZR (Z.of_N m) * powerRZ 10 ex in
      Finite (if neg then - v else v)
  | PyStr.LitInf neg => Infinite neg
  | PyStr.LitNan => NaN
  end.

(** [float(s)] *)
Definition py_float (s : PyStr.text) : result pyfloat :=
  match PyStr.float_syntax s with
  | Some l => Ok (literal_value l)
  | None => Raise ValueError
  end.

(** [int(s)] *)
Definition py_int (s : PyStr.text) : result Z :=
  match PyStr.int_syntax s with
  | Some z => Ok z
  | None => Raise ValueError
  end.

(** ** Proleptic Gregorian calendar of [datetime] *)

Module Calendar.
Local Open Scope Z_scope.

Definition is_leap (y : Z) : bool :=
  (y mod 4 =? 0) && (negb (y mod 100 =? 0) || (y mod 400 =? 0)).

(** Number of days before January 1st of year [y]. *)
Definition days_before_year (y : Z) : Z :=
  let y := y - 1 in y * 365 + y / 4 - y / 100 + y / 400.

Definition DAYS_IN_MONTH : list Z := [-1; 31; 28; 31; 30; 31; 30; 31; 31; 30; 31; 30; 31].
Definition DAYS_BEFORE_MONTH : list Z :=
  [-1; 0; 31; 59; 90; 120; 151; 181; 212; 243; 273; 304; 334].

Definition days_before_month (y m : Z) : Z :=
  nth (Z.to_nat m) DAYS_BEFORE_MONTH 0 + (if (2 <? m) && is_leap y then 1 else 0).

(** Ordinal of a date, 0001-01-01 being day 1. *)
Definition ymd2ord (y m d : Z) : Z :=
  days_before_year y + days_before_month y m + d.

Definition DI400Y : Z := 146097.
Definition DI100Y : Z := 36524.
Definition DI4Y : Z := 1461.
Definition MAXORDINAL : Z := 3652059.
Definition EPOCH_ORDINAL : Z := 719163.

(** Date (year, month, day) of an ordinal: the calendar fields that
    [time.gmtime] and [datetime] arithmetic produce. *)
Definition ord2ymd (n : Z) : Z * Z * Z :=
  let n := n - 1 in
  let n400 := n / DI400Y in
  let n := n mod DI400Y in
  let year := n400 * 400 + 1 in
  let n100 := n / DI100Y in
  let n := n mod DI100Y in
  let n4 := n / DI4Y in
  let n := n mod DI4Y in
  let n1 := n / 365 in
  let n := n mod 365 in
  let year := year + n100 * 100 + n4 * 4 + n1 in
  if (n1 =? 4) || (n100 =? 4) then (year - 1, 12, 31)
  else
    let leapyear := (n1 =? 3) && (negb (n4 =? 24) || (n100 =? 3)) in
    let month := Z.shiftr (n + 50) 5 in
    let preceding :=
      nth (Z.to_nat month) DAYS_BEFORE_MONTH 0
      + (if (2 <? month) && leapyear then 1 else 0) in
    if n <? preceding then
      let month := month - 1 in
      let preceding :=
        preceding - (nth (Z.to_nat month) DAYS_IN_MONTH 0
                     + (if (month =? 2) && leapyear then 1 else 0)) in
      (year, month, n - preceding + 1)
    else (year, month, n - preceding + 1).

(** Integer part of the Julian Date formula of [gmst_rad], with the floors as
    integer divisions: [floor(365.25*k)] is [1461*k/4], [floor(30.6001*k)] is
    [306001*k/10000]. *)
Definition julian_day_number (y m d : Z) : Z :=
  let '(Y, M) := if m <=? 2 then (y - 1, m + 12) else (y, m) in
  let A := Y / 100 in
  let B := 2 - A + A / 4 in
  (1461 * (Y + 4716)) / 4 + (306001 * (M + 1)) / 10000 + d + B.

(** The formula agrees with the ordinal on day [n], and on [k] days from [n]. *)
Definition day_ok (n : Z) : bool :=
  let '(y, m, d) := ord2ymd n in
  julian_day_number y m d =? n + 1722949.

Fixpoint days_ok (k : nat) (n : Z) : bool :=
  match k with
  | O => true
  | S k' => day_ok n && days_ok k' (n + 1)
  end.

Definition add_years (k : Z) (date : Z * Z * Z) : Z * Z * Z :=
  let '(y, m, d) := date in (y + k, m, d).

(** Rounding to the nearest integer, ties to even. *)
Definition round_half_even (x : R) : Z :=
  let f := Zfloor x in
  let r := (x - IZR f)%R in
  if Rlt_dec r (1 / 2) then f
  else if Rlt_dec (1 / 2) r then f + 1
  else if Z.even f then f else f + 1.

Definition US_PER_SECOND : Z := 1000000.
Definition US_PER_DAY : Z := 86400 * US_PER_SECOND.

End Calendar.

(** ** TLE parser: [tle_to_kepler6] *)

Module Tle.
Import PyStr Calendar.

(** The 7-tuple the parser returns. *)
Record kepler6 : Type := mkKepler6 {
  a_km : pynumber;
  ecc : pyfloat;
  i_deg : pyfloat;
  raan_deg : pyfloat;
  argp_deg : pyfloat;
  M0_deg : pyfloat;
  epoch_time_s : R
}.

(** [timedelta(days=d)] as a whole number of microseconds. *)
Definition timedelta_days (d : pyfloat) : result Z :=
  match d with
  | NaN => Raise ValueError
  | Infinite _ => Raise OverflowError
  | Finite x =>
      let us := round_half_even (x * IZR US_PER_DAY) in
      if (Z.abs (us / US_PER_DAY) <=? 999999999)%Z then Ok us
      else Raise OverflowError
  end.

(** [day_of_year - 1.0] *)
Definition minus_one (d : pyfloat) : pyfloat :=
  match d with
  | Finite x => Finite (x - 1)
  | other => other
  end.

(** [(jan1 + timedelta(days=day_of_year - 1.0)).timestamp()] for
    [jan1 = datetime(year, 1, 1, tzinfo=utc)]. *)
Definition epoch_timestamp (year : Z) (day_of_year : pyfloat) : result R :=
  if negb ((1 <=? year) && (year <=? 9999))%Z then Raise ValueError
  else
    let jan1 := ymd2ord year 1 1 in
    let* us := timedelta_days (minus_one day_of_year) in
    let day := (jan1 + us / US_PER_DAY)%Z in
    if negb ((1 <=? day) && (day <=? MAXORDINAL))%Z then Raise OverflowError
    else
      let total_us := ((jan1 - EPOCH_ORDINAL) * US_PER_DAY + us)%Z in
      Ok (IZR total_us / IZR US_PER_SECOND).

(** [(MU_EARTH ** (1.0/3.0)) / (n_rad_s ** (2.0/3.0))] with
    [n_rad_s = 2.0 * math.pi * n_rev_per_day / 86400.0].  A negative base
    with the exponent 2/3 gives a complex power. *)
Definition semi_major_axis (n_rev_per_day : pyfloat) : result pynumber :=
  let c := Rpower MU_EARTH (1 / 3) in
  match n_rev_per_day with
  | NaN => Ok (Float NaN)
  | Infinite _ => Ok (Float (Finite 0))
  | Finite n =>
      let n_rad_s := 2 * PI * n / 86400 in
      if Rlt_dec 0 n_rad_s then Ok (Float (Finite (c / Rpower n_rad_s (2 / 3))))
      else if Rlt_dec n_rad_s 0 then
        let len := Rpower (- n_rad_s) (2 / 3) in
        let phase := PI * (2 / 3) in
        let wr := len * cos phase in
        let wi := len * sin phase in
        Ok (Complex (c * wr / (wr * wr + wi * wi)) (- (c * wi) / (wr * wr + wi * wi)))
      else Raise ZeroDivisionError
  end.

Definition tle_to_kepler6 (line1 line2 : text) : result kepler6 :=
  let epoch_str := strip (slice 18 32 line1) in
  let* yy := py_int (firstn 2 epoch_str) in
  let* day_of_year := py_float (skipn 2 epoch_str) in
  let year := if (yy <? 57)%Z then (2000 + yy)%Z else (1900 + yy)%Z in
  let* epoch_time_s := epoch_timestamp year day_of_year in
  let* i_deg := py_float (slice 8 16 line2) in
  let* raan_deg := py_float (slice 17 25 line2) in
  let* e := py_float (list_ascii_of_string "0." ++ strip (slice 26 33 line2)) in
  let* argp_deg := py_float (slice 34 42 line2) in
  let* M0_deg := py_float (slice 43 51 line2) in
  let* n_rev_per_day := py_float (slice 52 63 line2) in
  let* a_km := semi_major_axis n_rev_per_day in
  Ok (mkKepler6 a_km e i_deg raan_deg argp_deg M0_deg epoch_time_s).

(** The seven numeric fields the parser reads, each as its text. *)
Definition epoch_field (line1 : text) : text := strip (slice 18 32 line1).
Definition eccentricity_field (line2 : text) : text :=
  list_ascii_of_string "0." ++ strip (slice 26 33 line2).

(** Every numeric field is accepted by [int] or [float]. *)
Definition numeric_fields_parse (line1 line2 : text) : bool :=
  is_ok (py_int (firstn 2 (epoch_field line1)))
  && is_ok (py_float (skipn 2 (epoch_field line1)))
  && is_ok (py_float (slice 8 16 line2))
  && is_ok (py_float (slice 17 25 line2))
  && is_ok (py_float (eccentricity_field line2))
  && is_ok (py_float (slice 34 42 line2))
  && is_ok (py_float (slice 43 51 line2))
  && is_ok (py_float (slice 52 63 line2)).

(** The ISS lines of the examples, cut short: line 1 after the epoch (32 of
    69 columns), line 2 inside the mean motion (60 of 69 columns). *)
Definition short_line1 : text :=
  list_ascii_of_string "1 25544U 98067A   25229.18034946".
Definition short_line2 : text :=
  list_ascii_of_string "2 25544  51.6356   4.7550 0003499 229.5075 130.5609 15.49975".

(** Line 1 of the ISS element set of the examples, and its line 2 with the
    eccentricity columns holding [1e1] instead of seven digits. *)
Definition iss_line1 : text :=
  list_ascii_of_string
    "1 25544U 98067A   25229.18034946  .00009619  00000-0  17645-3 0  9996".
Definition exponent_line2 : text :=
  list_ascii_of_string
    "2 25544  51.6356   4.7550 1e1     229.5075 130.5609 15.49975761524621".

End Tle.

(** ** Sidereal time: [gmst_rad] of [OrbitPlot.liveorbit] *)

Module Gmst.
Import Calendar.

Record datetime : Type := mkDatetime {
  year : Z; month : Z; day : Z;
  hour : Z; minute : Z; second : Z; microsecond : Z
}.

(** [datetime.datetime.utcfromtimestamp(unix_ts)]: the timestamp rounded to
    a whole microsecond, as calendar fields; a year outside 1..9999 is an
    error. *)
Definition utcfromtimestamp (unix_ts : R) : result datetime :=
  let us_total := round_half_even (unix_ts * IZR US_PER_SECOND) in
  let secs := (us_total / US_PER_SECOND)%Z in
  let us := (us_total mod US_PER_SECOND)%Z in
  let days := (secs / 86400)%Z in
  let sod := (secs mod 86400)%Z in
  let n := (days + EPOCH_ORDINAL)%Z in
  if ((1 <=? n) && (n <=? MAXORDINAL))%Z then
    let '(y, m, d) := ord2ymd n in
    Ok (mkDatetime y m d (sod / 3600) ((sod mod 3600) / 60) (sod mod 60) us)%Z
  else Raise ValueError.

(** Julian Date of the calendar fields. *)
Definition julian_date (dt : datetime) : R :=
  let Y := year dt in
  let M := month dt in
  let D := day dt in
  let h := IZR (hour dt) in
  let m := IZR (minute dt) in
  let s := IZR (second dt) + IZR (microsecond dt) * 1e-6 in
  let '(Y, M) := if (M <=? 2)%Z then (Y - 1, M + 12)%Z else (Y, M) in
  let A := Zfloor (IZR Y / 100) in
  let B := (2 - A + Zfloor (IZR A / 4))%Z in
  let JD0 :=
    IZR (Zfloor (365.25 * IZR (Y + 4716)) + Zfloor (30.6001 * IZR (M + 1)) + D + B)
    - 1524.5 in
  let frac_day := (h + (m + s / 60.0) / 60.0) / 24.0 in
  JD0 + frac_day.

(** IAU 1982 expression for GMST in seconds of time. *)
Definition GMST_sec (T : R) : R :=
  67310.54841
  + (876600.0 * 3600 + 8640184.812866) * T
  + 0.093104 * (T ^ 2)
  - 6.2e-6 * (T ^ 3).

(** Julian centuries since J2000.0. *)
Definition centuries (JD : R) : R := (JD - 2451545.0) / 36525.0.

Definition gmst_rad (unix_ts : R) : result R :=
  let* dt := utcfromtimestamp unix_ts in
  let JD := julian_date dt in
  let T := centuries JD in
  let GMST_deg := py_mod (GMST_sec T / 240.0) 360.0 in
  Ok (deg2rad GMST_deg).

(** The angle before [% 360.0], in degrees. *)
Definition gmst_unwrapped_deg (unix_ts : R) : result R :=
  let* dt := utcfromtimestamp unix_ts in
  Ok (GMST_sec (centuries (julian_date dt)) / 240.0).

(** Rounded timestamps, in microseconds, of 0001-01-01 00:00:00 and of
    9999-12-31 23:59:59.999999. *)
Definition MIN_US : Z := -62135596800000000.
Definition MAX_US : Z := 253402300799999999.

(** Julian Date of a whole number of microseconds since the Unix epoch. *)
Definition julian_of_us (u : Z) : R := IZR u / 86400000000 + 2440587.5.

(** The timestamp as [utcfromtimestamp] takes it: rounded to a whole
    microsecond, in seconds. *)
Definition rounded_seconds (unix_ts : R) : R :=
  IZR (round_half_even (unix_ts * IZR US_PER_SECOND)) / IZR US_PER_SECOND.

(** The sidereal day, in seconds of universal time, lies between these two
    over the years 1 to 9999. *)
Definition SIDEREAL_DAY_MIN : R := 86164.0901.
Definition SIDEREAL_DAY_MAX : R := 86164.0907.

End Gmst.

(** ** [OrbitPlot]: the propagation request and its stored samples *)

Module Plot.
Import OrbMath.

(** The fields of an [OrbitPlot] that [_prepare_propagation] touches.
    [animation_timer] is [true] when a timer object is held. *)
Record OrbitPlot : Type := mkOrbitPlot {
  elems : list R;
  animation_timer : bool;
  _cached_times : option (list R);
  _cached_r_eci : option (list vec3);
  _cached_r_ecef : option positions;
  _epoch : R
}.

(** What the method runs in: the object, and the [propagate_orbit] calls
    made so far (arguments of each call, latest first). *)
Record world : Type := mkWorld {
  self : OrbitPlot;
  propagations : list (list R * list R)
}.

(** A method body: it may raise, and it leaves a world behind either way. *)
Definition method (A : Type) : Type := world -> result A * world.

Definition ret {A} (a : A) : method A := fun w => (Ok a, w).
Definition mbind {A B} (m : method A) (k : A -> method B) : method B :=
  fun w =>
    match m w with
    | (Ok a, w') => k a w'
    | (Raise e, w') => (Raise e, w')
    end.
Definition lift {A} (r : result A) : method A := fun w => (r, w).
Definition get_self : method OrbitPlot := fun w => (Ok (self w), w).
Definition set_self (f : OrbitPlot -> OrbitPlot) : method unit :=
  fun w => (Ok tt, mkWorld (f (self w)) (propagations w)).

Notation "x <- m ;; k" := (mbind m (fun x => k))
  (at level 61, m at next level, right associativity).
Notation "m ;;; k" := (mbind m (fun _ => k))
  (at level 61, right associativity).

(** The call [propagate_orbit(self.elems, times)], recorded. *)
Definition call_propagate_orbit (el times : list R) : method (list vec3) :=
  fun w =>
    (propagate_orbit el times 0, mkWorld (self w) ((el, times) :: propagations w)).

(** [OrbitPlot(elems)]: the fields set by [__init__]; [elems[-1]] needs a
    non-empty sequence. *)
Definition init (el : list R) : result OrbitPlot :=
  match el with
  | [] => Raise IndexError
  | x :: rest => Ok (mkOrbitPlot el false None None None (last rest x))
  end.

(** [int(x)] of a float: truncation toward zero. *)
Definition py_trunc (x : R) : Z :=
  if Rle_dec 0 x then Zfloor x else (- Zfloor (- x))%Z.

(** [np.linspace(start, stop, num)] *)
Definition linspace (start stop : R) (num : Z) : result (list R) :=
  if (num <? 0)%Z then Raise ValueError
  else
    let step := (stop - start) / IZR (num - 1) in
    Ok (map (fun k => start + INR k * step) (seq 0 (Z.to_nat num))).

(** The [if not animation and revolves is not None: ... else: ...] that builds
    [times]. *)
Definition sample_times
  (T : R) (animation : bool) (revolves : option R) (sample_points_per_orbit : R)
  : result (list R) :=
  match animation, revolves with
  | false, Some rev =>
      let total_time := T * rev in
      let N := Z.max 300 (py_trunc (sample_points_per_orbit * rev)) in
      linspace 0 total_time N
  | _, _ =>
      let rev := match revolves with Some rev => rev | None => 2.0 end in
      let total_time := T * rev in
      let N := py_trunc (sample_points_per_orbit * rev) in
      linspace 0 total_time N
  end.

(** [self._prepare_propagation(animation, revolves, sample_points_per_orbit)];
    [revolves] is [None] or a number.  Returns [(times, r_eci, r_ecef, T)].
    As in [propagate_orbit], [a ^ 3] is the cube over the reals
    ([in_float_range] below gives the requests on which the floats agree). *)
Definition _prepare_propagation
  (animation : bool) (revolves : option R) (sample_points_per_orbit : R)
  : method (list R * list vec3 * positions * R) :=
  s <- get_self ;;
  a <- lift (match elems s with [] => Raise IndexError | a :: _ => Ok a end) ;;
  root <- lift (math_sqrt (a ^ 3 / 398600.4418)) ;;
  let T := 2 * PI * root in
  (if animation_timer s
   then set_self (fun o => mkOrbitPlot (elems o) false (_cached_times o)
                             (_cached_r_eci o) (_cached_r_ecef o) (_epoch o))
   else ret tt) ;;;
  times <- lift (sample_times T animation revolves sample_points_per_orbit) ;;
  s <- get_self ;;
  r_eci <- call_propagate_orbit (elems s) times ;;
  r_ecef <- lift (eci_to_ecef (Batch r_eci) times 0.0) ;;
  set_self (fun o => mkOrbitPlot (elems o) (animation_timer o) (Some times)
                       (Some r_eci) (Some r_ecef) (_epoch o)) ;;;
  ret (times, r_eci, r_ecef, T).

(** A propagation request: the arguments of one call. *)
Record request : Type := mkRequest {
  animation : bool;
  revolves : option R;
  sample_points_per_orbit : R
}.

(** Number of samples and time span a request asks for: its key, together
    with the elements. *)
Definition effective_revolves (q : request) : R :=
  match revolves q with Some rev => rev | None => 2.0 end.

Definition sample_count (q : request) : Z :=
  match animation q, revolves q with
  | false, Some rev => Z.max 300 (py_trunc (sample_points_per_orbit q * rev))
  | _, _ => py_trunc (sample_points_per_orbit q * effective_revolves q)
  end.

(** A freshly constructed object on a circular orbit, and a request for two
    sample points per orbit in animation mode. *)
Definition plot0 : OrbitPlot := mkOrbitPlot [7000; 0; 0; 0; 0; 0] false None None None 0.
Definition request0 : request := mkRequest true None 2.

Definition serve (q : request) : method (list R * list vec3 * positions * R) :=
  _prepare_propagation (animation q) (revolves q) (sample_points_per_orbit q).


End Plot.

(** ** The Kepler solver: corrections of a batch *)

Module Convergence.
Import Kepler.

(** Every correction [dE] of a batch is at most [r] in size. *)
Definition corrections_within (e r : R) (M E : list R) : Prop :=
  Forall2 (fun m x => Rabs (delta e m x) <= r) M E.

End Convergence.

(** ** The element set of the examples *)

Module Iss.

(** Line 2 of the ISS element set of [quick-start.py] and [examples/all.py];
    its line 1 is [Tle.iss_line1]. *)
Definition iss_line2 : PyStr.text :=
  list_ascii_of_string
    "2 25544  51.6356   4.7550 0003499 229.5075 130.5609 15.49975761524621".

End Iss.

(** ** The live ground track: which epoch [liveorbit] takes *)

Module Live.
Import Plot.

(** The object after [_prepare_propagation] has stopped and dropped its
    timer. *)
Definition without_timer (o : OrbitPlot) : OrbitPlot :=
  mkOrbitPlot (elems o) false (_cached_times o) (_cached_r_eci o) (_cached_r_ecef o)
    (_epoch o).

(** [epoch_ts] of [liveorbit(epoch_time=None)], for numbers: the argument
    when it is given, the stored [_epoch] otherwise. *)
Definition epoch_ts (o : OrbitPlot) (epoch_time : option R) : R :=
  match epoch_time with
  | Some t => t
  | None => _epoch o
  end.

(** [gst0 = gmst_rad(epoch_ts)] *)
Definition gst0 (o : OrbitPlot) (epoch_time : option R) : result R :=
  Gmst.gmst_rad (epoch_ts o epoch_time).

(** [period = 2 * math.pi * math.sqrt(a**3 / 398600.4418)] of [liveorbit],
    with [a = float(self.elems[0])]. *)
Definition period (o : OrbitPlot) : result R :=
  let* a := match elems o with [] => Raise IndexError | a :: _ => Ok a end in
  let* root := math_sqrt (a ^ 3 / 398600.4418) in
  Ok (2 * PI * root).

Definition sample_points : Z := 2000.

(** The track of one run of [update_live], for the clock reading [now]:
    [times_abs], [t_rel], [r_eci] and [r_ecef]; [half_window_time] is
    [period / 2].  Returns [(t_rel, r_eci, r_ecef)]. *)
Definition update_live_track (o : OrbitPlot) (period epoch_ts gst0 now : R)
  : result (list R * list vec3 * positions) :=
  let half_window_time := period / 2 in
  let* window := linspace (- half_window_time) half_window_time sample_points in
  let times_abs := map (fun t => t + now) window in
  let t_rel := map (fun t => t - epoch_ts) times_abs in
  let* r_eci := OrbMath.propagate_orbit (elems o) t_rel 0 in
  let* r_ecef := OrbMath.eci_to_ecef (Batch r_eci) t_rel gst0 in
  Ok (t_rel, r_eci, r_ecef).

End Live.

(** ** The Earth sphere of [EarthGLWidget.draw_textured_earth] *)

Module Globe.

Definition OBLIQUITY_DEG : R := 0.

(** The OpenGL calls the method makes. *)
Inductive gl_call : Type :=
| glEnable_TEXTURE_2D
| glBindTexture_TEXTURE_2D (texture_id : Z)
| glPushMatrix
| glRotatef (angle x y z : R)
| glBegin_QUAD_STRIP
| glTexCoord2f (u v : R)
| glNormal3f (x y z : R)
| glVertex3f (x y z : R)
| glEnd
| glPopMatrix
| glDisable_TEXTURE_2D.

(** A drawing routine: it appends to the calls made so far, and may raise. *)
Definition drawing (A : Type) : Type := list gl_call -> result A * list gl_call.

Definition done {A} (a : A) : drawing A := fun calls => (Ok a, calls).
Definition then_ {A B} (m : drawing A) (k : A -> drawing B) : drawing B :=
  fun calls =>
    match m calls with
    | (Ok a, calls') => k a calls'
    | (Raise e, calls') => (Raise e, calls')
    end.
Definition call (c : gl_call) : drawing unit := fun calls => (Ok tt, calls ++ [c]).
Definition compute {A} (r : result A) : drawing A := fun calls => (r, calls).

Notation "x <~ m ; k" := (then_ m (fun x => k))
  (at level 61, m at next level, right associativity).
Notation "m ;> k" := (then_ m (fun _ => k))
  (at level 61, right associativity).

(** [for x in xs: body(x)] *)
Fixpoint for_each {A} (xs : list A) (body : A -> drawing unit) : drawing unit :=
  match xs with
  | [] => done tt
  | x :: rest => body x ;> for_each rest body
  end.

(** [range(n)] for an integer [n]. *)
Definition range (n : Z) : list Z := map Z.of_nat (seq 0 (Z.to_nat n)).

(** [draw_textured_earth(self, radius=6371.0, stacks=40, slices=80)];
    [texture_id] is [self.texture_id]. *)
Definition draw_textured_earth
  (texture_id : option Z) (radius : R) (stacks slices : Z) : drawing unit :=
  call glEnable_TEXTURE_2D ;>
  (match texture_id with
   | Some t => call (glBindTexture_TEXTURE_2D t)
   | None => done tt
   end) ;>
  call glPushMatrix ;>
  call (glRotatef 180 0 0 1) ;>
  call (glRotatef (- OBLIQUITY_DEG) 1 0 0) ;>
  for_each (range stacks) (fun i =>
    q0 <~ compute (py_div (IZR i) (IZR stacks)) ;
    let lat0 := PI * (-0.5 + q0) in
    q1 <~ compute (py_div (IZR (i + 1)) (IZR stacks)) ;
    let lat1 := PI * (-0.5 + q1) in
    let y0 := sin lat0 in
    let y1 := sin lat1 in
    let r0 := cos lat0 in
    let r1 := cos lat1 in
    call glBegin_QUAD_STRIP ;>
    for_each (range (slices + 1)) (fun j =>
      q <~ compute (py_div (IZR j) (IZR slices)) ;
      let lon := 2 * PI * q in
      let x0 := cos lon in
      let z0 := sin lon in
      u <~ compute (py_div (IZR j) (IZR slices)) ;
      let v0 := 0.5 + lat0 / PI in
      let v1 := 0.5 + lat1 / PI in
      call (glTexCoord2f u v0) ;>
      call (glNormal3f (r0 * x0) (r0 * z0) y0) ;>
      call (glVertex3f (radius * r0 * x0) (radius * r0 * z0) (radius * y0)) ;>
      call (glTexCoord2f u v1) ;>
      call (glNormal3f (r1 * x0) (r1 * z0) y1) ;>
      call (glVertex3f (radius * r1 * x0) (radius * r1 * z0) (radius * y1))) ;>
    call glEnd) ;>
  call glPopMatrix ;>
  call glDisable_TEXTURE_2D.

(** The six calls of one step of the inner loop. *)
Definition pair_calls (radius : R) (stacks slices i j : Z) : list gl_call :=
  let lat0 := PI * (-0.5 + IZR i / IZR stacks) in
  let lat1 := PI * (-0.5 + IZR (i + 1) / IZR stacks) in
  let lon := 2 * PI * (IZR j / IZR slices) in
  let u := IZR j / IZR slices in
  [glTexCoord2f u (0.5 + lat0 / PI);
   glNormal3f (cos lat0 * cos lon) (cos lat0 * sin lon) (sin lat0);
   glVertex3f (radius * cos lat0 * cos lon) (radius * cos lat0 * sin lon) (radius * sin lat0);
   glTexCoord2f u (0.5 + lat1 / PI);
   glNormal3f (cos lat1 * cos lon) (cos lat1 * sin lon) (sin lat1);
   glVertex3f (radius * cos lat1 * cos lon) (radius * cos lat1 * sin lon) (radius * sin lat1)].

(** The calls of one latitude band. *)
Definition band_calls (radius : R) (stacks slices i : Z) : list gl_call :=
  glBegin_QUAD_STRIP
    :: flat_map (pair_calls radius stacks slices i) (range (slices + 1)) ++ [glEnd].

(** The calls before and after the bands. *)
Definition opening_calls (texture_id : option Z) : list gl_call :=
  glEnable_TEXTURE_2D
    :: match texture_id with
       | Some t => [glBindTexture_TEXTURE_2D t]
       | None => []
       end
    ++ [glPushMatrix; glRotatef 180 0 0 1; glRotatef (- OBLIQUITY_DEG) 1 0 0].

(** What a call must satisfy to lie on the unit sphere (a normal), on the
    sphere of radius [radius] (a vertex), or in the unit square (a texture
    coordinate). *)
Definition on_sphere (radius : R) (c : gl_call) : Prop :=
  match c with
  | glVertex3f x y z => x * x + y * y + z * z = radius * radius
  | glNormal3f x y z => x * x + y * y + z * z = 1
  | glTexCoord2f u v => 0 <= u <= 1 /\ 0 <= v <= 1
  | _ => True
  end.

Definition is_vertex (c : gl_call) : bool :=
  match c with
  | glVertex3f _ _ _ => true
  | _ => false
  end.

End Globe.

(** ** The line colour of [_3d], [_2d] and [liveorbit] *)

Module Colour.
Import PyStr.
Local Open Scope nat_scope.

(** [lncolor.lstrip('#')] *)
Fixpoint lstrip_hash (s : text) : text :=
  match s with
  | c :: s' => if Ascii.eqb c "#"%char then lstrip_hash s' else s
  | [] => []
  end.

(** Digits of base 16: [0-9], [A-F], [a-f]. *)
Definition is_hex_digit (c : ascii) : bool :=
  let n := nat_of_ascii c in
  ((48 <=? n) && (n <=? 57)) || ((65 <=? n) && (n <=? 70))
  || ((97 <=? n) && (n <=? 102)).

Definition hex_value (c : ascii) : N :=
  let n := nat_of_ascii c in
  if n <=? 57 then N.of_nat (n - 48)
  else if n <=? 70 then N.of_nat (n - 55)
  else N.of_nat (n - 87).

(** Underscores of a literal in base 16: each one directly after a digit and
    directly before a digit. *)
Fixpoint drop_underscores16 (prev_digit : bool) (s : text) : option text :=
  match s with
  | [] => Some []
  | c :: s' =>
      if is_underscore c then
        match s' with
        | d :: _ =>
            if prev_digit && is_hex_digit d then drop_underscores16 false s' else None
        | [] => None
        end
      else
        match drop_underscores16 (is_hex_digit c) s' with
        | Some r => Some (c :: r)
        | None => None
        end
  end.

(** Longest prefix of digits of base 16, as a number, with its length and
    the rest. *)
Fixpoint hex_digits (acc : N) (len : nat) (s : text) : N * nat * text :=
  match s with
  | c :: s' =>
      if is_hex_digit c then hex_digits (16 * acc + hex_value c)%N (S len) s'
      else (acc, len, s)
  | [] => (acc, len, [])
  end.

(** The optional prefix [0x] or [0X] of base 16, and the one underscore
    allowed after it. *)
Definition skip_prefix (s : text) : text :=
  match s with
  | "0"%char :: x :: r =>
      if Ascii.eqb x "x"%char || Ascii.eqb x "X"%char then
        match r with
        | "_"%char :: r' => r'
        | _ => r
        end
      else s
  | _ => s
  end.

(** [int(s, 16)]; [None] is ValueError. *)
Definition int16_syntax (s : text) : option Z :=
  let '(neg, t) := sign (strip s) in
  match drop_underscores16 false (skip_prefix t) with
  | None => None
  | Some d =>
      match hex_digits 0 0 d with
      | (_, O, _) => None
      | (n, S _, []) => Some (if neg then - Z.of_N n else Z.of_N n)%Z
      | (_, S _, _ :: _) => None
      end
  end.

Definition py_int16 (s : text) : result Z :=
  match int16_syntax s with
  | Some z => Ok z
  | None => Raise ValueError
  end.

(** [tuple(int(lncolor.lstrip('#')[i:i+2], 16)/255.0 for i in (0, 2, 4))] *)
Definition line_rgb (lncolor : text) : result (R * R * R) :=
  let h := lstrip_hash lncolor in
  let* r := py_int16 (slice 0 2 h) in
  let* g := py_int16 (slice 2 4 h) in
  let* b := py_int16 (slice 4 6 h) in
  Ok (IZR r / 255.0, IZR g / 255.0, IZR b / 255.0)%R.

End Colour.

(** ** The animation timer of [_3d] and [_2d] *)

Module Anim.

(** [orbits_to_show = revolves if revolves else 2]: [None] and zero count as
    false. *)
Definition orbits_to_show (revolves : option R) : R :=
  match revolves with
  | Some r => if Req_dec_T r 0 then 2 else r
  | None => 2
  end.

(** [points_per_orbit = max(1, N // orbits_to_show)], [//] being the floor
    division. *)
Definition points_per_orbit (N : Z) (revolves : option R) : R :=
  Rmax 1 (IZR (Zfloor (IZR N / orbits_to_show revolves))).

(** [interval_ms = max(1, int((period / points_per_orbit) * 1000))] *)
Definition interval_ms (period : R) (N : Z) (revolves : option R) : Z :=
  Z.max 1 (Plot.py_trunc (period / points_per_orbit N revolves * 1000)).

(** The request [_3d] and [_2d] make:
    [self._prepare_propagation(animation=animation, revolves=revolves)], with
    the default 2000 sample points per orbit. *)
Definition view_request (animation : bool) (revolves : option R) : Plot.request :=
  Plot.mkRequest animation revolves 2000.

End Anim.

(** ** The ground track: what [_2d] and [liveorbit] do with the latitudes and
    longitudes *)

Module Track.
Import OrbMath.

(** The angles [theta] that [eci_to_ecef] rotates by, after
    [if theta.size == 1: theta = np.full(N, theta.item())]. *)
Definition rotation_angles (t_sec : list R) (gst0 : R) (N : nat) : list R :=
  let theta := map (fun t => gst0 + OMEGA_EARTH * t) t_sec in
  match theta with
  | [th] => repeat th N
  | _ => theta
  end.

(** The latitudes and longitudes of a result of [ecef_to_latlon]. *)
Definition latitudes (l : latlon) : list R :=
  match l with LatLon1 lat _ _ => [lat] | LatLonN lat _ _ => lat end.

Definition longitudes (l : latlon) : list R :=
  match l with LatLon1 _ lon _ => [lon] | LatLonN _ lon _ => lon end.


(** A [pg.PlotCurveItem(seg_lon, seg_lat, pen=pen)]: the longitudes and the
    latitudes it is given.  A plot widget is the list of the items added to
    it, oldest first. *)
Definition curve : Type := (list R * list R)%type.

(** The loop [for i in range(1, len(lon_arr))] of [add_wrapped_segments]:
    [prev] is [lon_arr[i-1]], [lon_rest] is [lon_arr[i:]].  Returns what the
    function returns or raises, and the widget as it is left. *)
Fixpoint wrapped_loop (lat_arr : list R) (prev : R) (lon_rest : list R) (i : nat)
    (seg_lon seg_lat : list R) (segments plot_widget : list curve)
  : result (list curve) * list curve :=
  match lon_rest with
  | [] =>
      let seg := (seg_lon, seg_lat) in
      (Ok (segments ++ [seg]), plot_widget ++ [seg])
  | x :: rest =>
      if Rlt_dec 180 (Rabs (x - prev)) then
        let seg := (seg_lon, seg_lat) in
        match nth_error lat_arr i with
        | None => (Raise IndexError, plot_widget ++ [seg])
        | Some y =>
            wrapped_loop lat_arr x rest (S i) [x] [y] (segments ++ [seg])
              (plot_widget ++ [seg])
        end
      else
        match nth_error lat_arr i with
        | None => (Raise IndexError, plot_widget)
        | Some y =>
            wrapped_loop lat_arr x rest (S i) (seg_lon ++ [x]) (seg_lat ++ [y])
              segments plot_widget
        end
  end.

(** [add_wrapped_segments(plot_widget, lon_arr, lat_arr)] of [_2d]. *)
Definition add_wrapped_segments (plot_widget : list curve) (lon_arr lat_arr : list R)
  : result (list curve) * list curve :=
  match lon_arr with
  | [] | [_] => (Ok [], plot_widget)
  | x0 :: rest =>
      match lat_arr with
      | [] => (Raise IndexError, plot_widget)
      | y0 :: _ => wrapped_loop lat_arr x0 rest 1 [x0] [y0] [] plot_widget
      end
  end.

(** No two neighbours of a list of longitudes are more than 180 apart. *)
Fixpoint no_jump (l : list R) : Prop :=
  match l with
  | x :: (y :: _) as t => Rabs (y - x) <= 180 /\ no_jump t
  | _ => True
  end.

(** Each curve ends more than 180 away from where the next one starts. *)
Fixpoint jumps_between (segs : list curve) : Prop :=
  match segs with
  | s :: (t :: _) as rest =>
      180 < Rabs (hd 0 (fst t) - last (fst s) 0) /\ jumps_between rest
  | _ => True
  end.

(** A curve has as many latitudes as longitudes, at least one, and no jump. *)
Definition unbroken (s : curve) : Prop :=
  fst s <> [] /\ length (fst s) = length (snd s) /\ no_jump (fst s).

(** *** The fading track of [liveorbit] *)

(** The first loop of [add_wrapped_gradient]: the same split at the date
    line, collected in [segs]. *)
Fixpoint split_loop (lat_seg : list R) (prev : R) (lon_rest : list R) (j : nat)
    (seg_lon seg_lat : list R) (segs : list curve) : result (list curve) :=
  match lon_rest with
  | [] => Ok (segs ++ [(seg_lon, seg_lat)])
  | x :: rest =>
      match nth_error lat_seg j with
      | None => Raise IndexError
      | Some y =>
          if Rlt_dec 180 (Rabs (x - prev))
          then split_loop lat_seg x rest (S j) [x] [y] (segs ++ [(seg_lon, seg_lat)])
          else split_loop lat_seg x rest (S j) (seg_lon ++ [x]) (seg_lat ++ [y]) segs
      end
  end.

(** [np.linspace(start, stop, num, endpoint=False)] *)
Definition linspace_open (start stop : R) (num : Z) : result (list R) :=
  if (num <? 0)%Z then Raise ValueError
  else
    let step := (stop - start) / IZR num in
    Ok (map (fun k => start + INR k * step) (seq 0 (Z.to_nat num))).

(** [alpha_profile]: up from 0 towards 255 over the first half, down from
    255 to 0 over the rest. *)
Definition alpha_profile (N : nat) : result (list R) :=
  let half := (Z.of_nat N / 2)%Z in
  let* up := linspace_open 0 255 half in
  let* down := Plot.linspace 255 0 (Z.of_nat N - half) in
  Ok (up ++ down).

(** A [pg.PlotCurveItem] and the alpha of its pen. *)
Definition fade_item : Type := (curve * Z)%type.

(** The item of step [k] of the inner loop:
    [PlotCurveItem([seg_lon[k], seg_lon[k+1]], [seg_lat[k], seg_lat[k+1]])]
    with the alpha [int(alphas[k])]. *)
Definition item_at (seg_lon seg_lat alphas : list R) (k : nat) : result fade_item :=
  match nth_error alphas k, nth_error seg_lon k, nth_error seg_lon (S k),
        nth_error seg_lat k, nth_error seg_lat (S k) with
  | Some alpha, Some x0, Some x1, Some y0, Some y1 =>
      Ok (([x0; x1], [y0; y1]), Plot.py_trunc alpha)
  | _, _, _, _, _ => Raise IndexError
  end.

(** [for k in range(seg_len - 1)]: each item is added to the plot and
    appended to [items]. *)
Fixpoint items_of_segment (seg_lon seg_lat alphas : list R) (ks : list nat)
    (items plot_widget : list fade_item) : result (list fade_item) * list fade_item :=
  match ks with
  | [] => (Ok items, plot_widget)
  | k :: ks' =>
      match item_at seg_lon seg_lat alphas k with
      | Raise e => (Raise e, plot_widget)
      | Ok it =>
          items_of_segment seg_lon seg_lat alphas ks' (items ++ [it]) (plot_widget ++ [it])
      end
  end.

(** [for seg_lon, seg_lat in segs], with [start_idx] running along the
    profile. *)
Fixpoint items_of_segments (profile : list R) (segs : list curve) (start_idx : nat)
    (items plot_widget : list fade_item) : result (list fade_item) * list fade_item :=
  match segs with
  | [] => (Ok items, plot_widget)
  | (seg_lon, seg_lat) :: rest =>
      let seg_len := length seg_lon in
      let alphas := firstn seg_len (skipn start_idx profile) in
      match items_of_segment seg_lon seg_lat alphas (seq 0 (seg_len - 1))
              items plot_widget with
      | (Ok items', plot') =>
          items_of_segments profile rest (start_idx + seg_len) items' plot'
      | (Raise e, plot') => (Raise e, plot')
      end
  end.

(** [add_wrapped_gradient(plot_widget, lon_seg, lat_seg, base_rgb)] of
    [liveorbit]; the colour [base_rgb] is the same for every item and is left
    out. *)
Definition add_wrapped_gradient
  (plot_widget : list fade_item) (lon_seg lat_seg : list R)
  : result (list fade_item) * list fade_item :=
  match lon_seg with
  | [] | [_] => (Ok [], plot_widget)
  | x0 :: rest =>
      match lat_seg with
      | [] => (Raise IndexError, plot_widget)
      | y0 :: _ =>
          match split_loop lat_seg x0 rest 1 [x0] [y0] [] with
          | Raise e => (Raise e, plot_widget)
          | Ok segs =>
              match alpha_profile (length lon_seg) with
              | Raise e => (Raise e, plot_widget)
              | Ok profile => items_of_segments profile segs 0 [] plot_widget
              end
          end
      end
  end.

(** One item for each pair of neighbours that are no more than 180 apart; the
    pair that starts at sample [g] has the alpha [int(profile[g])]. *)
Fixpoint joined_pairs (profile : list R) (g : nat) (lon lat : list R) : list fade_item :=
  match lon, lat with
  | x0 :: ((x1 :: _) as lon'), y0 :: ((y1 :: _) as lat') =>
      (if Rlt_dec 180 (Rabs (x1 - x0)) then []
       else [(([x0; x1], [y0; y1]), Plot.py_trunc (nth g profile 0))])
      ++ joined_pairs profile (S g) lon' lat'
  | _, _ => []
  end.

(** [((lon + 180) % 360) - 180] of [update_live]. *)
Definition wrap_lon (lon : R) : R := py_mod (lon + 180) 360 - 180.

End Track.

(** * Properties *)

(** ** The primitives on examples *)

Section Examples.
Import PyStr Calendar.

Let txt (s : string) : text := list_ascii_of_string s.

Example slice_inside : slice 8 16 Tle.exponent_line2 = txt " 51.6356".
Proof. reflexivity. Qed.

Example slice_clips : slice 52 63 (txt "2 25544  51.6356") = [].
Proof. reflexivity. Qed.

Example strip_both_sides : strip (txt "  25229.18 ") = txt "25229.18".
Proof. reflexivity. Qed.

Example int_of_digits : int_syntax (txt "25") = Some 25%Z.
Proof. reflexivity. Qed.

Example int_of_nothing : int_syntax (txt "") = None.
Proof. reflexivity. Qed.

Example int_of_decimal_point : int_syntax (txt "2.") = None.
Proof. reflexivity. Qed.

Example float_of_field : float_syntax (txt " 51.6356") = Some (LitDec false 516356 (-4)).
Proof. reflexivity. Qed.

Example float_of_exponent : float_syntax (txt "0.1e1") = Some (LitDec false 1 0).
Proof. reflexivity. Qed.

Example float_of_bare_point : float_syntax (txt "0.") = Some (LitDec false 0 0).
Proof. reflexivity. Qed.

Example float_of_underscores :
  float_syntax (txt "1_0.5") = Some (LitDec false 105 (-1))
  /\ float_syntax (txt "1__0") = None
  /\ float_syntax (txt "_10") = None.
Proof. repeat split. Qed.

Example float_of_specials :
  float_syntax (txt "-Inf") = Some (LitInf true)
  /\ float_syntax (txt "nan") = Some LitNan
  /\ float_syntax (txt "0.nan") = None.
Proof. repeat split. Qed.

Example float_of_nothing : float_syntax (txt "") = None.
Proof. reflexivity. Qed.

Example float_of_letters : float_syntax (txt "51.6E5x") = None.
Proof. reflexivity. Qed.

Example epoch_is_1970 : ord2ymd EPOCH_ORDINAL = (1970, 1, 1)%Z.
Proof. reflexivity. Qed.

Example leap_day_2024 : ord2ymd 738945 = (2024, 2, 29)%Z.
Proof. reflexivity. Qed.

Example no_leap_day_2100 : ord2ymd (ymd2ord 2100 2 28 + 1) = (2100, 3, 1)%Z.
Proof. reflexivity. Qed.

Example last_day : ord2ymd MAXORDINAL = (9999, 12, 31)%Z.
Proof. reflexivity. Qed.

Example first_of_2025 : ymd2ord 2025 1 1 = 739252%Z.
Proof. reflexivity. Qed.

End Examples.

(** ** The float modulo *)

Section Modulo.

Lemma py_mod_range x m : 0 < m -> 0 <= py_mod x m < m.
Proof.
  intros Hm. unfold py_mod.
  pose proof (Zfloor_bound (x / m)) as [Hl Hu].
  assert (Hx : x = m * (x / m)) by (field; lra).
  split.
  - assert (m * IZR (Zfloor (x / m)) <= m * (x / m))
      by (apply Rmult_le_compat_l; lra).
    lra.
  - assert (m * (x / m) < m * (IZR (Zfloor (x / m)) + 1))
      by (apply Rmult_lt_compat_l; lra).
    lra.
Qed.

Lemma py_mod_small x m : 0 <= x < m -> py_mod x m = x.
Proof.
  intros [H0 H1]. unfold py_mod.
  assert (Hm : 0 < m) by lra.
  assert (Hf : Zfloor (x / m) = 0%Z).
  { apply Zfloor_eq. simpl. split.
    - apply Rmult_le_pos; [lra|]. left. now apply Rinv_0_lt_compat.
    - apply (Rmult_lt_reg_r m); [lra|]. unfold Rdiv.
      rewrite Rmult_assoc, Rinv_l by lra. lra. }
  rewrite Hf. simpl. ring.
Qed.

End Modulo.

(** ** The Kepler solver returns, with or without convergence *)

Section KeplerReturns.
Import Kepler.

Lemma map2_length {A B C} (f : A -> B -> C) xs ys :
  length xs = length ys -> length (map2 f xs ys) = length xs.
Proof.
  revert ys; induction xs as [|x xs IH]; intros [|y ys] H; simpl in *;
    try discriminate; auto.
Qed.

Lemma update_length e M E :
  length M = length E -> length (update e M E) = length E.
Proof.
  intros H. unfold update, deltas.
  rewrite map2_length; auto. rewrite map2_length; auto.
Qed.

Lemma iter_update_length e M E k :
  length M = length E -> length (Nat.iter k (update e M) E) = length E.
Proof.
  intros H. induction k as [|k IH]; simpl; auto.
  rewrite update_length; congruence.
Qed.

Lemma initial_guess_length e M : length (initial_guess e M) = length M.
Proof.
  unfold initial_guess. destruct (Rltb 0.8 (Rabs e)); auto.
  now rewrite length_map.
Qed.

Lemma iter_shift {A} (f : A -> A) k x : Nat.iter k f (f x) = f (Nat.iter k f x).
Proof. induction k as [|k IH]; simpl; congruence. Qed.

(** The loop is the update applied [iterations] times. *)
Lemma newton_unfold e tol M E maxiter :
  newton e tol M E maxiter
  = Nat.iter (iterations e tol M E maxiter) (update e M) E.
Proof.
  revert E; induction maxiter as [|k IH]; intros E; simpl; auto.
  fold (update e M E).
  destruct (all_below tol (deltas e M E)); simpl; auto.
  rewrite IH. now rewrite iter_shift.
Qed.

Lemma iterations_le e tol M E maxiter :
  (iterations e tol M E maxiter <= maxiter)%nat.
Proof.
  revert E; induction maxiter as [|k IH]; intros E; simpl; auto.
  destruct (all_below tol (deltas e M E)); [lia|].
  specialize (IH (update e M E)); lia.
Qed.

(** When no step passes the tolerance test, the cap is reached. *)
Lemma iterations_cap e tol M E maxiter :
  (forall j, (j < maxiter)%nat ->
     all_below tol (deltas e M (Nat.iter j (update e M) E)) = false) ->
  iterations e tol M E maxiter = maxiter.
Proof.
  revert E; induction maxiter as [|k IH]; intros E H; simpl; auto.
  pose proof (H 0%nat ltac:(lia)) as H0. simpl in H0. rewrite H0.
  f_equal. apply IH.
  intros j Hj. rewrite iter_shift. apply (H (S j)). lia.
Qed.

Lemma slope_pos e E : 0 <= e < 1 -> 0 < slope e E.
Proof.
  intros [H0 H1]. unfold slope.
  pose proof (COS_bound E) as [Hl Hu].
  assert (e * cos E <= e * 1) by (apply Rmult_le_compat_l; lra).
  lra.
Qed.

End KeplerReturns.

(** C7: for every batch of mean anomalies and every eccentricity in [0, 1),
    [kepler_E] returns one value per mean anomaly after at most [maxiter]
    Newton updates, each update dividing by a positive slope; when the
    tolerance test never passes, the value returned is the estimate reached
    at the iteration cap, and nothing is raised. *)
Theorem kepler_E_always_returns (M : list R) (e tol : R) (maxiter : nat) :
  0 <= e < 1 ->
  let M' := map Kepler.normalize M in
  let E0 := Kepler.initial_guess e M' in
  let k := Kepler.iterations e tol M' E0 maxiter in
  (k <= maxiter)%nat
  /\ Kepler.kepler_E M e tol maxiter = Nat.iter k (Kepler.update e M') E0
  /\ length (Kepler.kepler_E M e tol maxiter) = length M
  /\ (forall E, 0 < Kepler.slope e E)
  /\ ((forall j, (j < maxiter)%nat ->
         Kepler.all_below tol
           (Kepler.deltas e M' (Nat.iter j (Kepler.update e M') E0)) = false) ->
      Kepler.kepler_E M e tol maxiter = Nat.iter maxiter (Kepler.update e M') E0).
Proof.
  intros He M' E0 k.
  assert (Hlen : length M' = length E0).
  { unfold E0. now rewrite initial_guess_length. }
  assert (Hres : Kepler.kepler_E M e tol maxiter = Nat.iter k (Kepler.update e M') E0).
  { unfold Kepler.kepler_E. apply newton_unfold. }
  split; [apply iterations_le|].
  split; [exact Hres|].
  split.
  { rewrite Hres, iter_update_length by exact Hlen.
    unfold E0, M'. now rewrite initial_guess_length, length_map. }
  split; [intros E; now apply slope_pos|].
  intros Hnever. rewrite Hres. unfold k.
  now rewrite (iterations_cap e tol M' E0 maxiter Hnever).
Qed.

Lemma kepler_E_always_returns_witness :
  0 <= 0.5 < 1 /\
  let M' := map Kepler.normalize [1; -2] in
  let E0 := Kepler.initial_guess 0.5 M' in
  let k := Kepler.iterations 0.5 Kepler.default_tol M' E0 Kepler.default_maxiter in
  (k <= Kepler.default_maxiter)%nat
  /\ Kepler.kepler_E [1; -2] 0.5 Kepler.default_tol Kepler.default_maxiter
     = Nat.iter k (Kepler.update 0.5 M') E0
  /\ length (Kepler.kepler_E [1; -2] 0.5 Kepler.default_tol Kepler.default_maxiter)
     = length [1; -2]
  /\ (forall E, 0 < Kepler.slope 0.5 E)
  /\ ((forall j, (j < Kepler.default_maxiter)%nat ->
         Kepler.all_below Kepler.default_tol
           (Kepler.deltas 0.5 M' (Nat.iter j (Kepler.update 0.5 M') E0)) = false) ->
      Kepler.kepler_E [1; -2] 0.5 Kepler.default_tol Kepler.default_maxiter
      = Nat.iter Kepler.default_maxiter (Kepler.update 0.5 M') E0).
Proof.
  assert (H : 0 <= 0.5 < 1) by lra.
  split; [exact H|].
  exact (kepler_E_always_returns [1; -2] 0.5 Kepler.default_tol Kepler.default_maxiter H).
Defined.

(** ** The Kepler solver: accuracy on exit through the tolerance test *)

Section KeplerAccuracy.
Import Kepler.

Lemma sin_abs_le x : Rabs (sin x) <= Rabs x.
Proof.
  assert (Hpos : forall y, 0 < y -> Rabs (sin y) <= y).
  { intros y Hy. apply Rabs_le. split.
    - destruct (Rle_dec y PI) as [Hle|Hgt].
      + pose proof (sin_ge_0 y (Rlt_le _ _ Hy) Hle). lra.
      + pose proof (SIN_bound y) as [Hl _]. pose proof PI2_3_2. pose proof PI_RGT_0.
        assert (1 < PI) by (unfold Rdiv in *; lra). lra.
    - left. now apply sin_lt_x. }
  destruct (Rtotal_order x 0) as [Hneg|[->|Hp]].
  - rewrite <- (Ropp_involutive x) at 1. rewrite sin_neg, Rabs_Ropp.
    rewrite (Rabs_left x Hneg). apply Hpos. lra.
  - rewrite sin_0, Rabs_R0. lra.
  - rewrite (Rabs_right x) by lra. now apply Hpos.
Qed.

Lemma sin_lipschitz a b : Rabs (sin a - sin b) <= Rabs (a - b).
Proof.
  rewrite form4. rewrite !Rabs_mult.
  pose proof (COS_bound ((a + b) / 2)) as [Hc1 Hc2].
  assert (Hc : Rabs (cos ((a + b) / 2)) <= 1) by (apply Rabs_le; lra).
  pose proof (sin_abs_le ((a - b) / 2)) as Hs.
  assert (Hh : Rabs ((a - b) / 2) = Rabs (a - b) / 2).
  { unfold Rdiv. rewrite Rabs_mult. f_equal. apply Rabs_right.
    apply Rle_ge. left. apply Rinv_0_lt_compat. lra. }
  rewrite Hh in Hs. rewrite (Rabs_right 2) by lra.
  pose proof (Rabs_pos (cos ((a + b) / 2))).
  pose proof (Rabs_pos (sin ((a - b) / 2))).
  pose proof (Rabs_pos (a - b)).
  nra.
Qed.

(** After an update by [d] the residual is at most [2 e |d|]. *)
Lemma residual_after_update e M E :
  0 <= e < 1 ->
  Rabs (residual e M (E + delta e M E)) <= 2 * e * Rabs (delta e M E).
Proof.
  intros He.
  pose proof (slope_pos e E He) as Hs.
  set (d := delta e M E).
  assert (Hd : residual e M E = - d * slope e E).
  { unfold d, delta. field. lra. }
  assert (Hr : residual e M (E + d) = e * (d * cos E - (sin (E + d) - sin E))).
  { unfold residual in *. unfold slope in Hd. lra. }
  rewrite Hr, Rabs_mult, (Rabs_right e) by lra.
  assert (H1 : Rabs (d * cos E) <= Rabs d).
  { rewrite Rabs_mult. pose proof (COS_bound E) as [Hc1 Hc2].
    assert (Rabs (cos E) <= 1) by (apply Rabs_le; lra).
    pose proof (Rabs_pos d). nra. }
  pose proof (sin_lipschitz (E + d) E) as H2.
  replace (E + d - E) with d in H2 by ring.
  pose proof (Rabs_triang (d * cos E) (- (sin (E + d) - sin E))) as H3.
  rewrite Rabs_Ropp in H3.
  assert (Rabs (d * cos E - (sin (E + d) - sin E)) <= 2 * Rabs d) by (unfold Rminus at 1; lra).
  nra.
Qed.

Lemma all_below_update e tol M E :
  0 <= e < 1 -> length M = length E ->
  all_below tol (deltas e M E) = true ->
  Forall2 (fun m x => Rabs (residual e m x) <= 2 * e * tol) M (update e M E).
Proof.
  intros He. revert E; induction M as [|m M IH]; intros [|x E] Hlen Hall;
    simpl in *; try discriminate; [constructor|].
  apply andb_true_iff in Hall as [Hd Hrest].
  unfold Rltb in Hd. destruct (Rlt_dec (Rabs (delta e m x)) tol) as [Hlt|]; [|discriminate].
  constructor.
  - pose proof (residual_after_update e m x He). nra.
  - apply IH; [lia|exact Hrest].
Qed.

Lemma newton_converged e tol M E maxiter :
  0 <= e < 1 -> length M = length E ->
  converged e tol M E maxiter = true ->
  Forall2 (fun m x => Rabs (residual e m x) <= 2 * e * tol) M (newton e tol M E maxiter).
Proof.
  intros He. revert E; induction maxiter as [|k IH]; intros E Hlen Hc; simpl in *.
  - discriminate.
  - fold (update e M E) in *.
    destruct (all_below tol (deltas e M E)) eqn:Hall.
    + now apply all_below_update.
    + apply IH; [|exact Hc]. rewrite update_length; auto.
Qed.

End KeplerAccuracy.

(** ** The Kepler solver: a start that falls into a cycle *)

Section KeplerCycle.
Import Kepler.

(** Taylor bounds of sine and cosine, and a bracket of pi. *)
Lemma sin_taylor x : 0 <= x <= 1 -> x - x ^ 3 / 6 <= sin x <= x - x ^ 3 / 6 + x ^ 5 / 120.
Proof.
  intros [H0 H1].
  assert (Hpi : x <= PI) by (pose proof PI2_3_2; lra).
  pose proof (sin_bound x 0 H0 Hpi) as [Hl Hu].
  unfold sin_approx, sin_term in Hl, Hu. simpl in Hl, Hu.
  lra.
Qed.

Lemma cos_taylor x : 0 <= x <= 1 -> 1 - x ^ 2 / 2 <= cos x <= 1 - x ^ 2 / 2 + x ^ 4 / 24.
Proof.
  intros [H0 H1].
  assert (Hpi1 : - PI / 2 <= x) by (pose proof PI2_3_2; lra).
  assert (Hpi2 : x <= PI / 2) by (pose proof PI2_3_2; lra).
  pose proof (cos_bound x 0 Hpi1 Hpi2) as [Hl Hu].
  unfold cos_approx, cos_term in Hl, Hu. simpl in Hl, Hu.
  lra.
Qed.

Lemma PI_bounds : 3.14159 < PI < 3.1416.
Proof.
  pose proof (PI_2_3_7_ineq 2) as [Hl Hu].
  unfold PI_2_3_7_tg, tg_alt, Ratan_seq in Hl, Hu. simpl in Hl, Hu.
  lra.
Qed.


Lemma div_between n d lo hi :
  0 < d -> lo * d <= n -> n <= hi * d -> lo <= n / d <= hi.
Proof.
  intros Hd Hlo Hhi. unfold Rdiv.
  split; apply (Rmult_le_reg_r d); try exact Hd;
    rewrite Rmult_assoc, Rinv_l by lra; lra.
Qed.

Lemma step_closed_form e M E :
  1 - e * cos E <> 0 ->
  step e M E = (M + e * (sin E - E * cos E)) / (1 - e * cos E).
Proof. intros H. unfold step, delta, residual, slope. field. exact H. Qed.

Lemma small_angle E :
  Rabs E <= 0.006 ->
  1 - 0.000018 <= cos E <= 1 /\ -0.0000002 <= sin E - E * cos E <= 0.0000002.
Proof.
  intros HE.
  assert (Hpos : forall x, 0 <= x <= 0.006 ->
            1 - 0.000018 <= cos x <= 1 /\ -0.0000002 <= sin x - x * cos x <= 0.0000002).
  { intros x [Hx0 Hx1].
    pose proof (sin_taylor x ltac:(lra)) as [Hs1 Hs2].
    pose proof (cos_taylor x ltac:(lra)) as [Hc1 Hc2].
    pose proof (COS_bound x) as [_ Hc3].
    assert (Hx2 : x ^ 2 <= 0.000036) by nra.
    assert (Hx3 : 0 <= x ^ 3 <= 0.000000216) by nra.
    assert (Hx5 : 0 <= x ^ 5 <= 0.000000001) by nra.
    assert (Hxc : x - 0.000018 * x <= x * cos x <= x) by nra.
    split; [lra|]. lra. }
  destruct (Rle_dec 0 E) as [Hp|Hn].
  - rewrite Rabs_right in HE by lra.
    destruct (Hpos E ltac:(lra)) as [Hc Hs]. split; [exact Hc|exact Hs].
  - rewrite Rabs_left in HE by lra.
    destruct (Hpos (- E) ltac:(lra)) as [Hc Hs].
    rewrite cos_neg in Hc, Hs. rewrite sin_neg in Hs.
    split; [exact Hc|]. lra.
Qed.

(** From near zero the update lands far on the left. *)
Lemma step_near_zero E : near_zero E -> far_left (step e_cycle M_cycle E).
Proof.
  intros [H0 H1].
  destruct (small_angle E) as [[Hc1 Hc2] Hs]; [apply Rabs_le; lra|].
  destruct Hs as [Hs1 Hs2].
  set (s := sin E - E * cos E) in *.
  assert (HD : 0.1038 <= 1 - e_cycle * cos E <= 0.103817) by (unfold e_cycle; lra).
  rewrite step_closed_form by lra. fold s.
  set (D := 1 - e_cycle * cos E) in *.
  assert (HN : -0.4787002 <= M_cycle + e_cycle * s <= -0.4786998)
    by (unfold M_cycle, e_cycle; lra).
  set (Nm := M_cycle + e_cycle * s) in *.
  unfold far_left. apply div_between; [lra|nra|nra].
Qed.

Lemma trig_near_tenth x :
  0.100585 <= x <= 0.1015 ->
  0.10041 <= sin x <= 0.10134 /\ 0.994848 <= cos x <= 0.994946.
Proof.
  intros Hx.
  assert (Hx2 : 0.010117 <= x ^ 2 <= 0.010303).
  { replace (x ^ 2) with (x * x) by ring. nra. }
  assert (Hx3 : 0.0010176 <= x ^ 3 <= 0.0010458).
  { replace (x ^ 3) with (x * x ^ 2) by ring. nra. }
  assert (Hx4 : 0 <= x ^ 4 <= 0.0001062).
  { replace (x ^ 4) with (x ^ 2 * x ^ 2) by ring. nra. }
  assert (Hx5 : 0 <= x ^ 5 <= 0.00002).
  { replace (x ^ 5) with (x * x ^ 4) by ring. nra. }
  pose proof (sin_taylor x ltac:(lra)) as [Hs1 Hs2].
  pose proof (cos_taylor x ltac:(lra)) as [Hc1 Hc2].
  lra.
Qed.

Lemma product_far_left E s :
  -4.6118 <= E <= -4.6109 -> 0.10041 <= s <= 0.10134 ->
  -0.46736 <= E * s <= -0.46298.
Proof. intros HE Hs. nra. Qed.

(** From far on the left the update comes back near zero. *)
Lemma step_far_left E : far_left E -> near_zero (step e_cycle M_cycle E).
Proof.
  intros HE.
  pose proof PI_bounds as [Hp1 Hp2].
  set (x := E + 3 * (PI / 2)).
  assert (Hx : 0.100585 <= x <= 0.1015) by (unfold x, far_left in *; lra).
  assert (HsinE : sin E = cos x).
  { replace E with (x - 3 * (PI / 2)) by (unfold x; ring).
    rewrite sin_minus, sin_3PI2, cos_3PI2. ring. }
  assert (HcosE : cos E = - sin x).
  { replace E with (x - 3 * (PI / 2)) by (unfold x; ring).
    rewrite cos_minus, sin_3PI2, cos_3PI2. ring. }
  clearbody x. clear Hp1 Hp2.
  destruct (trig_near_tenth x Hx) as [Hs Hc].
  pose proof (product_far_left E (sin x) HE Hs) as Hprod.
  assert (HD : 1.0899 <= 1 - e_cycle * cos E <= 1.0909)
    by (rewrite HcosE; unfold e_cycle; lra).
  rewrite step_closed_form by lra.
  rewrite HsinE, HcosE in *.
  assert (HN : -0.00597 <= M_cycle + e_cycle * (cos x - E * - sin x) <= -0.00195)
    by (unfold M_cycle, e_cycle; lra).
  unfold near_zero. apply div_between; [lra|nra|nra].
Qed.

Lemma trig_near_third y :
  0.3384345 <= y <= 0.3384443 ->
  0.33197 <= sin y <= 0.33203 /\ 0.94272 <= cos y <= 0.94328.
Proof.
  intros Hy.
  assert (Hy2 : 0.114537 <= y ^ 2 <= 0.114545).
  { replace (y ^ 2) with (y * y) by ring. nra. }
  assert (Hy3 : 0.038763 <= y ^ 3 <= 0.038767).
  { replace (y ^ 3) with (y * y ^ 2) by ring. nra. }
  assert (Hy4 : 0 <= y ^ 4 <= 0.013121).
  { replace (y ^ 4) with (y ^ 2 * y ^ 2) by ring. nra. }
  assert (Hy5 : 0 <= y ^ 5 <= 0.004441).
  { replace (y ^ 5) with (y * y ^ 4) by ring. nra. }
  pose proof (sin_taylor y ltac:(lra)) as [Hs1 Hs2].
  pose proof (cos_taylor y ltac:(lra)) as [Hc1 Hc2].
  lra.
Qed.

Lemma product_entry E c :
  1.2323557 <= E <= 1.2323605 -> 0.33197 <= c <= 0.33203 ->
  0.4091 <= E * c <= 0.40919.
Proof. intros HE Hc. nra. Qed.

(** The first update, from the start at pi. *)
Lemma step_from_PI :
  1.2323557 <= step e_cycle M_cycle PI <= 1.2323605.
Proof.
  pose proof PI_bounds as [Hp1 Hp2].
  unfold step, delta, residual, slope. rewrite sin_PI, cos_PI.
  replace (PI + - (PI - e_cycle * 0 - M_cycle) / (1 - e_cycle * -1))
    with ((e_cycle * PI + M_cycle) / (1 + e_cycle))
    by (unfold e_cycle, M_cycle; field; lra).
  unfold e_cycle, M_cycle. apply div_between; lra.
Qed.

(** The second update lands near zero. *)
Lemma step_entry E :
  1.2323557 <= E <= 1.2323605 -> near_zero (step e_cycle M_cycle E).
Proof.
  intros HE.
  pose proof PI_bounds as [Hp1 Hp2].
  set (y := PI / 2 - E).
  assert (Hy : 0.3384345 <= y <= 0.3384443) by (unfold y; lra).
  assert (HsinE : sin E = cos y).
  { replace E with (PI / 2 - y) by (unfold y; ring). apply sin_shift. }
  assert (HcosE : cos E = sin y).
  { replace E with (PI / 2 - y) by (unfold y; ring). apply cos_shift. }
  clearbody y. clear Hp1 Hp2.
  destruct (trig_near_third y Hy) as [Hs Hc].
  pose proof (product_entry E (sin y) HE Hs) as Hprod.
  assert (HD : 0.7024 <= 1 - e_cycle * cos E <= 0.7025)
    by (rewrite HcosE; unfold e_cycle; lra).
  rewrite step_closed_form by lra.
  rewrite HsinE, HcosE in *.
  assert (HN : -0.0006 <= M_cycle + e_cycle * (cos y - E * sin y) <= 0.0001)
    by (unfold M_cycle, e_cycle; lra).
  unfold near_zero. apply div_between; [lra|nra|nra].
Qed.

Lemma normalize_M_cycle : normalize M_cycle = M_cycle.
Proof.
  unfold normalize, M_cycle. pose proof PI_bounds as [Hp1 Hp2].
  rewrite py_mod_small; lra.
Qed.

Lemma initial_guess_cycle : initial_guess e_cycle [M_cycle] = [PI].
Proof.
  unfold initial_guess, Rltb, e_cycle.
  rewrite Rabs_right by lra.
  destruct (Rlt_dec 0.8 0.8962); [reflexivity|lra].
Qed.

(** An update of at least [tol] keeps the loop going. *)
Lemma not_below_step e M E :
  default_tol <= Rabs (step e M E - E) ->
  all_below default_tol (deltas e [M] [E]) = false.
Proof.
  intros H. unfold deltas. cbn [map2 all_below forallb].
  replace (step e M E - E) with (delta e M E) in H by (unfold step; ring).
  unfold Rltb. destruct (Rlt_dec _ default_tol) as [Hlt|]; [lra|reflexivity].
Qed.

Lemma step_in_cycle E :
  in_cycle E ->
  in_cycle (step e_cycle M_cycle E)
  /\ all_below default_tol (deltas e_cycle [M_cycle] [E]) = false.
Proof.
  intros [H|H].
  - pose proof (step_near_zero E H) as H'. split; [right; exact H'|].
    apply not_below_step. unfold near_zero, far_left, default_tol in *.
    rewrite Rabs_left; lra.
  - pose proof (step_far_left E H) as H'. split; [left; exact H'|].
    apply not_below_step. unfold near_zero, far_left, default_tol in *.
    rewrite Rabs_right; lra.
Qed.

Lemma newton_in_cycle fuel E :
  in_cycle E ->
  exists E', newton e_cycle default_tol [M_cycle] [E] fuel = [E'] /\ in_cycle E'
    /\ converged e_cycle default_tol [M_cycle] [E] fuel = false.
Proof.
  revert E; induction fuel as [|fuel IH]; intros E HE.
  - exists E. split; [reflexivity|]. split; [exact HE|reflexivity].
  - destruct (step_in_cycle E HE) as [HE' Hnb].
    cbn [newton converged]. rewrite Hnb. unfold update.
    change (map2 Rplus [E] (deltas e_cycle [M_cycle] [E]))
      with [step e_cycle M_cycle E].
    apply IH. exact HE'.
Qed.

Lemma residual_in_cycle E :
  in_cycle E -> 0.4 <= Rabs (residual e_cycle M_cycle E).
Proof.
  intros HE. pose proof (SIN_bound E) as [Hs1 Hs2].
  unfold residual, e_cycle, M_cycle.
  destruct HE as [[H0 H1]|[H0 H1]].
  - destruct (small_angle E) as [Hc Hs]; [apply Rabs_le; lra|].
    assert (Hp : -0.006 <= E * cos E <= 0.006) by nra.
    rewrite Rabs_right; lra.
  - rewrite Rabs_left; lra.
Qed.

(** The solver, at [M = -0.4787], [e = 0.8962], runs all its updates and ends
    inside the cycle. *)
Lemma kepler_E_ends_in_cycle :
  exists E, kepler_E_default [M_cycle] e_cycle = [E] /\ in_cycle E
    /\ converged e_cycle default_tol [normalize M_cycle]
         (initial_guess e_cycle [normalize M_cycle]) default_maxiter = false.
Proof.
  unfold kepler_E_default, kepler_E. cbn [map].
  rewrite normalize_M_cycle, initial_guess_cycle.
  change default_maxiter with (S (S 98)). generalize 98%nat. intros fuel.
  pose proof step_from_PI as H1.
  pose proof (step_entry _ H1) as H2.
  pose proof PI_bounds as [Hp1 Hp2].
  assert (Hnb1 : all_below default_tol (deltas e_cycle [M_cycle] [PI]) = false).
  { apply not_below_step. unfold default_tol. rewrite Rabs_left; lra. }
  assert (Hnb2 : all_below default_tol
            (deltas e_cycle [M_cycle] [step e_cycle M_cycle PI]) = false).
  { apply not_below_step. unfold default_tol, near_zero in *. rewrite Rabs_left; lra. }
  cbn [newton converged]. unfold update. rewrite Hnb1.
  change (map2 Rplus [PI] (deltas e_cycle [M_cycle] [PI]))
    with [step e_cycle M_cycle PI].
  rewrite Hnb2.
  change (map2 Rplus [step e_cycle M_cycle PI]
            (deltas e_cycle [M_cycle] [step e_cycle M_cycle PI]))
    with [step e_cycle M_cycle (step e_cycle M_cycle PI)].
  apply newton_in_cycle. left; exact H2.
Qed.

End KeplerCycle.

(** C6 at the failing input [M = -0.4787], [e = 0.8962], inside [0, 0.99]:
    the start at pi, which the code takes for every [e > 0.8] whatever the
    sign of [M], steps to about 1.2324 and then to about -0.0007; from there
    the updates alternate between the neighbourhood of -0.0026 and that of
    -4.6116, each more than 4 away from the previous one, so the tolerance
    test never passes; after the 100 updates the returned [E] lies in one of
    the two intervals and misses Kepler's equation by more than 0.4, where
    the claim asks for less than 1e-8. *)
Lemma kepler_E_falls_into_cycle :
  0 <= Kepler.e_cycle <= 0.99
  /\ Kepler.converged Kepler.e_cycle Kepler.default_tol
       (map Kepler.normalize [Kepler.M_cycle])
       (Kepler.initial_guess Kepler.e_cycle (map Kepler.normalize [Kepler.M_cycle]))
       Kepler.default_maxiter = false
  /\ exists E,
       Kepler.kepler_E_default [Kepler.M_cycle] Kepler.e_cycle = [E]
       /\ 0.4 <= Rabs (E - Kepler.e_cycle * sin E - Kepler.normalize Kepler.M_cycle).
Proof.
  split; [unfold Kepler.e_cycle; lra|].
  destruct kepler_E_ends_in_cycle as [E [HE [Hc Hn]]].
  split; [exact Hn|].
  exists E. split; [exact HE|].
  rewrite normalize_M_cycle. exact (residual_in_cycle E Hc).
Qed.

(** ** Rotations keep the norm *)

Section Rotations.

Lemma norm_rot_ecef th v : norm (mat_vec (OrbMath.rot_ecef th) v) = norm v.
Proof.
  destruct v as [x y z]. unfold norm, mat_vec, dot, OrbMath.rot_ecef; simpl.
  f_equal. pose proof (sin2_cos2 th) as H. unfold Rsqr in H.
  replace (x * x + y * y + z * z)
    with ((sin th * sin th + cos th * cos th) * (x * x + y * y) + z * z)
    by (rewrite H; ring).
  ring.
Qed.

Lemma norm_Rz th v : norm (mat_vec (Rz th) v) = norm v.
Proof.
  destruct v as [x y z]. unfold norm, mat_vec, dot, Rz; simpl.
  f_equal. pose proof (sin2_cos2 th) as H. unfold Rsqr in H.
  replace (x * x + y * y + z * z)
    with ((sin th * sin th + cos th * cos th) * (x * x + y * y) + z * z)
    by (rewrite H; ring).
  ring.
Qed.

Lemma norm_Rx th v : norm (mat_vec (Rx th) v) = norm v.
Proof.
  destruct v as [x y z]. unfold norm, mat_vec, dot, Rx; simpl.
  f_equal. pose proof (sin2_cos2 th) as H. unfold Rsqr in H.
  replace (x * x + y * y + z * z)
    with (x * x + (sin th * sin th + cos th * cos th) * (y * y + z * z))
    by (rewrite H; ring).
  ring.
Qed.

Lemma mat_vec_mul A B v : mat_vec (mat_mul A B) v = mat_vec A (mat_vec B v).
Proof.
  destruct A as [[a11 a12 a13] [a21 a22 a23] [a31 a32 a33]].
  destruct B as [[b11 b12 b13] [b21 b22 b23] [b31 b32 b33]].
  destruct v as [x y z].
  unfold mat_vec, mat_mul, dot, col1, col2, col3; simpl.
  f_equal; ring.
Qed.

Lemma norm_Q_pX i raan argp v : norm (mat_vec (OrbMath.Q_pX i raan argp) v) = norm v.
Proof.
  unfold OrbMath.Q_pX. rewrite !mat_vec_mul.
  now rewrite norm_Rz, norm_Rx, norm_Rz.
Qed.

(** The loop of [eci_to_ecef] succeeds when [theta] has an entry for every
    row, and each output row has the norm of its input row. *)
Lemma rotate_rows_norm theta rows idx :
  (idx + length rows <= length theta)%nat ->
  exists out,
    OrbMath.rotate_rows theta idx rows = Ok out
    /\ Forall2 (fun v w => norm w = norm v) rows out.
Proof.
  revert idx; induction rows as [|r rest IH]; intros idx H; simpl in *.
  - exists []. split; auto.
  - destruct (nth_error theta idx) as [th|] eqn:Hth.
    + destruct (IH (S idx)) as [out [Hout Hall]]; [lia|].
      rewrite Hout. simpl. eexists. split; [reflexivity|].
      constructor; auto. apply norm_rot_ecef.
    + apply nth_error_None in Hth. lia.
Qed.

End Rotations.

Lemma eci_to_ecef_rows
  (r_eci : positions) (t_sec : list R) (gst0 : R) :
  (length t_sec = 1 \/ length (OrbMath.rows_of r_eci) <= length t_sec)%nat ->
  exists r_ecef,
    OrbMath.eci_to_ecef r_eci t_sec gst0 = Ok r_ecef
    /\ Forall2 (fun v w => norm w = norm v)
         (OrbMath.rows_of r_eci) (OrbMath.rows_of r_ecef)
    /\ OrbMath.altitudes (OrbMath.ecef_to_latlon r_ecef)
       = map (fun v => norm v - 6371.0) (OrbMath.rows_of r_eci).
Proof.
  intros Hlen. unfold OrbMath.eci_to_ecef.
  set (r := match r_eci with Single v => [v] | Batch rows => rows end).
  assert (Hr : OrbMath.rows_of r_eci = r) by reflexivity.
  rewrite Hr in *.
  set (theta0 := map (fun t => gst0 + OMEGA_EARTH * t) t_sec).
  set (theta := match theta0 with [th] => repeat th (length r) | _ => theta0 end).
  assert (Hth : (0 + length r <= length theta)%nat).
  { unfold theta. assert (H0 : length theta0 = length t_sec) by apply length_map.
    destruct theta0 as [|th [|th' rest]]; simpl in *.
    - lia.
    - rewrite repeat_length. lia.
    - lia. }
  destruct (rotate_rows_norm theta r 0 Hth) as [out [Hout Hall]].
  rewrite Hout. simpl.
  assert (Halt : map OrbMath.alt_of out = map (fun v => norm v - 6371.0) r).
  { clear -Hall. induction Hall as [|v w vs ws Hvw _ IH]; simpl; auto.
    unfold OrbMath.alt_of at 1. now rewrite Hvw, IH. }
  destruct r_eci as [v|rows]; simpl in *.
  - subst r. inversion Hall as [|? w ? ws Hw Hrest]; subst.
    inversion Hrest; subst. simpl.
    exists (Single w). split; [reflexivity|]. split; [exact Hall|].
    simpl. unfold OrbMath.alt_of. now rewrite Hw.
  - exists (Batch out). split; [reflexivity|]. split; [exact Hall|exact Halt].
Qed.

(** C10: whenever the time offsets fit the batch (one offset for all rows, or
    at least one per row), [eci_to_ecef] returns, each Earth-fixed position has
    the norm of its inertial position, and the altitude [ecef_to_latlon] gives
    for it is that inertial norm minus 6371.0. *)
Theorem eci_to_ecef_keeps_norm_and_altitude
  (r_eci : positions) (t_sec : list R) (gst0 : R) :
  (length t_sec = 1 \/ length (OrbMath.rows_of r_eci) <= length t_sec)%nat ->
  exists r_ecef,
    OrbMath.eci_to_ecef r_eci t_sec gst0 = Ok r_ecef
    /\ Forall2 (fun v w => norm w = norm v)
         (OrbMath.rows_of r_eci) (OrbMath.rows_of r_ecef)
    /\ OrbMath.altitudes (OrbMath.ecef_to_latlon r_ecef)
       = map (fun v => norm v - 6371.0) (OrbMath.rows_of r_eci).
Proof.
  intros Hlen.
  destruct (eci_to_ecef_rows r_eci t_sec gst0 Hlen) as [r_ecef [Hok [Hn Ha]]].
  exists r_ecef. split; [exact Hok|]. split; [exact Hn|exact Ha].
Qed.

Lemma eci_to_ecef_keeps_norm_and_altitude_witness :
  (length [0; 60] = 1
   \/ length (OrbMath.rows_of (Batch [mkVec 7000 0 0; mkVec 0 7000 0]))
      <= length [0; 60])%nat
  /\ exists r_ecef,
    OrbMath.eci_to_ecef (Batch [mkVec 7000 0 0; mkVec 0 7000 0]) [0; 60] 0 = Ok r_ecef
    /\ Forall2 (fun v w => norm w = norm v)
         [mkVec 7000 0 0; mkVec 0 7000 0] (OrbMath.rows_of r_ecef)
    /\ OrbMath.altitudes (OrbMath.ecef_to_latlon r_ecef)
       = map (fun v => norm v - 6371.0) [mkVec 7000 0 0; mkVec 0 7000 0].
Proof.
  assert (H : (length [0; 60] = 1
               \/ length (OrbMath.rows_of (Batch [mkVec 7000 0 0; mkVec 0 7000 0]))
                  <= length [0; 60])%nat) by (right; simpl; lia).
  split; [exact H|].
  exact (eci_to_ecef_keeps_norm_and_altitude
           (Batch [mkVec 7000 0 0; mkVec 0 7000 0]) [0; 60] 0 H).
Defined.

(** ** Propagation: circular orbits and the zero time offset *)

Section Propagation.
Import Kepler OrbMath.

(** Reducing to [-pi, pi] twice is reducing once. *)
Lemma normalize_idem M : normalize (normalize M) = normalize M.
Proof.
  unfold normalize.
  assert (Hpi : 0 < 2 * PI) by (pose proof PI_RGT_0; lra).
  pose proof (py_mod_range (M + PI) (2 * PI) Hpi) as Hr.
  replace (py_mod (M + PI) (2 * PI) - PI + PI) with (py_mod (M + PI) (2 * PI)) by ring.
  now rewrite (py_mod_small _ _ Hr).
Qed.

Lemma kepler_E_length M e tol maxiter : length (kepler_E M e tol maxiter) = length M.
Proof.
  unfold kepler_E. rewrite newton_unfold.
  rewrite iter_update_length; rewrite initial_guess_length; now rewrite ?length_map.
Qed.

Lemma kepler_E_normalized M e tol maxiter :
  kepler_E (map normalize M) e tol maxiter = kepler_E M e tol maxiter.
Proof.
  unfold kepler_E. rewrite map_map.
  now rewrite (map_ext _ _ normalize_idem).
Qed.

(** With [e = 0] the perifocal position lies at distance [a]. *)
Lemma norm_perifocal_circular a E : 0 < a -> norm (perifocal a 0 E) = a.
Proof.
  intros Ha. unfold perifocal, norm; simpl.
  set (f := true_anomaly 0 E).
  pose proof (sin2_cos2 f) as H. unfold Rsqr in H.
  replace (a * (1 - 0 * cos E) * cos f * (a * (1 - 0 * cos E) * cos f)
           + a * (1 - 0 * cos E) * sin f * (a * (1 - 0 * cos E) * sin f) + 0 * 0)
    with ((a * a) * (sin f * sin f + cos f * cos f)) by ring.
  rewrite H, Rmult_1_r. apply sqrt_square. lra.
Qed.

End Propagation.

Lemma propagate_orbit_circular
  (a i_deg raan_deg argp_deg M0_deg : R) (times_s : list R) (M0_epoch_time : R) :
  0 < a ->
  exists r_eci,
    OrbMath.propagate_orbit [a; 0; i_deg; raan_deg; argp_deg; M0_deg] times_s M0_epoch_time
    = Ok r_eci
    /\ length r_eci = length times_s
    /\ Forall (fun r => norm r = a) r_eci.
Proof.
  intros Ha. unfold OrbMath.propagate_orbit, py_div.
  destruct (Req_dec_T (a ^ 3) 0) as [H0|_].
  { exfalso. assert (0 < a ^ 3) by (apply pow_lt; exact Ha). lra. }
  simpl. eexists. split; [reflexivity|]. split.
  - rewrite !length_map. unfold Kepler.kepler_E_default.
    now rewrite kepler_E_length, !length_map.
  - apply Forall_forall. intros r Hr.
    apply in_map_iff in Hr as [p [<- Hp]].
    apply in_map_iff in Hp as [E [<- _]].
    rewrite norm_Q_pX. now apply norm_perifocal_circular.
Qed.

(** C8: for a circular orbit ([e = 0], [a > 0]) [propagate_orbit] returns one
    position per time offset, and each of them has norm [a]. *)
Theorem propagate_orbit_circular_radius
  (a i_deg raan_deg argp_deg M0_deg : R) (times_s : list R) (M0_epoch_time : R) :
  0 < a ->
  exists r_eci,
    OrbMath.propagate_orbit [a; 0; i_deg; raan_deg; argp_deg; M0_deg] times_s M0_epoch_time
    = Ok r_eci
    /\ length r_eci = length times_s
    /\ Forall (fun r => norm r = a) r_eci.
Proof.
  intros Ha. exact (propagate_orbit_circular a i_deg raan_deg argp_deg M0_deg
                      times_s M0_epoch_time Ha).
Qed.

Lemma propagate_orbit_circular_radius_witness :
  0 < 7000 /\
  exists r_eci,
    OrbMath.propagate_orbit [7000; 0; 51.6; 10; 20; 30] [0; 60; 120] 0 = Ok r_eci
    /\ length r_eci = length [0; 60; 120]
    /\ Forall (fun r => norm r = 7000) r_eci.
Proof.
  assert (H : 0 < 7000) by lra.
  split; [exact H|].
  exact (propagate_orbit_circular_radius 7000 51.6 10 20 30 [0; 60; 120] 0 H).
Defined.

Section ScalarSolver.
Import Kepler OrbMath.

Lemma kepler_E_scalar_high M e :
  0.8 < Rabs e -> kepler_E_scalar M e = Raise TypeError.
Proof.
  intros He. unfold kepler_E_scalar, Rltb.
  destruct (Rlt_dec 0.8 (Rabs e)); [reflexivity|contradiction].
Qed.

Lemma kepler_E_scalar_low M e :
  Rabs e <= 0.8 -> kepler_E_scalar M e = Ok (nth 0 (kepler_E_default [M] e) 0).
Proof.
  intros He. unfold kepler_E_scalar, Rltb.
  destruct (Rlt_dec 0.8 (Rabs e)); [lra|reflexivity].
Qed.

Lemma axis_in_range_nonzero a : axis_in_range a -> a <> 0.
Proof.
  unfold axis_in_range. intros [H _] ->. rewrite Rabs_R0 in H. lra.
Qed.

Lemma py_div_cube a : a <> 0 -> py_div MU_EARTH (a ^ 3) = Ok (MU_EARTH / a ^ 3).
Proof.
  intros Ha. unfold py_div.
  destruct (Req_dec_T (a ^ 3) 0) as [H0|_]; [|reflexivity].
  exfalso. exact (pow_nonzero a 3 Ha H0).
Qed.

(** The one row of [propagate_orbit] at the time offset 0. *)
Lemma propagate_orbit_at_zero a e i_deg raan_deg argp_deg M0_deg :
  a <> 0 ->
  propagate_orbit [a; e; i_deg; raan_deg; argp_deg; M0_deg] [0] 0
  = Ok [mat_vec (Q_pX i_deg raan_deg argp_deg)
          (perifocal a e (nth 0 (kepler_E_default [deg2rad M0_deg] e) 0))].
Proof.
  intros Ha. unfold propagate_orbit. rewrite py_div_cube by exact Ha.
  cbn [bind map].
  replace (deg2rad M0_deg + sqrt (MU_EARTH / a ^ 3) * (0 - 0)) with (deg2rad M0_deg)
    by ring.
  change [normalize (deg2rad M0_deg)] with (map normalize [deg2rad M0_deg]).
  unfold kepler_E_default. rewrite kepler_E_normalized.
  pose proof (kepler_E_length [deg2rad M0_deg] e default_tol default_maxiter) as Hlen.
  destruct (kepler_E [deg2rad M0_deg] e default_tol default_maxiter)
    as [|E [|E' rest]]; cbn [length] in Hlen; try discriminate.
  reflexivity.
Qed.

End ScalarSolver.

(** C5 on the element sets with an eccentricity above 0.8, the semi-major
    axis in range: [oe_to_rv] raises TypeError, from the item assignment
    [E[mask] = np.pi] on the numpy scalar that [kepler_E] holds when it is
    given a scalar, while [propagate_orbit] returns its one position for the
    time offset 0; there is no position of [oe_to_rv] for it to equal. *)
Theorem oe_to_rv_raises_where_propagate_orbit_returns
  (a e i_deg raan_deg argp_deg M0_deg : R) :
  axis_in_range a -> 0.8 < Rabs e ->
  OrbMath.oe_to_rv a e i_deg raan_deg argp_deg M0_deg = Raise TypeError
  /\ exists r,
       OrbMath.propagate_orbit [a; e; i_deg; raan_deg; argp_deg; M0_deg] [0] 0 = Ok [r].
Proof.
  intros Ha He. pose proof (axis_in_range_nonzero a Ha) as Hnz. split.
  - unfold OrbMath.oe_to_rv. rewrite py_div_cube by exact Hnz. cbn [bind].
    now rewrite kepler_E_scalar_high.
  - eexists. now apply propagate_orbit_at_zero.
Qed.

Lemma oe_to_rv_raises_where_propagate_orbit_returns_witness :
  axis_in_range 7000 /\ 0.8 < Rabs 0.9
  /\ OrbMath.oe_to_rv 7000 0.9 0 0 0 0 = Raise TypeError
  /\ exists r, OrbMath.propagate_orbit [7000; 0.9; 0; 0; 0; 0] [0] 0 = Ok [r].
Proof.
  assert (Ha : axis_in_range 7000)
    by (unfold axis_in_range; rewrite Rabs_right; lra).
  assert (He : 0.8 < Rabs 0.9) by (rewrite Rabs_right; lra).
  split; [exact Ha|]. split; [exact He|].
  exact (oe_to_rv_raises_where_propagate_orbit_returns 7000 0.9 0 0 0 0 Ha He).
Defined.

(** Where [oe_to_rv] returns, the two agree: for a semi-major axis
    [1e-100 <= a <= 1e100] and [0 <= e <= 0.8] the position that
    [propagate_orbit] returns for the single time offset 0 is the position
    [oe_to_rv] returns at the mean anomaly [M0_deg]. *)
Theorem propagate_orbit_at_zero_is_oe_to_rv
  (a e i_deg raan_deg argp_deg M0_deg : R) :
  1e-100 <= a <= 1e100 -> 0 <= e <= 0.8 ->
  exists r v,
    OrbMath.oe_to_rv a e i_deg raan_deg argp_deg M0_deg = Ok (r, v)
    /\ OrbMath.propagate_orbit [a; e; i_deg; raan_deg; argp_deg; M0_deg] [0] 0 = Ok [r].
Proof.
  intros Ha He. assert (Hnz : a <> 0) by lra.
  unfold OrbMath.oe_to_rv. rewrite py_div_cube by exact Hnz. cbn [bind].
  rewrite kepler_E_scalar_low by (rewrite Rabs_right; lra). cbn [bind].
  eexists. eexists. split; [reflexivity|].
  now apply propagate_orbit_at_zero.
Qed.

Lemma propagate_orbit_at_zero_is_oe_to_rv_witness :
  1e-100 <= 7000 <= 1e100 /\ 0 <= 0.1 <= 0.8 /\
  exists r v,
    OrbMath.oe_to_rv 7000 0.1 51.6 10 20 30 = Ok (r, v)
    /\ OrbMath.propagate_orbit [7000; 0.1; 51.6; 10; 20; 30] [0] 0 = Ok [r].
Proof.
  assert (Ha : 1e-100 <= 7000 <= 1e100) by lra.
  assert (He : 0 <= 0.1 <= 0.8) by lra.
  split; [exact Ha|]. split; [exact He|].
  exact (propagate_orbit_at_zero_is_oe_to_rv 7000 0.1 51.6 10 20 30 Ha He).
Defined.

(** ** Element sets are taken as given; the third argument of [propagate_orbit] *)

Section Unvalidated.
Import OrbMath.

Lemma propagate_orbit_ok a e i_deg raan_deg argp_deg M0_deg times t0 :
  a <> 0 ->
  exists r,
    propagate_orbit [a; e; i_deg; raan_deg; argp_deg; M0_deg] times t0 = Ok r
    /\ length r = length times.
Proof.
  intros Ha. unfold propagate_orbit, py_div.
  destruct (Req_dec_T (a ^ 3) 0) as [H0|_].
  { exfalso. exact (pow_nonzero a 3 Ha H0). }
  simpl. eexists. split; [reflexivity|].
  rewrite !length_map. unfold Kepler.kepler_E_default.
  now rewrite kepler_E_length, !length_map.
Qed.

(** A zero semi-major axis stops [propagate_orbit] at the division. *)
Lemma propagate_orbit_zero_axis e i_deg raan_deg argp_deg M0_deg times t0 :
  propagate_orbit [0; e; i_deg; raan_deg; argp_deg; M0_deg] times t0
  = Raise ZeroDivisionError.
Proof.
  unfold propagate_orbit, py_div.
  destruct (Req_dec_T (0 ^ 3) 0) as [_|H]; [reflexivity|].
  exfalso. apply H. simpl. ring.
Qed.

(** [M0_epoch_time] is subtracted from every time offset. *)
Lemma propagate_orbit_shift elems times t0 :
  propagate_orbit elems times t0
  = propagate_orbit elems (map (fun t => t - t0) times) 0.
Proof.
  unfold propagate_orbit.
  destruct elems as [|a [|e [|i [|raan [|argp [|M0 [|x rest]]]]]]]; try reflexivity.
  unfold py_div. destruct (Req_dec_T (a ^ 3) 0); [reflexivity|].
  cbn [bind]. do 5 f_equal. rewrite map_map. apply map_ext. intros t. ring.
Qed.

End Unvalidated.

(** C3, as the code has it: [propagate_orbit] returns positions only, one per
    time offset, whatever its third argument; that argument is the time of
    [M0] and shifts the time offsets. *)
Theorem propagate_orbit_returns_positions_only
  (a e i_deg raan_deg argp_deg M0_deg : R) (times_s : list R) (M0_epoch_time : R) :
  a <> 0 ->
  exists r_eci,
    OrbMath.propagate_orbit [a; e; i_deg; raan_deg; argp_deg; M0_deg]
      times_s M0_epoch_time = Ok r_eci
    /\ length r_eci = length times_s
    /\ OrbMath.propagate_orbit [a; e; i_deg; raan_deg; argp_deg; M0_deg]
         (map (fun t => t - M0_epoch_time) times_s) 0 = Ok r_eci.
Proof.
  intros Ha.
  destruct (propagate_orbit_ok a e i_deg raan_deg argp_deg M0_deg times_s M0_epoch_time Ha)
    as [r [Hr Hlen]].
  exists r. split; [exact Hr|]. split; [exact Hlen|].
  now rewrite <- propagate_orbit_shift.
Qed.

Lemma propagate_orbit_returns_positions_only_witness :
  7000 <> 0 /\
  exists r_eci,
    OrbMath.propagate_orbit [7000; 0.1; 51.6; 10; 20; 30] [60; 120] 1 = Ok r_eci
    /\ length r_eci = length [60; 120]
    /\ OrbMath.propagate_orbit [7000; 0.1; 51.6; 10; 20; 30]
         (map (fun t => t - 1) [60; 120]) 0 = Ok r_eci.
Proof.
  assert (H : 7000 <> 0) by lra.
  split; [exact H|].
  exact (propagate_orbit_returns_positions_only 7000 0.1 51.6 10 20 30 [60; 120] 1 H).
Defined.

(** C3 fails as stated: with the third argument set (1, which is also what
    [True] is in arithmetic) the result for one time offset is one vector, at
    distance [a] from the centre, the position one second earlier; no
    velocity comes with it. *)
Lemma third_argument_is_not_a_velocity_flag :
  exists r,
    OrbMath.propagate_orbit [7000; 0; 0; 0; 0; 0] [60] 1 = Ok [r]
    /\ norm r = 7000
    /\ OrbMath.propagate_orbit [7000; 0; 0; 0; 0; 0] [59] 0 = Ok [r].
Proof.
  destruct (propagate_orbit_circular 7000 0 0 0 0 [60] 1) as [rs [Hrs [Hlen Hall]]]; [lra|].
  destruct rs as [|r [|r' rest]]; simpl in Hlen; try discriminate.
  exists r. split; [exact Hrs|]. split.
  - now inversion Hall.
  - rewrite propagate_orbit_shift in Hrs. simpl map in Hrs.
    replace (60 - 1) with 59 in Hrs by lra. exact Hrs.
Qed.

(** ** The propagation request of [OrbitPlot] *)

Section Requests.
Import OrbMath Plot.

Lemma Zfloor_nonneg x : 0 <= x -> (0 <= Zfloor x)%Z.
Proof. intros H. apply Zfloor_lub. simpl. exact H. Qed.

Lemma py_trunc_nonneg x : 0 <= x -> (0 <= py_trunc x)%Z.
Proof.
  intros H. unfold py_trunc. destruct (Rle_dec 0 x); [|contradiction].
  now apply Zfloor_nonneg.
Qed.

Lemma linspace_ok start stop num :
  (0 <= num)%Z ->
  exists ts, linspace start stop num = Ok ts /\ length ts = Z.to_nat num.
Proof.
  intros H. unfold linspace.
  destruct (num <? 0)%Z eqn:E; [apply Z.ltb_lt in E; lia|].
  eexists. split; [reflexivity|]. now rewrite length_map, length_seq.
Qed.

Lemma sample_count_nonneg q :
  0 <= sample_points_per_orbit q -> 0 <= effective_revolves q ->
  (0 <= sample_count q)%Z.
Proof.
  intros Hs Hr. unfold sample_count, effective_revolves in *.
  destruct (animation q), (revolves q) as [rev|];
    try (apply py_trunc_nonneg; apply Rmult_le_pos; assumption).
  lia.
Qed.

(** One request on an object with six elements and [a > 0]: it returns, the
    samples it returns come from a fresh [propagate_orbit] call, and they
    replace what was stored. *)
Lemma serve_recomputes (w : world) (q : request) a e i_deg raan_deg argp_deg M0_deg :
  elems (self w) = [a; e; i_deg; raan_deg; argp_deg; M0_deg] ->
  0 < a ->
  0 <= sample_points_per_orbit q ->
  0 <= effective_revolves q ->
  exists times r_eci r_ecef T w',
    serve q w = (Ok (times, r_eci, r_ecef, T), w')
    /\ T = 2 * PI * sqrt (a ^ 3 / 398600.4418)
    /\ sample_times T (animation q) (revolves q) (sample_points_per_orbit q) = Ok times
    /\ length times = Z.to_nat (sample_count q)
    /\ propagate_orbit (elems (self w)) times 0 = Ok r_eci
    /\ eci_to_ecef (Batch r_eci) times 0.0 = Ok r_ecef
    /\ propagations w' = (elems (self w), times) :: propagations w
    /\ _cached_times (self w') = Some times
    /\ _cached_r_eci (self w') = Some r_eci
    /\ _cached_r_ecef (self w') = Some r_ecef
    /\ elems (self w') = elems (self w).
Proof.
  intros Hel Ha Hs Hr.
  destruct w as [o calls]. simpl in Hel.
  pose proof (sample_count_nonneg q Hs Hr) as HN.
  set (root := sqrt (a ^ 3 / 398600.4418)).
  set (T := 2 * PI * root).
  destruct (linspace_ok 0 (T * effective_revolves q) (sample_count q) HN)
    as [times [Htimes Hlen]].
  destruct (propagate_orbit_ok a e i_deg raan_deg argp_deg M0_deg times 0)
    as [r_eci [Hprop Hrlen]]; [lra|].
  destruct (eci_to_ecef_rows (Batch r_eci) times 0.0) as [r_ecef [Hecef _]].
  { right. simpl. lia. }
  assert (Hlin : sample_times T (animation q) (revolves q) (sample_points_per_orbit q)
                 = Ok times).
  { rewrite <- Htimes. unfold sample_times, sample_count, effective_revolves.
    destruct (animation q), (revolves q); reflexivity. }
  assert (Hroot : math_sqrt (a ^ 3 / 398600.4418) = Ok root).
  { unfold math_sqrt.
    destruct (Rlt_dec (a ^ 3 / 398600.4418) 0) as [Hneg|_]; [|reflexivity].
    exfalso. assert (0 < a ^ 3) by (apply pow_lt; exact Ha).
    assert (0 < a ^ 3 / 398600.4418) by (apply Rdiv_lt_0_compat; lra).
    lra. }
  exists times, r_eci, r_ecef, T.
  exists (mkWorld (mkOrbitPlot (elems o) false (Some times) (Some r_eci)
                     (Some r_ecef) (_epoch o))
            ((elems o, times) :: calls)).
  cbv [serve _prepare_propagation mbind get_self lift set_self ret
       call_propagate_orbit].
  cbn [self propagations]. rewrite Hel. rewrite Hroot. fold T.
  destruct (animation_timer o) eqn:Ht; cbn [self propagations elems];
    rewrite Hlin, Hel, Hprop, Hecef; cbn; rewrite ?Ht;
    (split; [reflexivity|]); repeat split; auto.
Qed.

End Requests.

(** C1, as the code has it: every request on an object with six elements and
    [a > 0] calls [propagate_orbit] on the freshly built time array, whatever
    was stored before, and stores and returns what that call gave. *)
Theorem prepare_propagation_always_recomputes
  (w : Plot.world) (q : Plot.request) (a e i_deg raan_deg argp_deg M0_deg : R) :
  Plot.elems (Plot.self w) = [a; e; i_deg; raan_deg; argp_deg; M0_deg] ->
  0 < a ->
  0 <= Plot.sample_points_per_orbit q ->
  0 <= Plot.effective_revolves q ->
  exists times r_eci r_ecef T w',
    Plot.serve q w = (Ok (times, r_eci, r_ecef, T), w')
    /\ length times = Z.to_nat (Plot.sample_count q)
    /\ OrbMath.propagate_orbit (Plot.elems (Plot.self w)) times 0 = Ok r_eci
    /\ OrbMath.eci_to_ecef (Batch r_eci) times 0.0 = Ok r_ecef
    /\ Plot.propagations w' = (Plot.elems (Plot.self w), times) :: Plot.propagations w
    /\ Plot._cached_times (Plot.self w') = Some times
    /\ Plot._cached_r_eci (Plot.self w') = Some r_eci
    /\ Plot._cached_r_ecef (Plot.self w') = Some r_ecef.
Proof.
  intros Hel Ha Hs Hr.
  destruct (serve_recomputes w q a e i_deg raan_deg argp_deg M0_deg Hel Ha Hs Hr)
    as (times & r_eci & r_ecef & T & w' & H1 & _ & _ & H2 & H3 & H4 & H5 & H6 & H7 & H8 & _).
  exists times, r_eci, r_ecef, T, w'. repeat (split; [assumption|]). assumption.
Qed.

Lemma prepare_propagation_always_recomputes_witness :
  Plot.elems (Plot.self (Plot.mkWorld Plot.plot0 [])) = [7000; 0; 0; 0; 0; 0]
  /\ 0 < 7000
  /\ 0 <= Plot.sample_points_per_orbit Plot.request0
  /\ 0 <= Plot.effective_revolves Plot.request0
  /\ exists times r_eci r_ecef T w',
    Plot.serve Plot.request0 (Plot.mkWorld Plot.plot0 [])
    = (Ok (times, r_eci, r_ecef, T), w')
    /\ length times = Z.to_nat (Plot.sample_count Plot.request0)
    /\ OrbMath.propagate_orbit [7000; 0; 0; 0; 0; 0] times 0 = Ok r_eci
    /\ OrbMath.eci_to_ecef (Batch r_eci) times 0.0 = Ok r_ecef
    /\ Plot.propagations w' = ([7000; 0; 0; 0; 0; 0], times) :: []
    /\ Plot._cached_times (Plot.self w') = Some times
    /\ Plot._cached_r_eci (Plot.self w') = Some r_eci
    /\ Plot._cached_r_ecef (Plot.self w') = Some r_ecef.
Proof.
  assert (H1 : Plot.elems (Plot.self (Plot.mkWorld Plot.plot0 [])) = [7000; 0; 0; 0; 0; 0])
    by reflexivity.
  assert (H2 : 0 < 7000) by lra.
  assert (H3 : 0 <= Plot.sample_points_per_orbit Plot.request0) by (simpl; lra).
  assert (H4 : 0 <= Plot.effective_revolves Plot.request0)
    by (unfold Plot.effective_revolves; simpl; lra).
  split; [exact H1|]. split; [exact H2|]. split; [exact H3|]. split; [exact H4|].
  exact (prepare_propagation_always_recomputes
           (Plot.mkWorld Plot.plot0 []) Plot.request0 7000 0 0 0 0 0 H1 H2 H3 H4).
Defined.

(** C1 fails as stated: the same request served twice in a row on a fresh
    object returns the same samples both times, and [propagate_orbit] has been
    called twice, with the same arguments. *)
Lemma repeated_request_is_recomputed :
  exists r w1 w2 call,
    Plot.serve Plot.request0 (Plot.mkWorld Plot.plot0 []) = (Ok r, w1)
    /\ Plot.serve Plot.request0 w1 = (Ok r, w2)
    /\ Plot.propagations w1 = [call]
    /\ Plot.propagations w2 = [call; call].
Proof.
  assert (Ha : 0 < 7000) by lra.
  assert (Hs : 0 <= Plot.sample_points_per_orbit Plot.request0) by (simpl; lra).
  assert (Hr : 0 <= Plot.effective_revolves Plot.request0)
    by (unfold Plot.effective_revolves; simpl; lra).
  destruct (serve_recomputes (Plot.mkWorld Plot.plot0 []) Plot.request0
              7000 0 0 0 0 0 eq_refl Ha Hs Hr)
    as (t1 & e1 & f1 & T1 & w1 & S1 & HT1 & Ht1 & _ & Hp1 & Hf1 & Hc1 & _ & _ & _ & Hel1).
  simpl in Hel1, Hc1.
  change (Plot.elems (Plot.self (Plot.mkWorld Plot.plot0 [])))
    with [7000; 0; 0; 0; 0; 0] in Hp1.
  destruct (serve_recomputes w1 Plot.request0 7000 0 0 0 0 0 Hel1 Ha Hs Hr)
    as (t2 & e2 & f2 & T2 & w2 & S2 & HT2 & Ht2 & _ & Hp2 & Hf2 & Hc2 & _).
  rewrite Hel1 in Hp2, Hc2.
  assert (T2 = T1) by congruence. subst T2.
  assert (t2 = t1) by congruence. subst t2.
  assert (e2 = e1) by congruence. subst e2.
  assert (f2 = f1) by congruence. subst f2.
  exists (t1, e1, f1, T1), w1, w2, ([7000; 0; 0; 0; 0; 0], t1).
  split; [exact S1|]. split; [rewrite HT1; exact S2|]. split; [exact Hc1|].
  rewrite Hc2, Hc1. reflexivity.
Qed.

(** ** The TLE parser: what makes it fail *)

Section TleFailures.
Import PyStr Calendar Tle.

Lemma round_half_even_near x :
  x - 1 / 2 <= IZR (round_half_even x) <= x + 1 / 2.
Proof.
  unfold round_half_even.
  pose proof (Zfloor_bound x) as [Hl Hu].
  destruct (Rlt_dec (x - IZR (Zfloor x)) (1 / 2)) as [H1|H1].
  - lra.
  - destruct (Rlt_dec (1 / 2) (x - IZR (Zfloor x))) as [H2|H2].
    + rewrite plus_IZR. simpl. lra.
    + destruct (Z.even (Zfloor x)); [lra|]. rewrite plus_IZR. simpl. lra.
Qed.

Lemma timedelta_days_raises d ex :
  timedelta_days d = Raise ex -> ex = ValueError \/ ex = OverflowError.
Proof.
  unfold timedelta_days. destruct d as [x|neg|].
  - destruct (_ <=? _)%Z; intros H; inversion H; auto.
  - intros H; inversion H; auto.
  - intros H; inversion H; auto.
Qed.

Lemma epoch_timestamp_raises y d ex :
  epoch_timestamp y d = Raise ex -> ex = ValueError \/ ex = OverflowError.
Proof.
  unfold epoch_timestamp.
  destruct (negb _); [intros H; inversion H; auto|].
  destruct (timedelta_days (minus_one d)) as [us|ex'] eqn:Htd; simpl.
  - destruct (negb _); intros H; inversion H; auto.
  - intros H; inversion H; subst. eapply timedelta_days_raises; eauto.
Qed.

Lemma py_int_raises s ex : py_int s = Raise ex -> ex = ValueError.
Proof. unfold py_int. destruct (int_syntax s); intros H; now inversion H. Qed.

Lemma py_float_raises s ex : py_float s = Raise ex -> ex = ValueError.
Proof. unfold py_float. destruct (float_syntax s); intros H; now inversion H. Qed.

(** A field that does not parse stops the parser with an exception. *)
Lemma tle_unparsable line1 line2 :
  numeric_fields_parse line1 line2 = false ->
  exists ex,
    tle_to_kepler6 line1 line2 = Raise ex
    /\ (ex = ValueError \/ ex = OverflowError).
Proof.
  unfold numeric_fields_parse, tle_to_kepler6, epoch_field, eccentricity_field.
  intros H.
  destruct (py_int _) as [yy|ex] eqn:E1; cbn [bind];
    [|exists ex; split; [reflexivity|left; eapply py_int_raises; eauto]].
  destruct (py_float (skipn 2 _)) as [doy|ex] eqn:E2; cbn [bind];
    [|exists ex; split; [reflexivity|left; eapply py_float_raises; eauto]].
  destruct (epoch_timestamp _ doy) as [ts|ex] eqn:E3; cbn [bind];
    [|exists ex; split; [reflexivity|eapply epoch_timestamp_raises; eauto]].
  destruct (py_float (slice 8 16 line2)) as [i|ex] eqn:E4; cbn [bind];
    [|exists ex; split; [reflexivity|left; eapply py_float_raises; eauto]].
  destruct (py_float (slice 17 25 line2)) as [raan|ex] eqn:E5; cbn [bind];
    [|exists ex; split; [reflexivity|left; eapply py_float_raises; eauto]].
  destruct (py_float (_ ++ _)) as [e|ex] eqn:E6; cbn [bind];
    [|exists ex; split; [reflexivity|left; eapply py_float_raises; eauto]].
  destruct (py_float (slice 34 42 line2)) as [argp|ex] eqn:E7; cbn [bind];
    [|exists ex; split; [reflexivity|left; eapply py_float_raises; eauto]].
  destruct (py_float (slice 43 51 line2)) as [M0|ex] eqn:E8; cbn [bind];
    [|exists ex; split; [reflexivity|left; eapply py_float_raises; eauto]].
  destruct (py_float (slice 52 63 line2)) as [n|ex] eqn:E9; cbn [bind];
    [|exists ex; split; [reflexivity|left; eapply py_float_raises; eauto]].
  cbn [is_ok andb] in H. discriminate.
Qed.

Lemma lstrip_length s : (length (lstrip s) <= length s)%nat.
Proof.
  induction s as [|c s IH]; simpl; auto.
  destruct (is_space c); simpl; lia.
Qed.

Lemma strip_length s : (length (strip s) <= length s)%nat.
Proof.
  unfold strip. rewrite length_rev.
  etransitivity; [apply lstrip_length|]. rewrite length_rev. apply lstrip_length.
Qed.

Lemma slice_length a b s : (length (slice a b s) <= length s - a)%nat.
Proof.
  unfold slice. rewrite length_firstn, length_skipn. lia.
Qed.

Lemma short_list_nil {A} (l : list A) : (length l <= 0)%nat -> l = [].
Proof. destruct l; simpl; [reflexivity|lia]. Qed.

(** Line 1 with at most 20 characters leaves no day-of-year text; line 2 with
    at most 52 characters leaves no mean-motion text. *)
Lemma short_lines_do_not_parse line1 line2 :
  (length line1 <= 20 \/ length line2 <= 52)%nat ->
  numeric_fields_parse line1 line2 = false.
Proof.
  intros [H|H]; unfold numeric_fields_parse.
  - assert (Hs : skipn 2 (epoch_field line1) = []).
    { apply short_list_nil. rewrite length_skipn. unfold epoch_field.
      pose proof (strip_length (slice 18 32 line1)).
      pose proof (slice_length 18 32 line1). lia. }
    rewrite Hs. change (is_ok (py_float [])) with false.
    now rewrite andb_false_r.
  - assert (Hs : slice 52 63 line2 = []).
    { apply short_list_nil. pose proof (slice_length 52 63 line2). lia. }
    rewrite Hs. change (is_ok (py_float [])) with false.
    now rewrite andb_false_r.
Qed.

End TleFailures.

Section TleShortLines.
Import PyStr Calendar Tle.

Lemma semi_major_axis_positive n :
  0 < n -> exists a, semi_major_axis (Finite n) = Ok (Float (Finite a)).
Proof.
  intros Hn. unfold semi_major_axis.
  assert (0 < 2 * PI * n / 86400).
  { apply Rdiv_lt_0_compat; [|lra].
    apply Rmult_lt_0_compat; [|exact Hn]. pose proof PI_RGT_0. lra. }
  destruct (Rlt_dec 0 (2 * PI * n / 86400)); [|contradiction].
  eexists. reflexivity.
Qed.

(** An epoch in 2025 with a day of year between 1 and 367 is in range. *)
Lemma epoch_timestamp_2025 x :
  1 <= x <= 367 -> exists ts, epoch_timestamp 2025 (Finite x) = Ok ts.
Proof.
  intros Hx. unfold epoch_timestamp.
  change (negb ((1 <=? 2025)%Z && (2025 <=? 9999)%Z)) with false. cbv iota.
  change (ymd2ord 2025 1 1) with 739252%Z.
  unfold minus_one, timedelta_days.
  set (us := round_half_even ((x - 1) * IZR US_PER_DAY)).
  pose proof (round_half_even_near ((x - 1) * IZR US_PER_DAY)) as Hus. fold us in Hus.
  change (IZR US_PER_DAY) with 86400000000 in Hus.
  assert (Hlo : (0 <= us)%Z).
  { apply le_IZR. apply Rnot_lt_le. intros Hneg.
    assert (IZR us <= -1) by (apply (IZR_le us (-1)); apply lt_IZR in Hneg; lia).
    nra. }
  assert (Hhi : (us <= 366 * US_PER_DAY)%Z).
  { apply le_IZR. apply Rnot_lt_le. intros Hbig.
    assert (IZR (366 * US_PER_DAY + 1) <= IZR us)
      by (apply IZR_le; apply lt_IZR in Hbig; lia).
    change (IZR (366 * US_PER_DAY + 1)) with 31622400000001 in H.
    nra. }
  assert (Hq : (0 <= us / US_PER_DAY <= 366)%Z).
  { split.
    - apply Z.div_pos; [exact Hlo|reflexivity].
    - apply Z.div_le_upper_bound; [reflexivity|]. lia. }
  destruct (Z.abs (us / US_PER_DAY) <=? 999999999)%Z eqn:E1.
  2:{ apply Z.leb_gt in E1. lia. }
  cbn [bind].
  destruct (negb ((1 <=? 739252 + us / US_PER_DAY)%Z
                  && (739252 + us / US_PER_DAY <=? MAXORDINAL)%Z)) eqn:E2.
  { apply negb_true_iff, andb_false_iff in E2.
    unfold MAXORDINAL in E2. destruct E2 as [E2|E2]; apply Z.leb_gt in E2; lia. }
  eexists. reflexivity.
Qed.

Lemma literal_decimal m ex (v : R) :
  IZR (Z.of_N m) * powerRZ 10 ex = v ->
  literal_value (LitDec false m ex) = Finite v.
Proof. intros H. unfold literal_value. now rewrite H. Qed.

(** With an epoch in 2025 and every field accepted, the parser returns the
    fields as parsed. *)
Lemma tle_to_kepler6_fields line1 line2 doy i raan e argp M0 n :
  py_int (firstn 2 (epoch_field line1)) = Ok 25%Z ->
  py_float (skipn 2 (epoch_field line1)) = Ok (Finite doy) ->
  1 <= doy <= 367 ->
  py_float (slice 8 16 line2) = Ok i ->
  py_float (slice 17 25 line2) = Ok raan ->
  py_float (eccentricity_field line2) = Ok e ->
  py_float (slice 34 42 line2) = Ok argp ->
  py_float (slice 43 51 line2) = Ok M0 ->
  py_float (slice 52 63 line2) = Ok (Finite n) ->
  0 < n ->
  exists a ts,
    tle_to_kepler6 line1 line2 = Ok (mkKepler6 (Float (Finite a)) e i raan argp M0 ts).
Proof.
  unfold epoch_field, eccentricity_field, tle_to_kepler6.
  intros Hyy Hdoy Hrange Hi Hraan He Hargp HM0 Hn Hpos.
  rewrite Hyy. cbn [bind]. rewrite Hdoy. cbn [bind].
  change (if (25 <? 57)%Z then (2000 + 25)%Z else (1900 + 25)%Z) with 2025%Z.
  destruct (epoch_timestamp_2025 doy Hrange) as [ts Hts].
  rewrite Hts. cbn [bind].
  rewrite Hi, Hraan, He, Hargp, HM0, Hn. cbn [bind].
  destruct (semi_major_axis_positive n Hpos) as [a Ha].
  rewrite Ha. cbn [bind].
  exists a, ts. reflexivity.
Qed.

Lemma short_lines_parse :
  exists a ts,
    tle_to_kepler6 short_line1 short_line2
    = Ok (mkKepler6 (Float (Finite a)) (Finite 0.0003499) (Finite 51.6356)
            (Finite 4.7550) (Finite 229.5075) (Finite 130.5609) ts).
Proof.
  apply (tle_to_kepler6_fields short_line1 short_line2 229.18034946 _ _ _ _ _ 15.49975).
  - reflexivity.
  - change (py_float (skipn 2 (epoch_field short_line1)))
      with (Ok (literal_value (LitDec false 22918034946 (-8)))).
    f_equal. apply literal_decimal. simpl. lra.
  - lra.
  - change (py_float (slice 8 16 short_line2))
      with (Ok (literal_value (LitDec false 516356 (-4)))).
    f_equal. apply literal_decimal. simpl. lra.
  - change (py_float (slice 17 25 short_line2))
      with (Ok (literal_value (LitDec false 47550 (-4)))).
    f_equal. apply literal_decimal. simpl. lra.
  - change (py_float (eccentricity_field short_line2))
      with (Ok (literal_value (LitDec false 3499 (-7)))).
    f_equal. apply literal_decimal. simpl. lra.
  - change (py_float (slice 34 42 short_line2))
      with (Ok (literal_value (LitDec false 2295075 (-4)))).
    f_equal. apply literal_decimal. simpl. lra.
  - change (py_float (slice 43 51 short_line2))
      with (Ok (literal_value (LitDec false 1305609 (-4)))).
    f_equal. apply literal_decimal. simpl. lra.
  - change (py_float (slice 52 63 short_line2))
      with (Ok (literal_value (LitDec false 1549975 (-5)))).
    f_equal. apply literal_decimal. simpl. lra.
  - lra.
Qed.


End TleShortLines.

(** C4, as the code has it: whenever one of the numeric fields, as sliced from
    its columns, is not accepted by [int] or [float] (which is the case when
    line 1 has at most 20 characters or line 2 at most 52), [tle_to_kepler6]
    raises and returns no element set.  The exception is a built-in one. *)
Theorem tle_to_kepler6_fails_on_unparsable_field (line1 line2 : PyStr.text) :
  Tle.numeric_fields_parse line1 line2 = false
  \/ (length line1 <= 20)%nat \/ (length line2 <= 52)%nat ->
  exists ex,
    Tle.tle_to_kepler6 line1 line2 = Raise ex
    /\ (ex = ValueError \/ ex = OverflowError).
Proof.
  intros [H|H].
  - now apply tle_unparsable.
  - apply tle_unparsable. now apply short_lines_do_not_parse.
Qed.

Lemma tle_to_kepler6_fails_on_unparsable_field_witness :
  (Tle.numeric_fields_parse Tle.short_line1
     (list_ascii_of_string "2 25544  51.6356   4.7550 0003499 229.5075") = false
   \/ (length Tle.short_line1 <= 20)%nat
   \/ (length (list_ascii_of_string "2 25544  51.6356   4.7550 0003499 229.5075")
       <= 52)%nat)
  /\ exists ex,
    Tle.tle_to_kepler6 Tle.short_line1
      (list_ascii_of_string "2 25544  51.6356   4.7550 0003499 229.5075") = Raise ex
    /\ (ex = ValueError \/ ex = OverflowError).
Proof.
  assert (H : Tle.numeric_fields_parse Tle.short_line1
                (list_ascii_of_string "2 25544  51.6356   4.7550 0003499 229.5075") = false
              \/ (length Tle.short_line1 <= 20)%nat
              \/ (length (list_ascii_of_string "2 25544  51.6356   4.7550 0003499 229.5075")
                  <= 52)%nat).
  { right. right. simpl. lia. }
  split; [exact H|].
  exact (tle_to_kepler6_fails_on_unparsable_field Tle.short_line1
           (list_ascii_of_string "2 25544  51.6356   4.7550 0003499 229.5075") H).
Defined.

(** C4 fails as stated: line 1 cut to 32 columns and line 2 cut to 60, both
    shorter than the 69-column layout, and line 2 shorter than the 63 columns
    the parser slices, are parsed into an element set. *)
Lemma short_lines_are_parsed :
  (length Tle.short_line1 < 69)%nat
  /\ (length Tle.short_line2 < 63)%nat
  /\ exists a ts,
    Tle.tle_to_kepler6 Tle.short_line1 Tle.short_line2
    = Ok (Tle.mkKepler6 (Float (Finite a)) (Finite 0.0003499) (Finite 51.6356)
            (Finite 4.7550) (Finite 229.5075) (Finite 130.5609) ts).
Proof.
  split; [simpl; lia|]. split; [simpl; lia|]. exact short_lines_parse.
Qed.




(** ** Sidereal time: the calendar behind the Julian Date *)

Section CalendarFacts.
Import Calendar.
Local Open Scope Z_scope.

Lemma days_ok_spec k n :
  days_ok k n = true -> forall j, n <= j < n + Z.of_nat k -> day_ok j = true.
Proof.
  revert n; induction k as [|k IH]; intros n H j Hj.
  - simpl in Hj. lia.
  - cbn [days_ok] in H. apply andb_true_iff in H as [H1 H2].
    destruct (Z.eq_dec j n) as [->|Hne]; [exact H1|].
    apply (IH (n + 1) H2). lia.
Qed.

Lemma first_cycle_ok : days_ok (Z.to_nat 146097) 1 = true.
Proof. vm_compute. reflexivity. Qed.

Lemma ord2ymd_cycle n :
  ord2ymd n
  = add_years (400 * ((n - 1) / DI400Y)) (ord2ymd ((n - 1) mod DI400Y + 1)).
Proof.
  unfold ord2ymd.
  replace ((n - 1) mod DI400Y + 1 - 1) with ((n - 1) mod DI400Y) by lia.
  assert (Hr : 0 <= (n - 1) mod DI400Y < DI400Y)
    by (apply Z.mod_pos_bound; reflexivity).
  rewrite (Z.div_small ((n - 1) mod DI400Y) DI400Y Hr).
  rewrite (Z.mod_small ((n - 1) mod DI400Y) DI400Y Hr).
  set (q := (n - 1) / DI400Y).
  set (r := (n - 1) mod DI400Y).
  cbv zeta.
  destruct ((r mod DI100Y mod DI4Y / 365 =? 4) || (r / DI100Y =? 4)).
  - unfold add_years. f_equal. f_equal. lia.
  - destruct (r mod DI100Y mod DI4Y mod 365 <? _).
    + unfold add_years. f_equal. f_equal. lia.
    + unfold add_years. f_equal. f_equal. lia.
Qed.

Lemma julian_day_number_cycle y m d k :
  julian_day_number (y + 400 * k) m d = julian_day_number y m d + 146097 * k.
Proof.
  unfold julian_day_number.
  destruct (m <=? 2); Z.div_mod_to_equations; lia.
Qed.

Lemma julian_day_number_ord2ymd n :
  1 <= n ->
  let '(y, m, d) := ord2ymd n in julian_day_number y m d = n + 1722949.
Proof.
  intros Hn. rewrite ord2ymd_cycle.
  assert (Hr : 0 <= (n - 1) mod DI400Y < DI400Y)
    by (apply Z.mod_pos_bound; reflexivity).
  pose proof (days_ok_spec _ _ first_cycle_ok ((n - 1) mod DI400Y + 1)) as Hok.
  unfold day_ok in Hok.
  destruct (ord2ymd ((n - 1) mod DI400Y + 1)) as [[y m] d].
  unfold add_years. rewrite julian_day_number_cycle.
  assert (H : julian_day_number y m d = (n - 1) mod DI400Y + 1 + 1722949).
  { apply Z.eqb_eq. apply Hok. unfold DI400Y in *. lia. }
  rewrite H. pose proof (Z.div_mod (n - 1) DI400Y ltac:(discriminate)).
  unfold DI400Y in *. lia.
Qed.

End CalendarFacts.

(** ** Sidereal time: monotone up to the wrap *)

Section SiderealTime.
Import Calendar Gmst.

Lemma Zfloor_div a b : (0 < b)%Z -> Zfloor (IZR a / IZR b) = (a / b)%Z.
Proof.
  intros Hb. apply Zfloor_eq.
  pose proof (Z.div_mod a b ltac:(lia)) as Hdm.
  pose proof (Z.mod_pos_bound a b Hb) as [Hm0 Hm1].
  assert (HbR : 0 < IZR b) by (apply (IZR_lt 0); exact Hb).
  assert (Ha : IZR a = IZR b * IZR (a / b) + IZR (a mod b)).
  { rewrite <- mult_IZR, <- plus_IZR. now f_equal. }
  apply (IZR_le 0) in Hm0. apply IZR_lt in Hm1.
  split.
  - apply (Rmult_le_reg_l (IZR b)); [exact HbR|].
    replace (IZR b * (IZR a / IZR b)) with (IZR a) by (field; lra). lra.
  - apply (Rmult_lt_reg_l (IZR b)); [exact HbR|].
    replace (IZR b * (IZR a / IZR b)) with (IZR a) by (field; lra). lra.
Qed.

Lemma round_half_even_mono x y :
  x <= y -> (round_half_even x <= round_half_even y)%Z.
Proof.
  intros Hxy.
  pose proof (Zfloor_le x y Hxy) as Hf.
  pose proof (Zfloor_bound x) as [Hx0 Hx1].
  pose proof (Zfloor_bound y) as [Hy0 Hy1].
  unfold round_half_even.
  destruct (Z.eq_dec (Zfloor x) (Zfloor y)) as [E|NE].
  - rewrite <- E in *.
    destruct (Rlt_dec (x - IZR (Zfloor x)) (1 / 2));
      destruct (Rlt_dec (y - IZR (Zfloor x)) (1 / 2)); try lia; try lra;
      destruct (Rlt_dec (1 / 2) (x - IZR (Zfloor x)));
      destruct (Rlt_dec (1 / 2) (y - IZR (Zfloor x))); try lia; try lra;
      destruct (Z.even (Zfloor x)); try lia; lra.
  - assert (Zfloor x + 1 <= Zfloor y)%Z by lia.
    destruct (Rlt_dec (x - IZR (Zfloor x)) (1 / 2));
      destruct (Rlt_dec (y - IZR (Zfloor y)) (1 / 2)); try lia;
      destruct (Rlt_dec (1 / 2) (x - IZR (Zfloor x)));
      destruct (Rlt_dec (1 / 2) (y - IZR (Zfloor y))); try lia;
      destruct (Z.even (Zfloor x)); destruct (Z.even (Zfloor y)); lia.
Qed.

(** The Julian Date computed from the calendar fields is linear in the
    rounded timestamp. *)
Lemma julian_date_fields (n sod us : Z) :
  (1 <= n)%Z -> (0 <= sod < 86400)%Z ->
  let '(y, m, d) := ord2ymd n in
  julian_date (mkDatetime y m d (sod / 3600) ((sod mod 3600) / 60) (sod mod 60) us)
  = IZR n + 1721424.5 + (IZR sod + IZR us / 1000000) / 86400.
Proof.
  intros Hn Hsod.
  pose proof (julian_day_number_ord2ymd n Hn) as Hjdn.
  destruct (ord2ymd n) as [[y m] d].
  unfold julian_date. cbn [year month day hour minute second microsecond].
  unfold julian_day_number in Hjdn.
  destruct (m <=? 2)%Z.
  - rewrite (Zfloor_div _ 100) by lia.
    rewrite (Zfloor_div _ 4) by lia.
    replace (365.25 * IZR (y - 1 + 4716)) with (IZR (1461 * (y - 1 + 4716)) / IZR 4)
      by (rewrite mult_IZR; lra).
    replace (30.6001 * IZR (m + 12 + 1)) with (IZR (306001 * (m + 12 + 1)) / IZR 10000)
      by (rewrite mult_IZR; lra).
    rewrite !Zfloor_div by lia.
    replace (1461 * (y - 1 + 4716) / 4 + 306001 * (m + 12 + 1) / 10000 + d
             + (2 - (y - 1) / 100 + (y - 1) / 100 / 4))%Z with (n + 1722949)%Z by lia.
    rewrite plus_IZR.
    assert (Hs : IZR sod = 3600 * IZR (sod / 3600) + 60 * IZR (sod mod 3600 / 60)
                           + IZR (sod mod 60)).
    { rewrite <- !mult_IZR, <- !plus_IZR. f_equal. Z.div_mod_to_equations. lia. }
    rewrite Hs. lra.
  - rewrite (Zfloor_div _ 100) by lia.
    rewrite (Zfloor_div _ 4) by lia.
    replace (365.25 * IZR (y + 4716)) with (IZR (1461 * (y + 4716)) / IZR 4)
      by (rewrite mult_IZR; lra).
    replace (30.6001 * IZR (m + 1)) with (IZR (306001 * (m + 1)) / IZR 10000)
      by (rewrite mult_IZR; lra).
    rewrite !Zfloor_div by lia.
    replace (1461 * (y + 4716) / 4 + 306001 * (m + 1) / 10000 + d
             + (2 - y / 100 + y / 100 / 4))%Z with (n + 1722949)%Z by lia.
    rewrite plus_IZR.
    assert (Hs : IZR sod = 3600 * IZR (sod / 3600) + 60 * IZR (sod mod 3600 / 60)
                           + IZR (sod mod 60)).
    { rewrite <- !mult_IZR, <- !plus_IZR. f_equal. Z.div_mod_to_equations. lia. }
    rewrite Hs. lra.
Qed.

Lemma utcfromtimestamp_julian t :
  (MIN_US <= round_half_even (t * IZR US_PER_SECOND) <= MAX_US)%Z ->
  exists dt,
    utcfromtimestamp t = Ok dt
    /\ julian_date dt = julian_of_us (round_half_even (t * IZR US_PER_SECOND)).
Proof.
  intros Hu. unfold utcfromtimestamp.
  set (u := round_half_even (t * IZR US_PER_SECOND)) in *.
  cbv zeta.
  set (secs := (u / US_PER_SECOND)%Z).
  set (days := (secs / 86400)%Z).
  set (sod := (secs mod 86400)%Z).
  set (n := (days + EPOCH_ORDINAL)%Z).
  assert (Hn : (1 <= n <= MAXORDINAL)%Z).
  { unfold n, days, secs, EPOCH_ORDINAL, MAXORDINAL, US_PER_SECOND, MIN_US, MAX_US in *.
    Z.div_mod_to_equations. lia. }
  assert (Hsod : (0 <= sod < 86400)%Z) by (apply Z.mod_pos_bound; reflexivity).
  assert (Hrange : ((1 <=? n) && (n <=? MAXORDINAL))%Z = true).
  { apply andb_true_iff. split; apply Z.leb_le; lia. }
  rewrite Hrange.
  pose proof (julian_date_fields n sod (u mod US_PER_SECOND) (proj1 Hn) Hsod) as HJ.
  destruct (ord2ymd n) as [[y m] d].
  eexists. split; [reflexivity|].
  rewrite HJ. unfold julian_of_us.
  assert (Hu' : IZR u = (IZR (n - EPOCH_ORDINAL) * 86400 + IZR sod) * 1000000
                        + IZR (u mod US_PER_SECOND)).
  { assert (HZ : u = (((n - EPOCH_ORDINAL) * 86400 + sod) * 1000000
                       + u mod US_PER_SECOND)%Z).
    { subst n days sod secs. unfold EPOCH_ORDINAL, US_PER_SECOND.
      Z.div_mod_to_equations. lia. }
    apply (f_equal IZR) in HZ.
    rewrite plus_IZR, mult_IZR, plus_IZR, mult_IZR in HZ. exact HZ. }
  rewrite Hu'. rewrite minus_IZR. unfold EPOCH_ORDINAL. lra.
Qed.

Lemma GMST_sec_increasing T1 T2 :
  -20 <= T1 -> T1 <= T2 -> T2 <= 80 -> GMST_sec T1 <= GMST_sec T2.
Proof.
  intros H1 H12 H2. unfold GMST_sec.
  assert (Hd : 0 <= (T2 - T1) *
            (876600.0 * 3600 + 8640184.812866
             + 0.093104 * (T1 + T2)
             - 6.2e-6 * (T1 * T1 + T1 * T2 + T2 * T2))).
  { apply Rmult_le_pos; [lra|].
    assert (T1 * T1 <= 6400) by nra.
    assert (T2 * T2 <= 6400) by nra.
    assert (T1 * T2 <= 6400) by nra.
    lra. }
  lra.
Qed.

Lemma rounded_in_range t :
  -62135596800 <= t -> t < 253402300799.9999995 ->
  (MIN_US <= round_half_even (t * IZR US_PER_SECOND) <= MAX_US)%Z.
Proof.
  intros Hlo Hhi.
  pose proof (round_half_even_near (t * IZR US_PER_SECOND)) as [Hn1 Hn2].
  change (IZR US_PER_SECOND) with 1000000 in *.
  set (u := round_half_even (t * 1000000)) in *.
  unfold MIN_US, MAX_US. split.
  - assert (H : (-62135596800000000 - 1 < u)%Z); [|lia].
    apply lt_IZR. rewrite minus_IZR. lra.
  - assert (H : (u < 253402300799999999 + 1)%Z); [|lia].
    apply lt_IZR. rewrite plus_IZR. lra.
Qed.

Lemma centuries_range u :
  (MIN_US <= u <= MAX_US)%Z -> -20 <= centuries (julian_of_us u) <= 80.
Proof.
  intros [Hlo Hhi]. apply IZR_le in Hlo, Hhi. unfold MIN_US, MAX_US in *.
  unfold centuries, julian_of_us. lra.
Qed.

Lemma centuries_mono u1 u2 :
  (u1 <= u2)%Z -> centuries (julian_of_us u1) <= centuries (julian_of_us u2).
Proof.
  intros H. apply IZR_le in H. unfold centuries, julian_of_us. lra.
Qed.

Lemma gmst_unwrapped_spec t :
  -62135596800 <= t -> t < 253402300799.9999995 ->
  let u := GMST_sec (centuries (julian_of_us (round_half_even (t * IZR US_PER_SECOND))))
           / 240.0 in
  gmst_unwrapped_deg t = Ok u
  /\ gmst_rad t = Ok (deg2rad (py_mod u 360.0)).
Proof.
  intros Hlo Hhi u.
  destruct (utcfromtimestamp_julian t (rounded_in_range t Hlo Hhi)) as [dt [Hdt HJ]].
  unfold gmst_unwrapped_deg, gmst_rad. rewrite Hdt. cbn [bind]. rewrite HJ.
  split; reflexivity.
Qed.

Lemma wrapped_angle u :
  0 <= deg2rad (py_mod u 360.0) < 2 * PI
  /\ deg2rad (py_mod u 360.0) = deg2rad u - 2 * PI * IZR (Zfloor (u / 360.0)).
Proof.
  pose proof PI_RGT_0 as Hpi.
  replace 360.0 with 360 by lra.
  assert (H360 : 0 < 360) by lra.
  pose proof (py_mod_range u 360 H360) as [H0 H1].
  unfold deg2rad. split; [split|].
  - apply Rmult_le_pos; [exact H0|]. apply Rlt_le. apply Rdiv_lt_0_compat; lra.
  - apply (Rmult_lt_reg_r (180 / PI)).
    + apply Rdiv_lt_0_compat; lra.
    + replace (py_mod u 360 * (PI / 180) * (180 / PI)) with (py_mod u 360)
        by (field; lra).
      replace (2 * PI * (180 / PI)) with 360 by (field; lra).
      exact H1.
  - unfold py_mod. field.
Qed.

Lemma round_half_even_whole z : round_half_even (IZR z) = z.
Proof.
  unfold round_half_even. rewrite ZfloorZ.
  destruct (Rlt_dec (IZR z - IZR z) (1 / 2)); [reflexivity|lra].
Qed.

(** At 2000-01-01 12:00:00 UTC the Julian Date is 2451545.0 and the polynomial
    is at its constant term. *)
Example gmst_rad_J2000 :
  gmst_rad 946728000 = Ok (deg2rad (py_mod (67310.54841 / 240.0) 360.0)).
Proof.
  destruct (gmst_unwrapped_spec 946728000) as [_ H]; [lra|lra|].
  rewrite H. do 3 f_equal.
  replace (946728000 * IZR US_PER_SECOND) with (IZR 946728000000000)
    by (unfold US_PER_SECOND; rewrite <- mult_IZR; f_equal).
  rewrite round_half_even_whole.
  unfold GMST_sec, centuries, julian_of_us. lra.
Qed.

End SiderealTime.

(** ** Sidereal time: the rate of the angle and its wraps *)

Section SiderealRate.
Import Calendar Gmst.

(** The elapsed time between two rounded timestamps is the elapsed time
    between the timestamps, to within a microsecond. *)
Lemma rounded_seconds_near t1 t2 :
  Rabs (rounded_seconds t2 - rounded_seconds t1 - (t2 - t1)) <= 1e-6.
Proof.
  unfold rounded_seconds.
  pose proof (round_half_even_near (t1 * IZR US_PER_SECOND)) as [H1 H1'].
  pose proof (round_half_even_near (t2 * IZR US_PER_SECOND)) as [H2 H2'].
  change (IZR US_PER_SECOND) with 1000000 in *.
  apply Rabs_le. lra.
Qed.

Lemma rounded_seconds_mono t1 t2 :
  t1 <= t2 -> 0 <= rounded_seconds t2 - rounded_seconds t1.
Proof.
  intros H. unfold rounded_seconds.
  assert (Hr : (round_half_even (t1 * IZR US_PER_SECOND)
                <= round_half_even (t2 * IZR US_PER_SECOND))%Z).
  { apply round_half_even_mono. apply Rmult_le_compat_r; [|exact H].
    apply (IZR_le 0). unfold US_PER_SECOND. lia. }
  apply IZR_le in Hr. change (IZR US_PER_SECOND) with 1000000 in *. lra.
Qed.

(** Between two dates of the calendar the polynomial advances by 360 degrees
    per sidereal day. *)
Lemma GMST_sec_rate T1 T2 :
  -20 <= T1 -> T1 <= T2 -> T2 <= 80 ->
  let dt := (T2 - T1) * (36525 * 86400) in
  360 * (dt / SIDEREAL_DAY_MAX)
  <= (GMST_sec T2 - GMST_sec T1) / 240.0
  <= 360 * (dt / SIDEREAL_DAY_MIN).
Proof.
  intros H1 H12 H2 dt.
  set (S := 876600.0 * 3600 + 8640184.812866
            + 0.093104 * (T1 + T2)
            - 6.2e-6 * (T1 * T1 + T1 * T2 + T2 * T2)).
  assert (HG : GMST_sec T2 - GMST_sec T1 = (T2 - T1) * S)
    by (unfold GMST_sec, S; ring).
  assert (HS : 3164400180.9 <= S <= 3164400199.8).
  { assert (0 <= T1 * T1 <= 6400) by nra.
    assert (0 <= T2 * T2 <= 6400) by nra.
    assert (-1600 <= T1 * T2 <= 6400) by nra.
    assert (0 <= T1 * T1 + T1 * T2 + T2 * T2) by nra.
    unfold S. lra. }
  rewrite HG. unfold dt, SIDEREAL_DAY_MAX, SIDEREAL_DAY_MIN.
  assert (Hd : 0 <= T2 - T1) by lra.
  set (d := T2 - T1) in *.
  assert (Hm : d * S / 240.0 = d * (S / 240.0))
    by (unfold Rdiv; apply Rmult_assoc).
  rewrite Hm. split.
  - replace (360 * (d * (36525 * 86400) / 86164.0907))
      with (d * (360 * (36525 * 86400) / 86164.0907)) by lra.
    apply Rmult_le_compat_l; [exact Hd|]. lra.
  - replace (360 * (d * (36525 * 86400) / 86164.0901))
      with (d * (360 * (36525 * 86400) / 86164.0901)) by lra.
    apply Rmult_le_compat_l; [exact Hd|]. lra.
Qed.

Lemma centuries_elapsed u1 u2 :
  (centuries (julian_of_us u2) - centuries (julian_of_us u1)) * (36525 * 86400)
  = IZR u2 / 1000000 - IZR u1 / 1000000.
Proof. unfold centuries, julian_of_us. lra. Qed.

(** No turn is lost: the number of whole turns grows by one exactly when
    the reduced angle falls. *)
Lemma turns_between u1 u2 :
  u1 <= u2 ->
  let k := (Zfloor (u2 / 360.0) - Zfloor (u1 / 360.0))%Z in
  deg2rad (py_mod u2 360.0)
  = deg2rad (py_mod u1 360.0) + deg2rad (u2 - u1) - 2 * PI * IZR k
  /\ (0 <= k)%Z
  /\ (u2 - u1 < 360 ->
      (k = 0%Z /\ deg2rad (py_mod u1 360.0) <= deg2rad (py_mod u2 360.0))
      \/ (k = 1%Z /\ deg2rad (py_mod u2 360.0) < deg2rad (py_mod u1 360.0)))
  /\ (360 <= u2 - u1 -> (1 <= k)%Z).
Proof.
  intros Hu k.
  destruct (wrapped_angle u1) as [_ He1].
  destruct (wrapped_angle u2) as [_ He2].
  pose proof PI_RGT_0 as Hpi.
  assert (Hk0 : (0 <= k)%Z).
  { unfold k. assert (Zfloor (u1 / 360.0) <= Zfloor (u2 / 360.0))%Z; [|lia].
    apply Zfloor_le. lra. }
  assert (Heq : deg2rad (py_mod u2 360.0)
                = deg2rad (py_mod u1 360.0) + deg2rad (u2 - u1) - 2 * PI * IZR k).
  { rewrite He1, He2. unfold k. rewrite minus_IZR. unfold deg2rad. ring. }
  split; [exact Heq|]. split; [exact Hk0|]. split.
  - intros Hlt.
    assert (Hk1 : (k <= 1)%Z).
    { unfold k.
      assert (Zfloor (u2 / 360.0) <= Zfloor (u1 / 360.0 + IZR 1))%Z
        by (apply Zfloor_le; lra).
      rewrite Zfloor_addz in H. lia. }
    assert (Hd : 0 <= deg2rad (u2 - u1) < 2 * PI).
    { unfold deg2rad. split.
      - apply Rmult_le_pos; [lra|]. apply Rlt_le, Rdiv_lt_0_compat; lra.
      - replace (2 * PI) with (360 * (PI / 180)) by field.
        apply Rmult_lt_compat_r; [apply Rdiv_lt_0_compat; lra|exact Hlt]. }
    destruct (Z.eq_dec k 0) as [E|NE].
    + left. split; [exact E|]. rewrite Heq, E. lra.
    + right. assert (E : k = 1%Z) by lia. split; [exact E|]. rewrite Heq, E. lra.
  - intros Hge. unfold k.
    assert (Zfloor (u1 / 360.0 + IZR 1) <= Zfloor (u2 / 360.0))%Z
      by (apply Zfloor_le; lra).
    rewrite Zfloor_addz in H. lia.
Qed.

End SiderealRate.

(** C9: for two timestamps in the range of [utcfromtimestamp], the earlier
    first, [gmst_rad] returns for each an angle in [0, 2 pi): the angle before
    the modulo reduced by whole turns, [deg2rad u - 2 pi floor(u / 360)].
    The angle before the modulo does not decrease with time and advances by
    360 degrees per sidereal day: over the elapsed time [dt] (between the
    timestamps as rounded to the microsecond, so within a microsecond of
    [t2 - t1]) it grows by between [360 dt / 86164.0907] and
    [360 dt / 86164.0901] degrees.  The returned angle is the earlier one
    plus that advance minus [k] whole turns, [k] being the number of wraps in
    between: within less than a sidereal day either there is no wrap and the
    angle has not decreased, or there is exactly one and it has fallen back;
    over a sidereal day or more there is at least one wrap. *)
Theorem gmst_rad_monotone_modulo_wrap (t1 t2 : R) :
  -62135596800 <= t1 -> t1 <= t2 -> t2 < 253402300799.9999995 ->
  exists (u1 u2 : R) (k : Z),
    Gmst.gmst_unwrapped_deg t1 = Ok u1
    /\ Gmst.gmst_unwrapped_deg t2 = Ok u2
    /\ u1 <= u2
    /\ Gmst.gmst_rad t1 = Ok (deg2rad (py_mod u1 360.0))
    /\ Gmst.gmst_rad t2 = Ok (deg2rad (py_mod u2 360.0))
    /\ 0 <= deg2rad (py_mod u1 360.0) < 2 * PI
    /\ 0 <= deg2rad (py_mod u2 360.0) < 2 * PI
    /\ deg2rad (py_mod u1 360.0) = deg2rad u1 - 2 * PI * IZR (Zfloor (u1 / 360.0))
    /\ deg2rad (py_mod u2 360.0) = deg2rad u2 - 2 * PI * IZR (Zfloor (u2 / 360.0))
    /\ (Zfloor (u1 / 360.0) <= Zfloor (u2 / 360.0))%Z
    /\ k = (Zfloor (u2 / 360.0) - Zfloor (u1 / 360.0))%Z
    /\ Rabs (Gmst.rounded_seconds t2 - Gmst.rounded_seconds t1 - (t2 - t1)) <= 1e-6
    /\ 360 * ((Gmst.rounded_seconds t2 - Gmst.rounded_seconds t1) / Gmst.SIDEREAL_DAY_MAX)
       <= u2 - u1
       <= 360 * ((Gmst.rounded_seconds t2 - Gmst.rounded_seconds t1) / Gmst.SIDEREAL_DAY_MIN)
    /\ deg2rad (py_mod u2 360.0)
       = deg2rad (py_mod u1 360.0) + deg2rad (u2 - u1) - 2 * PI * IZR k
    /\ (Gmst.rounded_seconds t2 - Gmst.rounded_seconds t1 < Gmst.SIDEREAL_DAY_MIN ->
        (k = 0%Z /\ deg2rad (py_mod u1 360.0) <= deg2rad (py_mod u2 360.0))
        \/ (k = 1%Z /\ deg2rad (py_mod u2 360.0) < deg2rad (py_mod u1 360.0)))
    /\ (Gmst.SIDEREAL_DAY_MAX <= Gmst.rounded_seconds t2 - Gmst.rounded_seconds t1 ->
        (1 <= k)%Z).
Proof.
  intros Hlo H12 Hhi.
  assert (Hhi1 : t1 < 253402300799.9999995) by lra.
  assert (Hlo2 : -62135596800 <= t2) by lra.
  destruct (gmst_unwrapped_spec t1 Hlo Hhi1) as [Hu1 Hg1].
  destruct (gmst_unwrapped_spec t2 Hlo2 Hhi) as [Hu2 Hg2].
  pose proof (rounded_seconds_near t1 t2) as Hnear.
  pose proof (rounded_seconds_mono t1 t2 H12) as Hdt0.
  unfold Gmst.rounded_seconds in *.
  set (r1 := Calendar.round_half_even (t1 * IZR Calendar.US_PER_SECOND)) in *.
  set (r2 := Calendar.round_half_even (t2 * IZR Calendar.US_PER_SECOND)) in *.
  assert (Hr : (r1 <= r2)%Z).
  { apply round_half_even_mono. apply Rmult_le_compat_r; [|exact H12].
    apply (IZR_le 0). unfold Calendar.US_PER_SECOND. lia. }
  pose proof (centuries_range r1 (rounded_in_range t1 Hlo Hhi1)) as [HT1 _].
  pose proof (centuries_range r2 (rounded_in_range t2 Hlo2 Hhi)) as [_ HT2].
  pose proof (centuries_mono r1 r2 Hr) as HT12.
  pose proof (GMST_sec_rate _ _ HT1 HT12 HT2) as Hrate. cbv zeta in Hrate.
  rewrite centuries_elapsed in Hrate.
  change (IZR Calendar.US_PER_SECOND) with 1000000 in *.
  set (dt := IZR r2 / 1000000 - IZR r1 / 1000000) in *.
  set (u1 := Gmst.GMST_sec (Gmst.centuries (Gmst.julian_of_us r1)) / 240.0) in *.
  set (u2 := Gmst.GMST_sec (Gmst.centuries (Gmst.julian_of_us r2)) / 240.0) in *.
  assert (Hdu : u2 - u1
                = (Gmst.GMST_sec (Gmst.centuries (Gmst.julian_of_us r2))
                   - Gmst.GMST_sec (Gmst.centuries (Gmst.julian_of_us r1))) / 240.0)
    by (unfold u1, u2; lra).
  rewrite <- Hdu in Hrate.
  assert (Hmax : 0 < Gmst.SIDEREAL_DAY_MAX) by (unfold Gmst.SIDEREAL_DAY_MAX; lra).
  assert (Hmin : 0 < Gmst.SIDEREAL_DAY_MIN) by (unfold Gmst.SIDEREAL_DAY_MIN; lra).
  assert (Hu : u1 <= u2).
  { assert (0 <= 360 * (dt / Gmst.SIDEREAL_DAY_MAX)); [|lra].
    apply Rmult_le_pos; [lra|]. apply Rmult_le_pos; [exact Hdt0|].
    left. now apply Rinv_0_lt_compat. }
  destruct (wrapped_angle u1) as [Hw1 He1].
  destruct (wrapped_angle u2) as [Hw2 He2].
  destruct (turns_between u1 u2 Hu) as [Heq [Hk0 [Hone Hmany]]].
  exists u1, u2, (Zfloor (u2 / 360.0) - Zfloor (u1 / 360.0))%Z.
  repeat (split; [assumption|]).
  split; [apply Zfloor_le; lra|].
  split; [reflexivity|].
  split; [exact Hnear|].
  split; [exact Hrate|].
  split; [exact Heq|].
  split.
  - intros Hlt. apply Hone.
    assert (360 * (dt / Gmst.SIDEREAL_DAY_MIN) < 360); [|lra].
    assert (dt / Gmst.SIDEREAL_DAY_MIN < 1); [|lra].
    apply (Rmult_lt_reg_r Gmst.SIDEREAL_DAY_MIN); [exact Hmin|].
    unfold Rdiv. rewrite Rmult_assoc, Rinv_l by lra. lra.
  - intros Hge. apply Hmany.
    assert (360 <= 360 * (dt / Gmst.SIDEREAL_DAY_MAX)); [|lra].
    assert (1 <= dt / Gmst.SIDEREAL_DAY_MAX); [|lra].
    apply (Rmult_le_reg_r Gmst.SIDEREAL_DAY_MAX); [exact Hmax|].
    unfold Rdiv. rewrite Rmult_assoc, Rinv_l by lra. lra.
Qed.

Lemma gmst_rad_monotone_modulo_wrap_witness :
  -62135596800 <= 0 /\ 0 <= 86400 /\ 86400 < 253402300799.9999995 /\
  exists (u1 u2 : R) (k : Z),
    Gmst.gmst_unwrapped_deg 0 = Ok u1
    /\ Gmst.gmst_unwrapped_deg 86400 = Ok u2
    /\ u1 <= u2
    /\ Gmst.gmst_rad 0 = Ok (deg2rad (py_mod u1 360.0))
    /\ Gmst.gmst_rad 86400 = Ok (deg2rad (py_mod u2 360.0))
    /\ 0 <= deg2rad (py_mod u1 360.0) < 2 * PI
    /\ 0 <= deg2rad (py_mod u2 360.0) < 2 * PI
    /\ deg2rad (py_mod u1 360.0) = deg2rad u1 - 2 * PI * IZR (Zfloor (u1 / 360.0))
    /\ deg2rad (py_mod u2 360.0) = deg2rad u2 - 2 * PI * IZR (Zfloor (u2 / 360.0))
    /\ (Zfloor (u1 / 360.0) <= Zfloor (u2 / 360.0))%Z
    /\ k = (Zfloor (u2 / 360.0) - Zfloor (u1 / 360.0))%Z
    /\ Rabs (Gmst.rounded_seconds 86400 - Gmst.rounded_seconds 0 - (86400 - 0)) <= 1e-6
    /\ 360 * ((Gmst.rounded_seconds 86400 - Gmst.rounded_seconds 0) / Gmst.SIDEREAL_DAY_MAX)
       <= u2 - u1
       <= 360 * ((Gmst.rounded_seconds 86400 - Gmst.rounded_seconds 0) / Gmst.SIDEREAL_DAY_MIN)
    /\ deg2rad (py_mod u2 360.0)
       = deg2rad (py_mod u1 360.0) + deg2rad (u2 - u1) - 2 * PI * IZR k
    /\ (Gmst.rounded_seconds 86400 - Gmst.rounded_seconds 0 < Gmst.SIDEREAL_DAY_MIN ->
        (k = 0%Z /\ deg2rad (py_mod u1 360.0) <= deg2rad (py_mod u2 360.0))
        \/ (k = 1%Z /\ deg2rad (py_mod u2 360.0) < deg2rad (py_mod u1 360.0)))
    /\ (Gmst.SIDEREAL_DAY_MAX <= Gmst.rounded_seconds 86400 - Gmst.rounded_seconds 0 ->
        (1 <= k)%Z).
Proof.
  assert (H1 : -62135596800 <= 0) by lra.
  assert (H2 : 0 <= 86400) by lra.
  assert (H3 : 86400 < 253402300799.9999995) by lra.
  split; [exact H1|]. split; [exact H2|]. split; [exact H3|].
  exact (gmst_rad_monotone_modulo_wrap 0 86400 H1 H2 H3).
Defined.

(** ** The Kepler solver: convergence for eccentricities up to one half *)

Section KeplerConvergence.
Import Kepler Convergence.

Lemma one_minus_cos d : 0 <= 1 - cos d <= d ^ 2 / 2.
Proof.
  replace d with (2 * (d / 2)) at 1 2 by field.
  rewrite cos_2a_sin.
  pose proof (sin_abs_le (d / 2)) as Hs.
  assert (Hh : Rabs (d / 2) = Rabs d / 2).
  { unfold Rdiv. rewrite Rabs_mult. f_equal. apply Rabs_right. lra. }
  rewrite Hh in Hs.
  assert (Hsq : sin (d / 2) * sin (d / 2) <= (Rabs d / 2) * (Rabs d / 2)).
  { pose proof (Rabs_pos (sin (d / 2))) as Hp.
    assert (H2 : Rabs (sin (d / 2)) * Rabs (sin (d / 2)) <= (Rabs d / 2) * (Rabs d / 2)) by nra.
    rewrite <- Rabs_mult in H2. rewrite Rabs_right in H2; [exact H2|].
    apply Rle_ge. nra. }
  assert (Hd2 : Rabs d * Rabs d = d ^ 2).
  { rewrite <- Rabs_mult. rewrite Rabs_right; [ring|]. apply Rle_ge. nra. }
  nra.
Qed.

Lemma sin_minus_id d : Rabs d <= 1 -> Rabs (sin d - d) <= Rabs d ^ 3 / 6.
Proof.
  assert (Hpos : forall x, 0 <= x <= 1 -> Rabs (sin x - x) <= x ^ 3 / 6).
  { intros x Hx. pose proof (sin_taylor x Hx) as [Hl _].
    pose proof (sin_abs_le x) as Hs. rewrite (Rabs_right x) in Hs by lra.
    assert (sin x <= x).
    { pose proof (Rle_abs (sin x)). lra. }
    apply Rabs_le. lra. }
  intros Hd. destruct (Rle_dec 0 d) as [Hp|Hn].
  - rewrite (Rabs_right d) in * by lra. apply Hpos. lra.
  - rewrite (Rabs_left d) in * by lra.
    specialize (Hpos (- d) ltac:(lra)).
    rewrite sin_neg in Hpos.
    replace (- sin d - - d) with (- (sin d - d)) in Hpos by ring.
    now rewrite Rabs_Ropp in Hpos.
Qed.

(** The second-order remainder of the sine, for a step of at most 1. *)
Lemma sin_second_order E d :
  Rabs d <= 1 -> Rabs (sin (E + d) - sin E - d * cos E) <= 2 / 3 * d ^ 2.
Proof.
  intros Hd. rewrite sin_plus.
  replace (sin E * cos d + cos E * sin d - sin E - d * cos E)
    with (- (sin E * (1 - cos d)) + cos E * (sin d - d)) by ring.
  pose proof (one_minus_cos d) as [Hc0 Hc1].
  pose proof (sin_minus_id d Hd) as Hs.
  pose proof (SIN_bound E) as [Hs1 Hs2]. pose proof (COS_bound E) as [Hc2 Hc3].
  assert (Ha : Rabs (- (sin E * (1 - cos d))) <= d ^ 2 / 2).
  { rewrite Rabs_Ropp, Rabs_mult, (Rabs_right (1 - cos d)) by lra.
    assert (Rabs (sin E) <= 1) by (apply Rabs_le; lra).
    pose proof (Rabs_pos (sin E)). nra. }
  assert (Hb : Rabs (cos E * (sin d - d)) <= Rabs d ^ 3 / 6).
  { rewrite Rabs_mult.
    assert (Rabs (cos E) <= 1) by (apply Rabs_le; lra).
    pose proof (Rabs_pos (cos E)). pose proof (Rabs_pos (sin d - d)). nra. }
  assert (Hd2 : Rabs d ^ 2 = d ^ 2).
  { simpl. rewrite Rmult_1_r, <- Rabs_mult, Rabs_right; [ring|]. apply Rle_ge. nra. }
  assert (Hd3 : Rabs d ^ 3 <= d ^ 2).
  { rewrite <- Hd2. pose proof (Rabs_pos d).
    replace (Rabs d ^ 3) with (Rabs d * Rabs d ^ 2) by ring.
    assert (0 <= Rabs d ^ 2) by (rewrite Hd2; nra). nra. }
  pose proof (Rabs_triang (- (sin E * (1 - cos d))) (cos E * (sin d - d))). lra.
Qed.

(** One update shrinks the next correction: for [e <= 1/2] and a correction
    of at most [r <= 1], the next one is at most [2/3 r]. *)
Lemma delta_contracts e M E r :
  0 <= e <= 1 / 2 -> r <= 1 ->
  Rabs (delta e M E) <= r ->
  Rabs (delta e M (E + delta e M E)) <= 2 / 3 * r.
Proof.
  intros He Hr Hd.
  assert (He' : 0 <= e < 1) by lra.
  pose proof (slope_pos e E He') as Hs.
  set (d := delta e M E) in *.
  assert (Hres : residual e M E = - d * slope e E).
  { unfold d, delta. field. lra. }
  assert (Hr' : residual e M (E + d) = - e * (sin (E + d) - sin E - d * cos E)).
  { unfold residual in *. unfold slope in Hres. lra. }
  pose proof (Rabs_pos d) as Hd0.
  assert (Hd1 : Rabs d <= 1) by lra.
  pose proof (sin_second_order E d Hd1) as H2.
  assert (Hd2 : d ^ 2 <= r * 1).
  { assert (Rabs d * Rabs d = d ^ 2).
    { rewrite <- Rabs_mult, Rabs_right; [ring|]. apply Rle_ge. nra. }
    nra. }
  assert (Hnum : Rabs (residual e M (E + d)) <= e * (2 / 3 * r)).
  { rewrite Hr', Rabs_mult, Rabs_Ropp, (Rabs_right e) by lra.
    pose proof (Rabs_pos (sin (E + d) - sin E - d * cos E)). nra. }
  pose proof (slope_pos e (E + d) He') as Hs'.
  assert (Hs2 : 1 - e <= slope e (E + d)).
  { unfold slope. pose proof (COS_bound (E + d)) as [_ Hc]. nra. }
  unfold delta at 1. fold d.
  unfold Rdiv. rewrite Rabs_mult, Rabs_Ropp, (Rabs_right (/ _)).
  2:{ apply Rle_ge. left. now apply Rinv_0_lt_compat. }
  apply (Rmult_le_reg_r (slope e (E + d))); [exact Hs'|].
  rewrite Rmult_assoc, Rinv_l, Rmult_1_r by lra.
  assert (0 <= r) by lra. nra.
Qed.

(** The first correction, from the start [E = M], is at most 1. *)
Lemma first_delta_small e M :
  0 <= e <= 1 / 2 -> Rabs (delta e M M) <= 1.
Proof.
  intros He. assert (He' : 0 <= e < 1) by lra.
  pose proof (slope_pos e M He') as Hs.
  unfold delta, residual.
  replace (- (M - e * sin M - M)) with (e * sin M) by ring.
  unfold Rdiv. rewrite Rabs_mult, (Rabs_right (/ _)).
  2:{ apply Rle_ge. left. now apply Rinv_0_lt_compat. }
  apply (Rmult_le_reg_r (slope e M)); [exact Hs|].
  rewrite Rmult_assoc, Rinv_l, Rmult_1_r, Rmult_1_l by lra.
  rewrite Rabs_mult, (Rabs_right e) by lra.
  pose proof (SIN_bound M) as [Hs1 Hs2]. pose proof (COS_bound M) as [Hc1 Hc2].
  assert (Rabs (sin M) <= 1) by (apply Rabs_le; lra).
  pose proof (Rabs_pos (sin M)). unfold slope. nra.
Qed.

Lemma corrections_update e r M E :
  0 <= e <= 1 / 2 -> r <= 1 ->
  corrections_within e r M E ->
  corrections_within e (2 / 3 * r) M (update e M E).
Proof.
  intros He Hr H. induction H as [|m x M E Hmx H IH]; [constructor|].
  unfold update, deltas in *. cbn [map2]. constructor; [|exact IH].
  now apply delta_contracts.
Qed.

Lemma corrections_below e r tol M E :
  r < tol -> corrections_within e r M E -> all_below tol (deltas e M E) = true.
Proof.
  intros Hr H. induction H as [|m x M E Hmx H IH]; [reflexivity|].
  unfold deltas in *. cbn [map2 all_below forallb]. fold (all_below tol (map2 (delta e) M E)).
  rewrite IH, andb_true_r. unfold Rltb.
  destruct (Rlt_dec (Rabs (delta e m x)) tol); [reflexivity|lra].
Qed.

Lemma converged_within e tol M E n :
  0 <= e <= 1 / 2 ->
  forall r, 0 <= r <= 1 -> r * (2 / 3) ^ n < tol ->
  corrections_within e r M E ->
  converged e tol M E (S n) = true.
Proof.
  intros He. revert E. induction n as [|n IH]; intros E r Hr Htol H.
  - cbn [converged]. rewrite (corrections_below e r tol M E); [reflexivity| |exact H].
    simpl in Htol. lra.
  - cbn [converged]. destruct (all_below tol (deltas e M E)); [reflexivity|].
    apply (IH _ (2 / 3 * r)).
    + lra.
    + simpl in Htol. lra.
    + apply corrections_update; [exact He|lra|exact H].
Qed.

Lemma initial_guess_low e M : Rabs e <= 0.8 -> initial_guess e M = M.
Proof.
  intros He. unfold initial_guess, Rltb.
  destruct (Rlt_dec 0.8 (Rabs e)); [lra|reflexivity].
Qed.

Lemma corrections_start e M :
  0 <= e <= 1 / 2 -> corrections_within e 1 M M.
Proof.
  intros He. induction M as [|m M IH]; constructor; [|exact IH].
  now apply first_delta_small.
Qed.

Lemma converged_low_eccentricity e M :
  0 <= e <= 1 / 2 ->
  converged e default_tol M (initial_guess e M) default_maxiter = true.
Proof.
  intros He. rewrite initial_guess_low by (rewrite Rabs_right; lra).
  change default_maxiter with (S 99).
  apply (converged_within e default_tol M M 99 He 1); [lra| |now apply corrections_start].
  unfold default_tol. lra.
Qed.

End KeplerConvergence.

(** For every batch of mean anomalies and every eccentricity in [0, 0.5],
    [kepler_E] with its defaults leaves the loop through the tolerance test,
    and each returned [E] satisfies Kepler's equation within 1e-8. *)
Theorem kepler_E_converges_for_low_eccentricity (M : list R) (e : R) :
  0 <= e <= 0.5 ->
  Kepler.converged e Kepler.default_tol (map Kepler.normalize M)
    (Kepler.initial_guess e (map Kepler.normalize M)) Kepler.default_maxiter = true
  /\ Forall2 (fun m E => Rabs (E - e * sin E - m) < 1e-8)
       (map Kepler.normalize M) (Kepler.kepler_E_default M e).
Proof.
  intros He.
  assert (He2 : 0 <= e <= 1 / 2) by lra.
  assert (He' : 0 <= e < 1) by lra.
  pose proof (converged_low_eccentricity e (map Kepler.normalize M) He2) as Hc.
  split; [exact Hc|].
  assert (Hlen : length (map Kepler.normalize M)
                 = length (Kepler.initial_guess e (map Kepler.normalize M)))
    by now rewrite initial_guess_length.
  pose proof (newton_converged e Kepler.default_tol _ _ _ He' Hlen Hc) as H.
  unfold Kepler.kepler_E_default, Kepler.kepler_E.
  eapply Forall2_impl; [|exact H].
  intros m E Hm. unfold Kepler.residual in Hm. unfold Kepler.default_tol in Hm.
  nra.
Qed.

Lemma kepler_E_converges_for_low_eccentricity_witness :
  0 <= 0.3 <= 0.5
  /\ Kepler.converged 0.3 Kepler.default_tol (map Kepler.normalize [1; -2; 7])
       (Kepler.initial_guess 0.3 (map Kepler.normalize [1; -2; 7]))
       Kepler.default_maxiter = true
  /\ Forall2 (fun m E => Rabs (E - 0.3 * sin E - m) < 1e-8)
       (map Kepler.normalize [1; -2; 7]) (Kepler.kepler_E_default [1; -2; 7] 0.3).
Proof.
  assert (H : 0 <= 0.3 <= 0.5) by lra.
  split; [exact H|].
  exact (kepler_E_converges_for_low_eccentricity [1; -2; 7] 0.3 H).
Defined.

(** ** The angle of [arctan2] *)

Section Angles.

Lemma hypot_pos x y : x <> 0 \/ y <> 0 -> 0 < hypot x y.
Proof.
  intros H. unfold hypot. apply sqrt_lt_R0.
  destruct H as [H|H]; nra.
Qed.

Lemma hypot_sqr x y : hypot x y * hypot x y = x * x + y * y.
Proof. unfold hypot. apply sqrt_sqrt. nra. Qed.

Lemma sqrt_one_plus_ratio x y :
  x <> 0 -> sqrt (1 + (y / x)²) = hypot x y / Rabs x.
Proof.
  intros Hx. unfold Rsqr.
  assert (Hax : 0 < Rabs x) by now apply Rabs_pos_lt.
  replace (1 + y / x * (y / x)) with ((x * x + y * y) / (Rabs x * Rabs x)).
  2:{ rewrite <- Rabs_mult, (Rabs_right (x * x)) by (apply Rle_ge; nra). field. exact Hx. }
  rewrite sqrt_div_alt by nra.
  rewrite sqrt_square by lra. reflexivity.
Qed.

(** [arctan2 y x] is the angle of the point [(x, y)]. *)
Lemma arctan2_cos_sin x y :
  x <> 0 \/ y <> 0 ->
  cos (arctan2 y x) = x / hypot x y /\ sin (arctan2 y x) = y / hypot x y.
Proof.
  intros H. pose proof (hypot_pos x y H) as Hh.
  unfold arctan2.
  destruct (Rlt_dec 0 x) as [Hx|Hx].
  { rewrite cos_atan, sin_atan, sqrt_one_plus_ratio, Rabs_right by lra.
    split; field; lra. }
  destruct (Rlt_dec x 0) as [Hx'|Hx'].
  { destruct (Rle_dec 0 y) as [Hy|Hy].
    - rewrite cos_plus, sin_plus, cos_PI, sin_PI, cos_atan, sin_atan.
      rewrite sqrt_one_plus_ratio, Rabs_left by lra.
      split; field; lra.
    - rewrite cos_minus, sin_minus, cos_PI, sin_PI, cos_atan, sin_atan.
      rewrite sqrt_one_plus_ratio, Rabs_left by lra.
      split; field; lra. }
  assert (x = 0) by lra. subst x.
  assert (Hy0 : y <> 0) by (destruct H; [lra|assumption]).
  assert (Hhy : hypot 0 y = Rabs y).
  { unfold hypot. rewrite Rmult_0_l, Rplus_0_l. apply sqrt_Rsqr_abs. }
  destruct (Rlt_dec 0 y) as [Hy|Hy].
  { rewrite cos_PI2, sin_PI2, Hhy, Rabs_right by lra. split; field; lra. }
  destruct (Rlt_dec y 0) as [Hy'|Hy']; [|lra].
  rewrite cos_neg, sin_neg, cos_PI2, sin_PI2, Hhy, Rabs_left by lra.
  split; field; lra.
Qed.

(** On the unit circle the angle gives back the point. *)
Lemma arctan2_unit c s :
  c * c + s * s = 1 -> cos (arctan2 s c) = c /\ sin (arctan2 s c) = s.
Proof.
  intros H.
  assert (Hne : c <> 0 \/ s <> 0).
  { destruct (Req_dec c 0) as [->|Hc]; [right|now left]. intros ->. lra. }
  destruct (arctan2_cos_sin c s Hne) as [Hc Hs].
  assert (Hh : hypot c s = 1) by (unfold hypot; rewrite H; apply sqrt_1).
  rewrite Hh in Hc, Hs. split; [rewrite Hc|rewrite Hs]; field.
Qed.

End Angles.

(** ** Position and velocity on an ellipse *)

Section Ellipse.
Import Kepler OrbMath.

Variables a e : R.
Hypothesis Ha : 0 < a.
Hypothesis He : 0 <= e < 1.

Lemma one_minus_e2 : 0 < 1 - e ^ 2.
Proof. nra. Qed.

Lemma sqrt_one_minus_e2 : sqrt (1 - e ^ 2) * sqrt (1 - e ^ 2) = 1 - e ^ 2.
Proof. apply sqrt_sqrt. pose proof one_minus_e2. lra. Qed.

Lemma true_anomaly_cos_sin E :
  cos (true_anomaly e E) = (cos E - e) / (1 - e * cos E)
  /\ sin (true_anomaly e E) = sqrt (1 - e ^ 2) * sin E / (1 - e * cos E).
Proof.
  unfold true_anomaly. apply arctan2_unit.
  pose proof (slope_pos e E He) as Hs. unfold slope in Hs.
  pose proof sqrt_one_minus_e2 as Hq.
  pose proof (sin2_cos2 E) as H. unfold Rsqr in H.
  set (q := sqrt (1 - e ^ 2)) in *.
  replace ((cos E - e) / (1 - e * cos E) * ((cos E - e) / (1 - e * cos E))
           + q * sin E / (1 - e * cos E) * (q * sin E / (1 - e * cos E)))
    with (((cos E - e) * (cos E - e) + (q * q) * (sin E * sin E))
          / ((1 - e * cos E) * (1 - e * cos E))) by (field; lra).
  rewrite Hq.
  replace (sin E * sin E) with (1 - cos E * cos E) by lra.
  field. lra.
Qed.

(** The perifocal position in terms of the eccentric anomaly. *)
Lemma perifocal_components E :
  perifocal a e E = mkVec (a * (cos E - e)) (a * (sqrt (1 - e ^ 2) * sin E)) 0.
Proof.
  unfold perifocal. destruct (true_anomaly_cos_sin E) as [Hc Hs].
  rewrite Hc, Hs.
  pose proof (slope_pos e E He) as Hp. unfold slope in Hp.
  f_equal; field; lra.
Qed.

Lemma norm_perifocal E : norm (perifocal a e E) = a * (1 - e * cos E).
Proof.
  rewrite perifocal_components. unfold norm; cbn [vx vy vz].
  pose proof (slope_pos e E He) as Hp. unfold slope in Hp.
  pose proof sqrt_one_minus_e2 as Hq.
  pose proof (sin2_cos2 E) as H. unfold Rsqr in H.
  set (q := sqrt (1 - e ^ 2)) in *.
  replace (a * (cos E - e) * (a * (cos E - e)) + a * (q * sin E) * (a * (q * sin E)) + 0 * 0)
    with ((a * a) * ((cos E - e) * (cos E - e) + (q * q) * (sin E * sin E))) by ring.
  rewrite Hq.
  replace (sin E * sin E) with (1 - cos E * cos E) by lra.
  replace (a * a * ((cos E - e) * (cos E - e) + (1 - e ^ 2) * (1 - cos E * cos E)))
    with ((a * (1 - e * cos E)) * (a * (1 - e * cos E))) by ring.
  apply sqrt_square. nra.
Qed.

Lemma norm_perifocal_bounds E :
  a * (1 - e) <= norm (perifocal a e E) <= a * (1 + e).
Proof.
  rewrite norm_perifocal. pose proof (COS_bound E) as [Hl Hu].
  assert (Hec : - e <= e * cos E <= e) by nra.
  split; apply Rmult_le_compat_l; lra.
Qed.

Lemma MU_EARTH_pos : 0 < MU_EARTH.
Proof. unfold MU_EARTH. lra. Qed.

Lemma momentum_root :
  sqrt (MU_EARTH * a * (1 - e ^ 2)) = sqrt (MU_EARTH * a) * sqrt (1 - e ^ 2).
Proof.
  pose proof MU_EARTH_pos. pose proof one_minus_e2.
  apply sqrt_mult; nra.
Qed.

(** The perifocal velocity in terms of the eccentric anomaly. *)
Lemma velocity_components E :
  let f := true_anomaly e E in
  let h := sqrt (MU_EARTH * a * (1 - e ^ 2)) in
  let s := sqrt (MU_EARTH * a) in
  - MU_EARTH / h * sin f = - (s / a * (sin E / (1 - e * cos E)))
  /\ MU_EARTH / h * (e + cos f)
     = s / a * (sqrt (1 - e ^ 2) * cos E / (1 - e * cos E)).
Proof.
  intros f h s. unfold f, h.
  destruct (true_anomaly_cos_sin E) as [Hc Hs]. rewrite Hc, Hs, momentum_root.
  fold s.
  pose proof MU_EARTH_pos as Hmu0. pose proof one_minus_e2 as He2.
  pose proof sqrt_one_minus_e2 as Hq.
  assert (Hq0 : 0 < sqrt (1 - e ^ 2)) by (apply sqrt_lt_R0; lra).
  assert (Hs2 : s * s = MU_EARTH * a) by (apply sqrt_sqrt; nra).
  assert (Hs0 : 0 < s) by (apply sqrt_lt_R0; nra).
  pose proof (slope_pos e E He) as Hp. unfold slope in Hp.
  set (q := sqrt (1 - e ^ 2)) in *.
  assert (Hmu : MU_EARTH = s * s / a) by (rewrite Hs2; field; lra).
  clearbody s q. rewrite Hmu. split.
  - field. lra.
  - replace (e + (cos E - e) / (1 - e * cos E))
      with (q * q * cos E / (1 - e * cos E)) by (rewrite Hq; field; lra).
    field. lra.
Qed.

Lemma norm_sqr v : norm v * norm v = dot v v.
Proof. unfold norm, dot. apply sqrt_sqrt. nra. Qed.

(** Vis-viva in the perifocal frame. *)
Lemma perifocal_vis_viva E :
  let f := true_anomaly e E in
  let h := sqrt (MU_EARTH * a * (1 - e ^ 2)) in
  let v := mkVec (- MU_EARTH / h * sin f) (MU_EARTH / h * (e + cos f)) 0 in
  dot v v = MU_EARTH * (2 / (a * (1 - e * cos E)) - 1 / a).
Proof.
  intros f h v. unfold v, dot; cbn [vx vy vz].
  destruct (velocity_components E) as [Hx Hy]. fold f h in Hx, Hy. rewrite Hx, Hy.
  pose proof MU_EARTH_pos as Hmu0.
  pose proof sqrt_one_minus_e2 as Hq.
  assert (Hs2 : sqrt (MU_EARTH * a) * sqrt (MU_EARTH * a) = MU_EARTH * a)
    by (apply sqrt_sqrt; nra).
  pose proof (slope_pos e E He) as Hp. unfold slope in Hp.
  pose proof (sin2_cos2 E) as H. unfold Rsqr in H.
  set (s := sqrt (MU_EARTH * a)) in *. set (q := sqrt (1 - e ^ 2)) in *.
  replace (- (s / a * (sin E / (1 - e * cos E))) * - (s / a * (sin E / (1 - e * cos E)))
           + s / a * (q * cos E / (1 - e * cos E)) * (s / a * (q * cos E / (1 - e * cos E)))
           + 0 * 0)
    with ((s * s) * (sin E * sin E + (q * q) * (cos E * cos E))
          / (a * a * ((1 - e * cos E) * (1 - e * cos E)))) by (field; lra).
  rewrite Hs2, Hq.
  replace (sin E * sin E) with (1 - cos E * cos E) by lra.
  field. lra.
Qed.

(** Position times velocity in the perifocal frame. *)
Lemma perifocal_dot E :
  let f := true_anomaly e E in
  let h := sqrt (MU_EARTH * a * (1 - e ^ 2)) in
  let v := mkVec (- MU_EARTH / h * sin f) (MU_EARTH / h * (e + cos f)) 0 in
  dot (perifocal a e E) v = e * sin E * sqrt (MU_EARTH * a).
Proof.
  intros f h v. unfold v. rewrite perifocal_components. unfold dot; cbn [vx vy vz].
  destruct (velocity_components E) as [Hx Hy]. fold f h in Hx, Hy. rewrite Hx, Hy.
  pose proof sqrt_one_minus_e2 as Hq.
  pose proof (slope_pos e E He) as Hp. unfold slope in Hp.
  set (s := sqrt (MU_EARTH * a)) in *. set (q := sqrt (1 - e ^ 2)) in *.
  replace (a * (cos E - e) * - (s / a * (sin E / (1 - e * cos E)))
           + a * (q * sin E) * (s / a * (q * cos E / (1 - e * cos E))) + 0 * 0)
    with (s * sin E * ((q * q) * cos E - (cos E - e)) / (1 - e * cos E)) by (field; lra).
  rewrite Hq. field. lra.
Qed.

End Ellipse.

Section Orthogonal.
Import OrbMath.

Lemma dot_Rz th u v : dot (mat_vec (Rz th) u) (mat_vec (Rz th) v) = dot u v.
Proof.
  destruct u as [x y z], v as [x' y' z']. unfold mat_vec, dot, Rz; cbn [vx vy vz row1 row2 row3].
  pose proof (sin2_cos2 th) as H. unfold Rsqr in H.
  replace (x * x' + y * y' + z * z')
    with ((sin th * sin th + cos th * cos th) * (x * x' + y * y') + z * z')
    by (rewrite H; ring).
  ring.
Qed.

Lemma dot_Rx th u v : dot (mat_vec (Rx th) u) (mat_vec (Rx th) v) = dot u v.
Proof.
  destruct u as [x y z], v as [x' y' z']. unfold mat_vec, dot, Rx; cbn [vx vy vz row1 row2 row3].
  pose proof (sin2_cos2 th) as H. unfold Rsqr in H.
  replace (x * x' + y * y' + z * z')
    with (x * x' + (sin th * sin th + cos th * cos th) * (y * y' + z * z'))
    by (rewrite H; ring).
  ring.
Qed.

Lemma dot_Q_pX i raan argp u v :
  dot (mat_vec (Q_pX i raan argp) u) (mat_vec (Q_pX i raan argp) v) = dot u v.
Proof.
  unfold Q_pX. rewrite !mat_vec_mul.
  now rewrite dot_Rz, dot_Rx, dot_Rz.
Qed.

(** The third row of [Q_pX]: the height above the equatorial plane of a
    point of the orbital plane. *)
Lemma height_Q_pX i raan argp x y :
  vz (mat_vec (Q_pX i raan argp) (mkVec x y 0))
  = sin (deg2rad i) * (x * sin (deg2rad argp) + y * cos (deg2rad argp)).
Proof.
  unfold Q_pX, mat_vec, mat_mul, dot, col1, col2, col3, Rz, Rx;
    cbn [vx vy vz row1 row2 row3].
  ring.
Qed.

Lemma height_bound s c x y :
  s * s + c * c = 1 -> Rabs (x * s + y * c) <= sqrt (x * x + y * y + 0 * 0).
Proof.
  intros H.
  rewrite <- (sqrt_Rsqr_abs (x * s + y * c)).
  apply sqrt_le_1_alt. unfold Rsqr.
  pose proof (Rle_0_sqr (x * c - y * s)) as H0. unfold Rsqr in H0.
  assert (H1 : (x * s + y * c) * (x * s + y * c) + (x * c - y * s) * (x * c - y * s)
               = (x * x + y * y) * (s * s + c * c)) by ring.
  rewrite H in H1. lra.
Qed.

End Orthogonal.

Section OeToRv.
Import Kepler OrbMath.

Lemma oe_to_rv_value a e i_deg raan_deg argp_deg M_deg :
  a <> 0 -> Rabs e <= 0.8 ->
  let E := nth 0 (kepler_E_default [deg2rad M_deg] e) 0 in
  let f := true_anomaly e E in
  let h := sqrt (MU_EARTH * a * (1 - e ^ 2)) in
  let Q := Q_pX i_deg raan_deg argp_deg in
  kepler_E_scalar (deg2rad M_deg) e = Ok E
  /\ oe_to_rv a e i_deg raan_deg argp_deg M_deg
     = Ok (mat_vec Q (perifocal a e E),
           mat_vec Q (mkVec (- MU_EARTH / h * sin f) (MU_EARTH / h * (e + cos f)) 0)).
Proof.
  intros Ha He E f h Q.
  pose proof (kepler_E_scalar_low (deg2rad M_deg) e He) as HE. fold E in HE.
  split; [exact HE|].
  unfold oe_to_rv. rewrite py_div_cube by exact Ha. cbn [bind].
  rewrite HE. reflexivity.
Qed.

End OeToRv.

(** For an ellipse on which [oe_to_rv] returns (semi-major axis
    [1e-100 <= a <= 1e100], [0 <= e <= 0.8]) it returns a position at distance
    [a (1 - e cos E)] from the centre, between perigee and apogee, and a
    velocity that satisfies the vis-viva equation [v^2 = mu (2/r - 1/a)], for
    the eccentric anomaly [E] the solver gave. *)
Theorem oe_to_rv_vis_viva (a e i_deg raan_deg argp_deg M_deg : R) :
  1e-100 <= a <= 1e100 -> 0 <= e <= 0.8 ->
  exists E r v,
    OrbMath.kepler_E_scalar (deg2rad M_deg) e = Ok E
    /\ OrbMath.oe_to_rv a e i_deg raan_deg argp_deg M_deg = Ok (r, v)
    /\ norm r = a * (1 - e * cos E)
    /\ a * (1 - e) <= norm r <= a * (1 + e)
    /\ norm v * norm v = MU_EARTH * (2 / norm r - 1 / a).
Proof.
  intros Ha He.
  assert (Hpos : 0 < a) by lra. assert (He1 : 0 <= e < 1) by lra.
  destruct (oe_to_rv_value a e i_deg raan_deg argp_deg M_deg) as [HE Hrv];
    [lra|rewrite Rabs_right; lra|].
  eexists. eexists. eexists. split; [exact HE|]. split; [exact Hrv|].
  rewrite norm_Q_pX.
  split; [now apply norm_perifocal|].
  split; [now apply norm_perifocal_bounds|].
  rewrite norm_sqr, dot_Q_pX, (norm_perifocal a e Hpos He1).
  now apply perifocal_vis_viva.
Qed.

Lemma oe_to_rv_vis_viva_witness :
  1e-100 <= 7000 <= 1e100 /\ 0 <= 0.1 <= 0.8
  /\ exists E r v,
    OrbMath.kepler_E_scalar (deg2rad 30) 0.1 = Ok E
    /\ OrbMath.oe_to_rv 7000 0.1 51.6 10 20 30 = Ok (r, v)
    /\ norm r = 7000 * (1 - 0.1 * cos E)
    /\ 7000 * (1 - 0.1) <= norm r <= 7000 * (1 + 0.1)
    /\ norm v * norm v = MU_EARTH * (2 / norm r - 1 / 7000).
Proof.
  assert (Ha : 1e-100 <= 7000 <= 1e100) by lra.
  assert (He : 0 <= 0.1 <= 0.8) by lra.
  split; [exact Ha|]. split; [exact He|].
  exact (oe_to_rv_vis_viva 7000 0.1 51.6 10 20 30 Ha He).
Defined.

(** For such an ellipse the position and velocity of [oe_to_rv] have the
    scalar product [e sin E sqrt(mu a)] (zero on a circular orbit), and the
    squared angular momentum [|r|^2 |v|^2 - (r.v)^2] is [mu a (1 - e^2)]. *)
Theorem oe_to_rv_angular_momentum (a e i_deg raan_deg argp_deg M_deg : R) :
  1e-100 <= a <= 1e100 -> 0 <= e <= 0.8 ->
  exists E r v,
    OrbMath.kepler_E_scalar (deg2rad M_deg) e = Ok E
    /\ OrbMath.oe_to_rv a e i_deg raan_deg argp_deg M_deg = Ok (r, v)
    /\ dot r v = e * sin E * sqrt (MU_EARTH * a)
    /\ dot r r * dot v v - dot r v * dot r v = MU_EARTH * a * (1 - e ^ 2).
Proof.
  intros Ha He.
  assert (Hpos : 0 < a) by lra. assert (He1 : 0 <= e < 1) by lra.
  destruct (oe_to_rv_value a e i_deg raan_deg argp_deg M_deg) as [HE Hrv];
    [lra|rewrite Rabs_right; lra|].
  eexists. eexists. eexists. split; [exact HE|]. split; [exact Hrv|].
  set (E := nth 0 (Kepler.kepler_E_default [deg2rad M_deg] e) 0).
  rewrite !dot_Q_pX.
  rewrite (perifocal_dot a e Hpos He1 E), (perifocal_vis_viva a e Hpos He1 E).
  rewrite <- (norm_sqr (OrbMath.perifocal a e E)), (norm_perifocal a e Hpos He1 E).
  split; [reflexivity|].
  pose proof MU_EARTH_pos as Hmu.
  assert (Hs2 : sqrt (MU_EARTH * a) * sqrt (MU_EARTH * a) = MU_EARTH * a)
    by (apply sqrt_sqrt; nra).
  pose proof (slope_pos e E He1) as Hp. unfold Kepler.slope in Hp.
  pose proof (sin2_cos2 E) as H. unfold Rsqr in H.
  set (s := sqrt (MU_EARTH * a)) in *.
  replace (e * sin E * s * (e * sin E * s))
    with (e * e * (sin E * sin E) * (s * s)) by ring.
  rewrite Hs2. replace (sin E * sin E) with (1 - cos E * cos E) by lra.
  field. lra.
Qed.

Lemma oe_to_rv_angular_momentum_witness :
  1e-100 <= 7000 <= 1e100 /\ 0 <= 0.1 <= 0.8
  /\ exists E r v,
    OrbMath.kepler_E_scalar (deg2rad 30) 0.1 = Ok E
    /\ OrbMath.oe_to_rv 7000 0.1 51.6 10 20 30 = Ok (r, v)
    /\ dot r v = 0.1 * sin E * sqrt (MU_EARTH * 7000)
    /\ dot r r * dot v v - dot r v * dot r v = MU_EARTH * 7000 * (1 - 0.1 ^ 2).
Proof.
  assert (Ha : 1e-100 <= 7000 <= 1e100) by lra.
  assert (He : 0 <= 0.1 <= 0.8) by lra.
  split; [exact Ha|]. split; [exact He|].
  exact (oe_to_rv_angular_momentum 7000 0.1 51.6 10 20 30 Ha He).
Defined.

Section PropagatedPositions.
Import Kepler OrbMath.

(** What [propagate_orbit] returns for six elements with [a <> 0]. *)
Lemma propagate_orbit_value a e i_deg raan_deg argp_deg M0_deg times t0 :
  a <> 0 ->
  propagate_orbit [a; e; i_deg; raan_deg; argp_deg; M0_deg] times t0
  = Ok (map (mat_vec (Q_pX i_deg raan_deg argp_deg))
          (map (perifocal a e)
             (kepler_E_default
                (map normalize
                   (map (fun t => deg2rad M0_deg + sqrt (MU_EARTH / a ^ 3) * (t - t0)) times))
                e))).
Proof.
  intros Ha. unfold propagate_orbit, py_div.
  destruct (Req_dec_T (a ^ 3) 0) as [H0|_].
  { exfalso. exact (pow_nonzero a 3 Ha H0). }
  reflexivity.
Qed.

Lemma Forall_map_map {A B C} (P : C -> Prop) (g : B -> C) (f : A -> B) l :
  (forall x, P (g (f x))) -> Forall P (map g (map f l)).
Proof.
  intros H. induction l as [|x l IH]; simpl; constructor; auto.
Qed.

Lemma sin_lat_of v : v <> mkVec 0 0 0 -> sin (lat_of v) = vz v / norm v.
Proof.
  intros Hv. destruct v as [x y z]. unfold lat_of, norm; cbn [vx vy vz].
  assert (Hne : hypot x y <> 0 \/ z <> 0).
  { destruct (Req_dec z 0) as [->|Hz]; [left|now right].
    assert (x <> 0 \/ y <> 0).
    { destruct (Req_dec x 0) as [->|Hx]; [right|now left].
      intros ->. now apply Hv. }
    pose proof (hypot_pos x y H). lra. }
  destruct (arctan2_cos_sin (hypot x y) z Hne) as [_ Hs]. rewrite Hs.
  f_equal. unfold hypot at 1. now rewrite hypot_sqr.
Qed.

Lemma lat_of_origin : lat_of (mkVec 0 0 0) = 0.
Proof.
  unfold lat_of, hypot; cbn [vx vy vz].
  replace (0 * 0 + 0 * 0) with 0 by ring. rewrite sqrt_0.
  unfold arctan2.
  destruct (Rlt_dec 0 0); [lra|]. reflexivity.
Qed.

End PropagatedPositions.

(** For an ellipse ([a > 0], [0 <= e < 1]) every position [propagate_orbit]
    returns lies between the perigee distance [a (1 - e)] and the apogee
    distance [a (1 + e)], whatever the times. *)
Theorem propagate_orbit_between_perigee_and_apogee
  (a e i_deg raan_deg argp_deg M0_deg : R) (times_s : list R) (M0_epoch_time : R) :
  0 < a -> 0 <= e < 1 ->
  exists r_eci,
    OrbMath.propagate_orbit [a; e; i_deg; raan_deg; argp_deg; M0_deg] times_s M0_epoch_time
    = Ok r_eci
    /\ Forall (fun r => a * (1 - e) <= norm r <= a * (1 + e)) r_eci.
Proof.
  intros Ha He. rewrite propagate_orbit_value by lra.
  eexists. split; [reflexivity|].
  apply Forall_map_map. intros E. rewrite norm_Q_pX.
  now apply norm_perifocal_bounds.
Qed.

Lemma propagate_orbit_between_perigee_and_apogee_witness :
  0 < 7000 /\ 0 <= 0.1 < 1
  /\ exists r_eci,
    OrbMath.propagate_orbit [7000; 0.1; 51.6; 10; 20; 30] [0; 60; 120] 0 = Ok r_eci
    /\ Forall (fun r => 7000 * (1 - 0.1) <= norm r <= 7000 * (1 + 0.1)) r_eci.
Proof.
  assert (Ha : 0 < 7000) by lra.
  assert (He : 0 <= 0.1 < 1) by lra.
  split; [exact Ha|]. split; [exact He|].
  exact (propagate_orbit_between_perigee_and_apogee 7000 0.1 51.6 10 20 30 [0; 60; 120] 0 Ha He).
Defined.

Section Inclination.
Import OrbMath.

(** A rotated point of the orbital plane stays within the inclination. *)
Lemma position_within_inclination i_deg raan_deg argp_deg x y :
  let r := mat_vec (Q_pX i_deg raan_deg argp_deg) (mkVec x y 0) in
  Rabs (vz r) <= Rabs (sin (deg2rad i_deg)) * norm r
  /\ Rabs (sin (lat_of r)) <= Rabs (sin (deg2rad i_deg)).
Proof.
  intros r.
  assert (Hz : Rabs (vz r) <= Rabs (sin (deg2rad i_deg)) * norm r).
  { unfold r. rewrite norm_Q_pX.
    rewrite height_Q_pX, Rabs_mult. unfold norm; cbn [vx vy vz].
    apply Rmult_le_compat_l; [apply Rabs_pos|].
    apply height_bound. pose proof (sin2_cos2 (deg2rad argp_deg)) as H.
    unfold Rsqr in H. exact H. }
  split; [exact Hz|].
  destruct (Req_dec (norm r) 0) as [H0|Hn].
  - assert (Hr0 : r = mkVec 0 0 0).
    { destruct r as [x' y' z']. unfold norm in H0; cbn [vx vy vz] in H0.
      apply sqrt_eq_0 in H0; [|nra].
      assert (x' = 0) by nra. assert (y' = 0) by nra. assert (z' = 0) by nra.
      now subst. }
    rewrite Hr0, lat_of_origin, sin_0, Rabs_R0. apply Rabs_pos.
  - assert (Hpos : 0 < norm r).
    { unfold norm in *. pose proof (sqrt_pos (vx r * vx r + vy r * vy r + vz r * vz r)). lra. }
    rewrite sin_lat_of.
    2:{ intros Hr0. apply Hn. rewrite Hr0. unfold norm; cbn [vx vy vz].
        replace (0 * 0 + 0 * 0 + 0 * 0) with 0 by ring. apply sqrt_0. }
    unfold Rdiv. rewrite Rabs_mult, (Rabs_right (/ norm r)).
    2:{ apply Rle_ge. left. now apply Rinv_0_lt_compat. }
    apply (Rmult_le_reg_r (norm r)); [exact Hpos|].
    rewrite Rmult_assoc, Rinv_l, Rmult_1_r by lra. exact Hz.
Qed.

End Inclination.

(** For an ellipse (semi-major axis [1e-100 <= a <= 1e100], [0 <= e < 1])
    and times of moderate size, every position [propagate_orbit] returns
    stays within the inclination: its height [z] is at most [|sin i|] times
    its distance, so the sine of its latitude is at most [|sin i|]. *)
Theorem propagate_orbit_latitude_within_inclination
  (a e i_deg raan_deg argp_deg M0_deg : R) (times_s : list R) (M0_epoch_time : R) :
  1e-100 <= a <= 1e100 -> 0 <= e < 1 ->
  Forall (fun t => moderate (t - M0_epoch_time)) times_s ->
  exists r_eci,
    OrbMath.propagate_orbit [a; e; i_deg; raan_deg; argp_deg; M0_deg] times_s M0_epoch_time
    = Ok r_eci
    /\ length r_eci = length times_s
    /\ Forall (fun r => Rabs (vz r) <= Rabs (sin (deg2rad i_deg)) * norm r
                        /\ Rabs (sin (OrbMath.lat_of r)) <= Rabs (sin (deg2rad i_deg)))
         r_eci.
Proof.
  intros Ha He Ht. assert (Hnz : a <> 0) by lra.
  rewrite propagate_orbit_value by exact Hnz.
  eexists. split; [reflexivity|]. split.
  - rewrite !length_map. unfold Kepler.kepler_E_default.
    now rewrite kepler_E_length, !length_map.
  - apply Forall_map_map. intros E. unfold OrbMath.perifocal.
    apply position_within_inclination.
Qed.

Lemma propagate_orbit_latitude_within_inclination_witness :
  1e-100 <= 7000 <= 1e100 /\ 0 <= 0.1 < 1
  /\ Forall (fun t => moderate (t - 0)) [0; 60; 120]
  /\ exists r_eci,
    OrbMath.propagate_orbit [7000; 0.1; 51.6; 10; 20; 30] [0; 60; 120] 0 = Ok r_eci
    /\ length r_eci = length [0; 60; 120]
    /\ Forall (fun r => Rabs (vz r) <= Rabs (sin (deg2rad 51.6)) * norm r
                        /\ Rabs (sin (OrbMath.lat_of r)) <= Rabs (sin (deg2rad 51.6)))
         r_eci.
Proof.
  assert (Ha : 1e-100 <= 7000 <= 1e100) by lra.
  assert (He : 0 <= 0.1 < 1) by lra.
  assert (Ht : Forall (fun t => moderate (t - 0)) [0; 60; 120]).
  { repeat (apply Forall_cons; [unfold moderate; apply Rabs_le; lra|]).
    apply Forall_nil. }
  split; [exact Ha|]. split; [exact He|]. split; [exact Ht|].
  exact (propagate_orbit_latitude_within_inclination 7000 0.1 51.6 10 20 30
           [0; 60; 120] 0 Ha He Ht).
Defined.

(** ** Whole turns and whole periods *)

Section Periods.
Import Kepler OrbMath.

Lemma py_mod_add_multiple x m k : 0 < m -> py_mod (x + IZR k * m) m = py_mod x m.
Proof.
  intros Hm. unfold py_mod.
  replace ((x + IZR k * m) / m) with (x / m + IZR k) by (field; lra).
  rewrite Zfloor_addz, plus_IZR. ring.
Qed.

(** Reducing to [-pi, pi] forgets whole turns. *)
Lemma normalize_add_turns M k : normalize (M + IZR k * (2 * PI)) = normalize M.
Proof.
  unfold normalize.
  replace (M + IZR k * (2 * PI) + PI) with (M + PI + IZR k * (2 * PI)) by ring.
  rewrite py_mod_add_multiple; [reflexivity|]. pose proof PI_RGT_0. lra.
Qed.

(** Mean motion times period is one turn. *)
Lemma mean_motion_period a :
  0 < a -> sqrt (MU_EARTH / a ^ 3) * (2 * PI * sqrt (a ^ 3 / 398600.4418)) = 2 * PI.
Proof.
  intros Ha. fold MU_EARTH. pose proof MU_EARTH_pos as Hmu.
  assert (Ha3 : 0 < a ^ 3) by (apply pow_lt; exact Ha).
  replace (sqrt (MU_EARTH / a ^ 3) * (2 * PI * sqrt (a ^ 3 / MU_EARTH)))
    with (2 * PI * (sqrt (MU_EARTH / a ^ 3) * sqrt (a ^ 3 / MU_EARTH))) by ring.
  rewrite <- sqrt_mult_alt by (left; apply Rdiv_lt_0_compat; lra).
  replace (MU_EARTH / a ^ 3 * (a ^ 3 / MU_EARTH)) with 1 by (field; lra).
  rewrite sqrt_1. ring.
Qed.

End Periods.

(** The orbit closes: for [a > 0], shifting every time by a whole number of
    periods [T = 2 pi sqrt(a^3 / 398600.4418)], the period that
    [_prepare_propagation] computes, leaves the result of [propagate_orbit]
    unchanged. *)
Theorem propagate_orbit_repeats_after_a_period
  (a e i_deg raan_deg argp_deg M0_deg : R) (times_s : list R) (M0_epoch_time : R) (k : Z) :
  0 < a ->
  OrbMath.propagate_orbit [a; e; i_deg; raan_deg; argp_deg; M0_deg]
    (map (fun t => t + IZR k * (2 * PI * sqrt (a ^ 3 / 398600.4418))) times_s)
    M0_epoch_time
  = OrbMath.propagate_orbit [a; e; i_deg; raan_deg; argp_deg; M0_deg] times_s M0_epoch_time.
Proof.
  intros Ha. rewrite !propagate_orbit_value by lra.
  do 4 f_equal. rewrite !map_map. apply map_ext. intros t.
  rewrite <- (normalize_add_turns
                (deg2rad M0_deg + sqrt (MU_EARTH / a ^ 3) * (t - M0_epoch_time)) k).
  f_equal.
  pose proof (mean_motion_period a Ha) as H.
  set (n := sqrt (MU_EARTH / a ^ 3)) in *.
  set (T := 2 * PI * sqrt (a ^ 3 / 398600.4418)) in *.
  replace (n * (t + IZR k * T - M0_epoch_time))
    with (n * (t - M0_epoch_time) + IZR k * (n * T)) by ring.
  rewrite H. ring.
Qed.

Lemma propagate_orbit_repeats_after_a_period_witness :
  0 < 7000
  /\ OrbMath.propagate_orbit [7000; 0.1; 51.6; 10; 20; 30]
       (map (fun t => t + IZR 3 * (2 * PI * sqrt (7000 ^ 3 / 398600.4418))) [0; 60])
       0
     = OrbMath.propagate_orbit [7000; 0.1; 51.6; 10; 20; 30] [0; 60] 0.
Proof.
  assert (Ha : 0 < 7000) by lra.
  split; [exact Ha|].
  exact (propagate_orbit_repeats_after_a_period 7000 0.1 51.6 10 20 30 [0; 60] 0 3 Ha).
Defined.

(** ** The Earth rotation and the spherical coordinates *)

Section EarthFixed.
Import OrbMath Track.

Lemma rot_ecef_inverse th v : mat_vec (rot_ecef (- th)) (mat_vec (rot_ecef th) v) = v.
Proof.
  destruct v as [x y z]. unfold mat_vec, rot_ecef, dot; cbn [vx vy vz row1 row2 row3].
  rewrite cos_neg, sin_neg.
  pose proof (sin2_cos2 th) as H. unfold Rsqr in H.
  f_equal; [| |ring];
    match goal with
    | |- _ = ?r =>
        transitivity ((sin th * sin th + cos th * cos th) * r); [ring|rewrite H; ring]
    end.
Qed.

Lemma rot_ecef_height th v : vz (mat_vec (rot_ecef th) v) = vz v.
Proof.
  destruct v as [x y z]. unfold mat_vec, rot_ecef, dot; cbn [vx vy vz row1 row2 row3]. ring.
Qed.

Lemma rot_ecef_hypot th v :
  hypot (vx (mat_vec (rot_ecef th) v)) (vy (mat_vec (rot_ecef th) v)) = hypot (vx v) (vy v).
Proof.
  destruct v as [x y z]. unfold mat_vec, rot_ecef, dot, hypot; cbn [vx vy vz row1 row2 row3].
  f_equal. pose proof (sin2_cos2 th) as H. unfold Rsqr in H.
  replace (x * x + y * y) with ((sin th * sin th + cos th * cos th) * (x * x + y * y))
    by (rewrite H; ring).
  ring.
Qed.

Lemma rot_ecef_lat th v : lat_of (mat_vec (rot_ecef th) v) = lat_of v.
Proof. unfold lat_of. now rewrite rot_ecef_height, rot_ecef_hypot. Qed.

(** The loop of [eci_to_ecef], row by row. *)
Lemma rotate_rows_spec theta rows idx out :
  rotate_rows theta idx rows = Ok out ->
  Forall2 (fun v w => exists th, w = mat_vec (rot_ecef th) v) rows out
  /\ (idx + length rows <= length theta \/ rows = [])%nat.
Proof.
  revert idx out; induction rows as [|r rest IH]; intros idx out H; cbn [rotate_rows] in H.
  - inversion H; subst. split; [constructor|now right].
  - destruct (nth_error theta idx) as [th|] eqn:Hth; [|discriminate].
    destruct (rotate_rows theta (S idx) rest) as [out'|ex] eqn:Hrest; [|discriminate].
    cbn [bind] in H. inversion H; subst.
    destruct (IH (S idx) out' Hrest) as [Hall Hlen].
    split.
    + constructor; [now exists th|exact Hall].
    + left. cbn [length].
      assert (idx < length theta)%nat by (apply nth_error_Some; congruence).
      destruct Hlen as [Hlen| ->]; [lia|cbn [length]; lia].
Qed.

Lemma rotate_rows_short theta rows idx :
  (length theta < idx + length rows)%nat -> rows <> [] ->
  rotate_rows theta idx rows = Raise IndexError.
Proof.
  revert idx; induction rows as [|r rest IH]; intros idx Hlen Hne; [contradiction|].
  cbn [rotate_rows]. destruct (nth_error theta idx) as [th|] eqn:Hth; [|reflexivity].
  assert (Hidx : (idx < length theta)%nat) by (apply nth_error_Some; congruence).
  rewrite IH; [reflexivity| |].
  - cbn [length] in Hlen. lia.
  - intros ->. cbn [length] in Hlen. lia.
Qed.

Lemma rotate_rows_inverse theta rows idx out :
  rotate_rows theta idx rows = Ok out ->
  rotate_rows (map Ropp theta) idx out = Ok rows.
Proof.
  revert idx out; induction rows as [|r rest IH]; intros idx out H; cbn [rotate_rows] in H.
  - inversion H; subst. reflexivity.
  - destruct (nth_error theta idx) as [th|] eqn:Hth; [|discriminate].
    destruct (rotate_rows theta (S idx) rest) as [out'|ex] eqn:Hrest; [|discriminate].
    cbn [bind] in H. inversion H; subst.
    cbn [rotate_rows]. rewrite nth_error_map, Hth. cbn [option_map].
    rewrite (IH (S idx) out' Hrest). cbn [bind].
    now rewrite rot_ecef_inverse.
Qed.

Lemma rotation_angles_opp t_sec gst0 N :
  rotation_angles (map Ropp t_sec) (- gst0) N = map Ropp (rotation_angles t_sec gst0 N).
Proof.
  unfold rotation_angles. rewrite map_map.
  assert (H : map (fun t => - gst0 + OMEGA_EARTH * - t) t_sec
              = map Ropp (map (fun t => gst0 + OMEGA_EARTH * t) t_sec)).
  { rewrite map_map. apply map_ext. intros t. ring. }
  rewrite H.
  destruct (map (fun t => gst0 + OMEGA_EARTH * t) t_sec) as [|th [|th' rest]];
    cbn [map]; try reflexivity.
  induction N as [|N IH]; cbn [repeat map]; [reflexivity|now rewrite IH].
Qed.

Lemma rotate_rows_length theta rows idx out :
  rotate_rows theta idx rows = Ok out -> length out = length rows.
Proof.
  intros H. destruct (rotate_rows_spec _ _ _ _ H) as [Hall _].
  symmetry. eapply Forall2_length. exact Hall.
Qed.

Lemma eci_to_ecef_unfold r_eci t_sec gst0 :
  eci_to_ecef r_eci t_sec gst0
  = let* out := rotate_rows (rotation_angles t_sec gst0 (length (rows_of r_eci))) 0
                  (rows_of r_eci) in
    match r_eci with
    | Single _ => Ok (Single (nth 0 out (mkVec 0 0 0)))
    | Batch _ => Ok (Batch out)
    end.
Proof. destruct r_eci; reflexivity. Qed.

Lemma eci_to_ecef_ok r_eci t_sec gst0 r_ecef :
  eci_to_ecef r_eci t_sec gst0 = Ok r_ecef ->
  rotate_rows (rotation_angles t_sec gst0 (length (rows_of r_eci))) 0 (rows_of r_eci)
  = Ok (rows_of r_ecef)
  /\ match r_eci, r_ecef with
     | Single _, Single _ | Batch _, Batch _ => True
     | _, _ => False
     end.
Proof.
  rewrite eci_to_ecef_unfold.
  destruct (rotate_rows _ 0 (rows_of r_eci)) as [out|ex] eqn:Hout; [|discriminate].
  cbn [bind]. pose proof (rotate_rows_length _ _ _ _ Hout) as Hlen.
  destruct r_eci as [v|rows]; intros H; inversion H; subst; cbn [rows_of] in *.
  - destruct out as [|w [|w' rest]]; try discriminate. cbn [nth]. now split.
  - now split.
Qed.

End EarthFixed.

(** [eci_to_ecef] is undone by the opposite rotation: when it returns, calling
    it again on its result with the times and [gst0] negated gives back the
    inertial positions, in the same shape. *)
Theorem eci_to_ecef_round_trip
  (r_eci : positions) (t_sec : list R) (gst0 : R) (r_ecef : positions) :
  OrbMath.eci_to_ecef r_eci t_sec gst0 = Ok r_ecef ->
  OrbMath.eci_to_ecef r_ecef (map Ropp t_sec) (- gst0) = Ok r_eci.
Proof.
  intros H. destruct (eci_to_ecef_ok _ _ _ _ H) as [Hrows Hshape].
  pose proof (rotate_rows_length _ _ _ _ Hrows) as Hlen.
  rewrite eci_to_ecef_unfold, rotation_angles_opp, Hlen.
  rewrite (rotate_rows_inverse _ _ _ _ Hrows). cbn [bind].
  destruct r_eci as [v|rows], r_ecef as [w|out]; try contradiction; reflexivity.
Qed.

Lemma eci_to_ecef_round_trip_witness :
  OrbMath.eci_to_ecef (Batch [mkVec 7000 0 0; mkVec 0 7000 0]) [0; 60] 1
  = Ok (Batch [mat_vec (OrbMath.rot_ecef (1 + OMEGA_EARTH * 0)) (mkVec 7000 0 0);
               mat_vec (OrbMath.rot_ecef (1 + OMEGA_EARTH * 60)) (mkVec 0 7000 0)])
  /\ OrbMath.eci_to_ecef
       (Batch [mat_vec (OrbMath.rot_ecef (1 + OMEGA_EARTH * 0)) (mkVec 7000 0 0);
               mat_vec (OrbMath.rot_ecef (1 + OMEGA_EARTH * 60)) (mkVec 0 7000 0)])
       (map Ropp [0; 60]) (- 1)
     = Ok (Batch [mkVec 7000 0 0; mkVec 0 7000 0]).
Proof.
  assert (H : OrbMath.eci_to_ecef (Batch [mkVec 7000 0 0; mkVec 0 7000 0]) [0; 60] 1
              = Ok (Batch [mat_vec (OrbMath.rot_ecef (1 + OMEGA_EARTH * 0)) (mkVec 7000 0 0);
                           mat_vec (OrbMath.rot_ecef (1 + OMEGA_EARTH * 60)) (mkVec 0 7000 0)]))
    by reflexivity.
  split; [exact H|].
  exact (eci_to_ecef_round_trip _ _ _ _ H).
Defined.

(** [eci_to_ecef] fails in one way only: with a number of times other than
    one and smaller than the number of rows it raises IndexError; in every
    other case it returns as many rows as it was given, in the same shape
    (times beyond the last row are ignored). *)
Theorem eci_to_ecef_fails_only_on_missing_times
  (r_eci : positions) (t_sec : list R) (gst0 : R) :
  ((length t_sec = 1 \/ length (OrbMath.rows_of r_eci) <= length t_sec)%nat
   /\ exists r_ecef,
        OrbMath.eci_to_ecef r_eci t_sec gst0 = Ok r_ecef
        /\ length (OrbMath.rows_of r_ecef) = length (OrbMath.rows_of r_eci)
        /\ match r_eci, r_ecef with
           | Single _, Single _ | Batch _, Batch _ => True
           | _, _ => False
           end)
  \/ ((length t_sec <> 1 /\ length t_sec < length (OrbMath.rows_of r_eci))%nat
      /\ OrbMath.eci_to_ecef r_eci t_sec gst0 = Raise IndexError).
Proof.
  destruct (Nat.eq_dec (length t_sec) 1) as [H1|H1].
  - left. split; [now left|].
    destruct (eci_to_ecef_rows r_eci t_sec gst0 (or_introl H1)) as [out [Hok _]].
    exists out. split; [exact Hok|].
    destruct (eci_to_ecef_ok _ _ _ _ Hok) as [Hrows Hshape].
    split; [exact (rotate_rows_length _ _ _ _ Hrows)|exact Hshape].
  - destruct (le_lt_dec (length (OrbMath.rows_of r_eci)) (length t_sec)) as [Hle|Hlt].
    + left. split; [now right|].
      destruct (eci_to_ecef_rows r_eci t_sec gst0 (or_intror Hle)) as [out [Hok _]].
      exists out. split; [exact Hok|].
      destruct (eci_to_ecef_ok _ _ _ _ Hok) as [Hrows Hshape].
      split; [exact (rotate_rows_length _ _ _ _ Hrows)|exact Hshape].
    + right. split; [now split|].
      rewrite eci_to_ecef_unfold.
      rewrite rotate_rows_short; [reflexivity| |].
      * unfold Track.rotation_angles.
        assert (H0 : length (map (fun t => gst0 + OMEGA_EARTH * t) t_sec) = length t_sec)
          by apply length_map.
        destruct (map (fun t => gst0 + OMEGA_EARTH * t) t_sec) as [|th [|th' rest]];
          cbn [length] in *; lia.
      * intros Hnil. rewrite Hnil in Hlt. cbn [length] in Hlt. lia.
Qed.

(** The Earth rotation changes no latitude: the latitudes [ecef_to_latlon]
    gives for the Earth-fixed positions are those of the inertial positions,
    and each height [z] is kept. *)
Theorem eci_to_ecef_keeps_latitude
  (r_eci : positions) (t_sec : list R) (gst0 : R) (r_ecef : positions) :
  OrbMath.eci_to_ecef r_eci t_sec gst0 = Ok r_ecef ->
  Track.latitudes (OrbMath.ecef_to_latlon r_ecef)
  = Track.latitudes (OrbMath.ecef_to_latlon r_eci)
  /\ map vz (OrbMath.rows_of r_ecef) = map vz (OrbMath.rows_of r_eci).
Proof.
  intros H. destruct (eci_to_ecef_ok _ _ _ _ H) as [Hrows Hshape].
  destruct (rotate_rows_spec _ _ _ _ Hrows) as [Hall _].
  assert (Hlat : map (fun v => rad2deg (OrbMath.lat_of v)) (OrbMath.rows_of r_ecef)
                 = map (fun v => rad2deg (OrbMath.lat_of v)) (OrbMath.rows_of r_eci)).
  { clear -Hall. induction Hall as [|v w vs ws [th ->] _ IH]; cbn [map]; [reflexivity|].
    now rewrite rot_ecef_lat, IH. }
  assert (Hz : map vz (OrbMath.rows_of r_ecef) = map vz (OrbMath.rows_of r_eci)).
  { clear -Hall. induction Hall as [|v w vs ws [th ->] _ IH]; cbn [map]; [reflexivity|].
    now rewrite rot_ecef_height, IH. }
  split; [|exact Hz].
  destruct r_eci as [v|rows], r_ecef as [w|out]; try contradiction;
    cbn [OrbMath.ecef_to_latlon Track.latitudes OrbMath.rows_of map] in *;
    [|exact Hlat].
  now inversion Hlat.
Qed.

Lemma eci_to_ecef_keeps_latitude_witness :
  OrbMath.eci_to_ecef (Single (mkVec 7000 0 100)) [60] 1
  = Ok (Single (mat_vec (OrbMath.rot_ecef (1 + OMEGA_EARTH * 60)) (mkVec 7000 0 100)))
  /\ Track.latitudes
       (OrbMath.ecef_to_latlon
          (Single (mat_vec (OrbMath.rot_ecef (1 + OMEGA_EARTH * 60)) (mkVec 7000 0 100))))
     = Track.latitudes (OrbMath.ecef_to_latlon (Single (mkVec 7000 0 100)))
  /\ map vz (OrbMath.rows_of
               (Single (mat_vec (OrbMath.rot_ecef (1 + OMEGA_EARTH * 60)) (mkVec 7000 0 100))))
     = map vz (OrbMath.rows_of (Single (mkVec 7000 0 100))).
Proof.
  assert (H : OrbMath.eci_to_ecef (Single (mkVec 7000 0 100)) [60] 1
              = Ok (Single (mat_vec (OrbMath.rot_ecef (1 + OMEGA_EARTH * 60))
                              (mkVec 7000 0 100))))
    by reflexivity.
  split; [exact H|].
  exact (eci_to_ecef_keeps_latitude _ _ _ _ H).
Defined.

Section Spherical.
Import OrbMath Track.

Lemma atan_sign t : (0 <= t -> 0 <= atan t) /\ (t <= 0 -> atan t <= 0).
Proof.
  split; intros H.
  - destruct (Req_dec t 0) as [->|Hne]; [rewrite atan_0; lra|].
    pose proof (atan_increasing 0 t ltac:(lra)) as Hi. rewrite atan_0 in Hi. lra.
  - destruct (Req_dec t 0) as [->|Hne]; [rewrite atan_0; lra|].
    pose proof (atan_increasing t 0 ltac:(lra)) as Hi. rewrite atan_0 in Hi. lra.
Qed.

Lemma arctan2_range y x : - PI < arctan2 y x <= PI.
Proof.
  pose proof PI_RGT_0 as Hpi. unfold arctan2.
  destruct (Rlt_dec 0 x) as [Hx|Hx].
  { pose proof (atan_bound (y / x)). lra. }
  destruct (Rlt_dec x 0) as [Hx'|Hx'].
  { pose proof (atan_bound (y / x)) as Hb.
    destruct (atan_sign (y / x)) as [Hp Hn].
    destruct (Rle_dec 0 y) as [Hy|Hy].
    - assert (H : y / x <= 0).
      { unfold Rdiv. assert (Hi : / x < 0) by now apply Rinv_lt_0_compat.
        assert (0 <= y * - / x) by (apply Rmult_le_pos; lra). lra. }
      specialize (Hn H). lra.
    - assert (H : 0 < y / x).
      { unfold Rdiv. assert (Hi : / x < 0) by now apply Rinv_lt_0_compat.
        assert (0 < - y * - / x) by (apply Rmult_lt_0_compat; lra). lra. }
      pose proof (atan_increasing 0 (y / x) H) as Hi. rewrite atan_0 in Hi. lra. }
  destruct (Rlt_dec 0 y); [lra|]. destruct (Rlt_dec y 0); lra.
Qed.

Lemma arctan2_right_half y x : 0 <= x -> - (PI / 2) <= arctan2 y x <= PI / 2.
Proof.
  intros H0. pose proof PI_RGT_0 as Hpi. unfold arctan2.
  destruct (Rlt_dec 0 x) as [Hx|Hx].
  { pose proof (atan_bound (y / x)). lra. }
  destruct (Rlt_dec x 0) as [Hx'|Hx']; [lra|].
  destruct (Rlt_dec 0 y); [lra|]. destruct (Rlt_dec y 0); lra.
Qed.

Lemma hypot_nonneg x y : 0 <= hypot x y.
Proof. unfold hypot. apply sqrt_pos. Qed.

Lemma lat_range v : -90 <= rad2deg (lat_of v) <= 90.
Proof.
  pose proof (arctan2_right_half (vz v) (hypot (vx v) (vy v)) (hypot_nonneg _ _)) as [Hl Hu].
  pose proof PI_RGT_0 as Hpi. unfold rad2deg, lat_of.
  assert (H180 : 0 < 180 / PI) by (apply Rdiv_lt_0_compat; lra).
  assert (H90 : PI / 2 * (180 / PI) = 90) by (field; lra).
  set (k := 180 / PI) in *. set (t := arctan2 (vz v) (hypot (vx v) (vy v))) in *.
  assert (H1 : - (PI / 2) * k <= t * k) by (apply Rmult_le_compat_r; lra).
  assert (H2 : t * k <= PI / 2 * k) by (apply Rmult_le_compat_r; lra).
  lra.
Qed.

Lemma lon_range v : -180 < rad2deg (lon_of v) <= 180.
Proof.
  pose proof (arctan2_range (vy v) (vx v)) as [Hl Hu].
  pose proof PI_RGT_0 as Hpi. unfold rad2deg, lon_of.
  assert (H180 : 0 < 180 / PI) by (apply Rdiv_lt_0_compat; lra).
  assert (HPI : PI * (180 / PI) = 180) by (field; lra).
  set (k := 180 / PI) in *. set (t := arctan2 (vy v) (vx v)) in *.
  assert (H1 : - PI * k < t * k) by (apply Rmult_lt_compat_r; lra).
  assert (H2 : t * k <= PI * k) by (apply Rmult_le_compat_r; lra).
  lra.
Qed.

Lemma deg2rad_rad2deg x : deg2rad (rad2deg x) = x.
Proof. unfold deg2rad, rad2deg. pose proof PI_RGT_0. field. lra. Qed.

Lemma norm_hypot v : norm v = hypot (hypot (vx v) (vy v)) (vz v).
Proof. unfold norm. unfold hypot at 1. now rewrite hypot_sqr. Qed.

Lemma lon_of_axis z : lon_of (mkVec 0 0 z) = 0.
Proof.
  unfold lon_of, arctan2; cbn [vx vy].
  destruct (Rlt_dec 0 0); [lra|]. reflexivity.
Qed.

Lemma norm_origin : norm (mkVec 0 0 0) = 0.
Proof.
  unfold norm; cbn [vx vy vz].
  replace (0 * 0 + 0 * 0 + 0 * 0) with 0 by ring. apply sqrt_0.
Qed.

Lemma hypot_zero x y : hypot x y = 0 -> x = 0 /\ y = 0.
Proof.
  intros H. pose proof (hypot_sqr x y) as Hs. rewrite H in Hs.
  split; nra.
Qed.

(** The spherical coordinates give back the vector. *)
Lemma spherical_inverse v :
  vx v = norm v * cos (lat_of v) * cos (lon_of v)
  /\ vy v = norm v * cos (lat_of v) * sin (lon_of v)
  /\ vz v = norm v * sin (lat_of v).
Proof.
  destruct v as [x y z].
  rewrite norm_hypot. unfold lat_of, lon_of. cbn [vx vy vz].
  pose proof (hypot_nonneg x y) as Hrho.
  destruct (Req_dec (hypot x y) 0) as [H0|Hne].
  - destruct (hypot_zero x y H0) as [-> ->].
    destruct (Req_dec z 0) as [->|Hz].
    + assert (Hl : arctan2 0 (hypot 0 0) = 0) by exact lat_of_origin.
      rewrite Hl, H0. unfold hypot.
      replace (0 * 0 + 0 * 0) with 0 by ring. rewrite sqrt_0, sin_0.
      repeat split; ring.
    + assert (Hne : hypot 0 0 <> 0 \/ z <> 0) by now right.
      destruct (arctan2_cos_sin (hypot 0 0) z Hne) as [Hc Hs].
      pose proof (hypot_pos (hypot 0 0) z Hne) as Hpos.
      rewrite Hc, Hs. rewrite H0 in *.
      repeat split; field; lra.
  - assert (Hxy : x <> 0 \/ y <> 0).
    { destruct (Req_dec x 0) as [->|Hx]; [right|now left].
      intros ->. apply Hne. unfold hypot.
      replace (0 * 0 + 0 * 0) with 0 by ring. apply sqrt_0. }
    destruct (arctan2_cos_sin x y Hxy) as [Hc Hs].
    assert (Hne' : hypot x y <> 0 \/ z <> 0) by now left.
    destruct (arctan2_cos_sin (hypot x y) z Hne') as [Hc' Hs'].
    pose proof (hypot_pos (hypot x y) z Hne') as Hpos.
    rewrite Hc, Hs, Hc', Hs'.
    repeat split; field; lra.
Qed.

End Spherical.

(** Whatever the positions, every latitude [ecef_to_latlon] returns lies in
    [-90, 90] and every longitude in [-180, 180], and there is one of each
    per row. *)
Theorem ecef_to_latlon_ranges (r_ecef : positions) :
  Forall (fun lat => -90 <= lat <= 90) (Track.latitudes (OrbMath.ecef_to_latlon r_ecef))
  /\ Forall (fun lon => -180 <= lon <= 180) (Track.longitudes (OrbMath.ecef_to_latlon r_ecef))
  /\ length (Track.latitudes (OrbMath.ecef_to_latlon r_ecef)) = length (OrbMath.rows_of r_ecef)
  /\ length (Track.longitudes (OrbMath.ecef_to_latlon r_ecef)) = length (OrbMath.rows_of r_ecef).
Proof.
  assert (Hlon : forall v, -180 <= rad2deg (OrbMath.lon_of v) <= 180)
    by (intros v; pose proof (lon_range v); lra).
  destruct r_ecef as [v|rows];
    cbn [OrbMath.ecef_to_latlon Track.latitudes Track.longitudes OrbMath.rows_of].
  - repeat split; try reflexivity; constructor; try constructor;
      [apply lat_range|apply lat_range|apply Hlon|apply Hlon].
  - rewrite !length_map. repeat split; try reflexivity;
      apply Forall_forall; intros x Hx; apply in_map_iff in Hx as [v [<- _]];
      first [apply lat_range|apply Hlon].
Qed.

(** The spherical coordinates of [ecef_to_latlon] give back the vector:
    with [R = alt + 6371.0], [x = R cos lat cos lon], [y = R cos lat sin lon]
    and [z = R sin lat], the angles taken in degrees; this holds on the polar
    axis and at the centre too. *)
Theorem ecef_to_latlon_round_trip (v : vec3) :
  exists lat lon alt,
    OrbMath.ecef_to_latlon (Single v) = OrbMath.LatLon1 lat lon alt
    /\ vx v = (alt + 6371.0) * cos (deg2rad lat) * cos (deg2rad lon)
    /\ vy v = (alt + 6371.0) * cos (deg2rad lat) * sin (deg2rad lon)
    /\ vz v = (alt + 6371.0) * sin (deg2rad lat).
Proof.
  eexists. eexists. eexists. split; [reflexivity|].
  rewrite !deg2rad_rad2deg. unfold OrbMath.alt_of.
  replace (norm v - 6371.0 + 6371.0) with (norm v) by ring.
  apply spherical_inverse.
Qed.

(** ** The TLE parser: mean motion and eccentricity of well-formed lines *)

Section TleElements.
Import PyStr Tle.

Lemma Rpower_pos x y : 0 < Rpower x y.
Proof. unfold Rpower. apply exp_pos. Qed.

Lemma Rpower_cube x y : 0 < x -> Rpower x y ^ 3 = Rpower x (3 * y).
Proof.
  intros Hx. rewrite <- (Rpower_pow 3 _ (Rpower_pos x y)), Rpower_mult.
  f_equal. simpl. ring.
Qed.

(** The semi-major axis of a positive mean motion: its cube is [mu / n^2]. *)
Lemma semi_major_axis_cube n :
  0 < n ->
  let n_rad_s := 2 * PI * n / 86400 in
  let a := Rpower MU_EARTH (1 / 3) / Rpower n_rad_s (2 / 3) in
  semi_major_axis (Finite n) = Ok (Float (Finite a))
  /\ 0 < a /\ a ^ 3 = MU_EARTH / (n_rad_s * n_rad_s).
Proof.
  intros Hn n_rad_s a.
  assert (Hr : 0 < n_rad_s).
  { unfold n_rad_s. apply Rdiv_lt_0_compat; [|lra].
    apply Rmult_lt_0_compat; [|exact Hn]. pose proof PI_RGT_0. lra. }
  pose proof MU_EARTH_pos as Hmu.
  split; [|split].
  - unfold semi_major_axis. fold n_rad_s.
    destruct (Rlt_dec 0 n_rad_s); [reflexivity|contradiction].
  - unfold a. apply Rdiv_lt_0_compat; apply Rpower_pos.
  - unfold a.
    pose proof (Rpower_pos n_rad_s (2 / 3)) as Hp.
    replace ((Rpower MU_EARTH (1 / 3) / Rpower n_rad_s (2 / 3)) ^ 3)
      with (Rpower MU_EARTH (1 / 3) ^ 3 / Rpower n_rad_s (2 / 3) ^ 3) by (field; lra).
    rewrite !Rpower_cube by assumption.
    replace (3 * (1 / 3)) with 1 by field.
    replace (3 * (2 / 3)) with (1 + 1) by field.
    rewrite Rpower_plus, !Rpower_1 by assumption. reflexivity.
Qed.

Lemma mean_motion_of_axis n a :
  0 < n -> 0 < a -> a ^ 3 = MU_EARTH / (n * n) ->
  sqrt (MU_EARTH / a ^ 3) = n /\ sqrt (a ^ 3 / 398600.4418) = / n.
Proof.
  intros Hn Ha H. fold MU_EARTH. pose proof MU_EARTH_pos as Hmu. rewrite H.
  split.
  - replace (MU_EARTH / (MU_EARTH / (n * n))) with (n * n) by (field; lra).
    apply sqrt_square. lra.
  - replace (MU_EARTH / (n * n) / MU_EARTH) with (/ n * / n) by (field; lra).
    apply sqrt_square. left. now apply Rinv_0_lt_compat.
Qed.

(** The steps of [tle_to_kepler6] that lead to the semi-major axis. *)
Lemma tle_to_kepler6_axis line1 line2 k :
  tle_to_kepler6 line1 line2 = Ok k ->
  exists n, py_float (slice 52 63 line2) = Ok n
            /\ semi_major_axis n = Ok (a_km k).
Proof.
  unfold tle_to_kepler6. intros H.
  destruct (py_int _) as [yy|]; [|discriminate]. cbn [bind] in H.
  destruct (py_float (skipn 2 _)) as [doy|]; [|discriminate]. cbn [bind] in H.
  destruct (epoch_timestamp _ _) as [ts|]; [|discriminate]. cbn [bind] in H.
  destruct (py_float (slice 8 16 line2)) as [i|]; [|discriminate]. cbn [bind] in H.
  destruct (py_float (slice 17 25 line2)) as [raan|]; [|discriminate]. cbn [bind] in H.
  destruct (py_float (_ ++ _)) as [e|]; [|discriminate]. cbn [bind] in H.
  destruct (py_float (slice 34 42 line2)) as [argp|]; [|discriminate]. cbn [bind] in H.
  destruct (py_float (slice 43 51 line2)) as [M0|]; [|discriminate]. cbn [bind] in H.
  destruct (py_float (slice 52 63 line2)) as [n|]; [|discriminate]. cbn [bind] in H.
  destruct (semi_major_axis n) as [a|] eqn:Ha; [|discriminate]. cbn [bind] in H.
  inversion H; subst. exists n. split; [reflexivity|exact Ha].
Qed.

Lemma tle_to_kepler6_ecc line1 line2 k :
  tle_to_kepler6 line1 line2 = Ok k ->
  py_float (eccentricity_field line2) = Ok (ecc k).
Proof.
  unfold tle_to_kepler6, eccentricity_field. intros H.
  destruct (py_int _) as [yy|]; [|discriminate]. cbn [bind] in H.
  destruct (py_float (skipn 2 _)) as [doy|]; [|discriminate]. cbn [bind] in H.
  destruct (epoch_timestamp _ _) as [ts|]; [|discriminate]. cbn [bind] in H.
  destruct (py_float (slice 8 16 line2)) as [i|]; [|discriminate]. cbn [bind] in H.
  destruct (py_float (slice 17 25 line2)) as [raan|]; [|discriminate]. cbn [bind] in H.
  destruct (py_float (_ ++ _)) as [e|]; [|discriminate]. cbn [bind] in H.
  destruct (py_float (slice 34 42 line2)) as [argp|]; [|discriminate]. cbn [bind] in H.
  destruct (py_float (slice 43 51 line2)) as [M0|]; [|discriminate]. cbn [bind] in H.
  destruct (py_float (slice 52 63 line2)) as [n|]; [|discriminate]. cbn [bind] in H.
  destruct (semi_major_axis n) as [a|]; [|discriminate]. cbn [bind] in H.
  inversion H; subst. reflexivity.
Qed.

End TleElements.

(** When [tle_to_kepler6] returns and the mean motion field holds a positive
    number [n] (revolutions per day), the semi-major axis it returns is a
    positive real whose mean motion in [propagate_orbit],
    [sqrt(MU_EARTH / a^3)], is [2 pi n / 86400] rad/s, and whose period in
    [_prepare_propagation], [2 pi sqrt(a^3 / 398600.4418)], is [86400 / n]
    seconds. *)
Theorem tle_to_kepler6_axis_gives_back_mean_motion
  (line1 line2 : PyStr.text) (k : Tle.kepler6) (n : R) :
  Tle.tle_to_kepler6 line1 line2 = Ok k ->
  py_float (PyStr.slice 52 63 line2) = Ok (Finite n) ->
  0 < n ->
  exists a,
    Tle.a_km k = Float (Finite a)
    /\ 0 < a
    /\ sqrt (MU_EARTH / a ^ 3) = 2 * PI * n / 86400
    /\ 2 * PI * sqrt (a ^ 3 / 398600.4418) = 86400 / n.
Proof.
  intros Hk Hn Hpos.
  destruct (tle_to_kepler6_axis line1 line2 k Hk) as [n' [Hn' Ha]].
  rewrite Hn in Hn'. inversion Hn'; subst n'.
  destruct (semi_major_axis_cube n Hpos) as [Hax [Ha0 Hcube]].
  rewrite Hax in Ha. inversion Ha as [Hak].
  eexists. split; [reflexivity|]. split; [exact Ha0|].
  assert (Hr : 0 < 2 * PI * n / 86400).
  { apply Rdiv_lt_0_compat; [|lra].
    apply Rmult_lt_0_compat; [|exact Hpos]. pose proof PI_RGT_0. lra. }
  destruct (mean_motion_of_axis _ _ Hr Ha0 Hcube) as [H1 H2].
  split; [exact H1|]. rewrite H2. pose proof PI_RGT_0. field. lra.
Qed.

Section IssLines.
Import PyStr Tle.

Lemma iss_lines_parse :
  exists a ts,
    tle_to_kepler6 iss_line1 Iss.iss_line2
    = Ok (mkKepler6 (Float (Finite a)) (Finite 0.0003499) (Finite 51.6356)
            (Finite 4.7550) (Finite 229.5075) (Finite 130.5609) ts).
Proof.
  apply (tle_to_kepler6_fields iss_line1 Iss.iss_line2 229.18034946 _ _ _ _ _
           15.49975761).
  - reflexivity.
  - change (py_float (skipn 2 (epoch_field iss_line1)))
      with (Ok (literal_value (LitDec false 22918034946 (-8)))).
    f_equal. apply literal_decimal. simpl. lra.
  - lra.
  - change (py_float (slice 8 16 Iss.iss_line2))
      with (Ok (literal_value (LitDec false 516356 (-4)))).
    f_equal. apply literal_decimal. simpl. lra.
  - change (py_float (slice 17 25 Iss.iss_line2))
      with (Ok (literal_value (LitDec false 47550 (-4)))).
    f_equal. apply literal_decimal. simpl. lra.
  - change (py_float (eccentricity_field Iss.iss_line2))
      with (Ok (literal_value (LitDec false 3499 (-7)))).
    f_equal. apply literal_decimal. simpl. lra.
  - change (py_float (slice 34 42 Iss.iss_line2))
      with (Ok (literal_value (LitDec false 2295075 (-4)))).
    f_equal. apply literal_decimal. simpl. lra.
  - change (py_float (slice 43 51 Iss.iss_line2))
      with (Ok (literal_value (LitDec false 1305609 (-4)))).
    f_equal. apply literal_decimal. simpl. lra.
  - change (py_float (slice 52 63 Iss.iss_line2))
      with (Ok (literal_value (LitDec false 1549975761 (-8)))).
    f_equal. apply literal_decimal. simpl. lra.
  - lra.
Qed.

Lemma iss_mean_motion :
  py_float (slice 52 63 Iss.iss_line2) = Ok (Finite 15.49975761).
Proof.
  change (py_float (slice 52 63 Iss.iss_line2))
    with (Ok (literal_value (LitDec false 1549975761 (-8)))).
  f_equal. apply literal_decimal. simpl. lra.
Qed.

End IssLines.

Lemma tle_to_kepler6_axis_gives_back_mean_motion_witness :
  exists k,
    Tle.tle_to_kepler6 Tle.iss_line1 Iss.iss_line2 = Ok k
    /\ py_float (PyStr.slice 52 63 Iss.iss_line2) = Ok (Finite 15.49975761)
    /\ 0 < 15.49975761
    /\ exists a,
         Tle.a_km k = Float (Finite a)
         /\ 0 < a
         /\ sqrt (MU_EARTH / a ^ 3) = 2 * PI * 15.49975761 / 86400
         /\ 2 * PI * sqrt (a ^ 3 / 398600.4418) = 86400 / 15.49975761.
Proof.
  destruct iss_lines_parse as [a [ts Hk]].
  assert (Hpos : 0 < 15.49975761) by lra.
  eexists. split; [exact Hk|]. split; [exact iss_mean_motion|]. split; [exact Hpos|].
  exact (tle_to_kepler6_axis_gives_back_mean_motion _ _ _ _ Hk iss_mean_motion Hpos).
Defined.

(** ** The eccentricity of a field of digits *)

Section DigitFields.
Import PyStr Tle.
Local Open Scope nat_scope.

Lemma digit_not_space c : is_digit c = true -> is_space c = false.
Proof.
  unfold is_digit, is_space. intros H.
  apply andb_true_iff in H as [H1 H2].
  apply Nat.leb_le in H1. apply Nat.leb_le in H2.
  repeat (apply orb_false_iff; split);
    try (apply andb_false_iff);
    try (apply Nat.eqb_neq; lia).
  - right. apply Nat.leb_gt. lia.
  - right. apply Nat.leb_gt. lia.
Qed.

Lemma digit_not_underscore c : is_digit c = true -> is_underscore c = false.
Proof.
  unfold is_digit, is_underscore. intros H.
  destruct (Ascii.eqb c "_"%char) eqn:E; [|reflexivity].
  apply Ascii.eqb_eq in E. subst c. discriminate.
Qed.

Lemma digit_value_small c : is_digit c = true -> (digit_value c <= 9)%N.
Proof.
  unfold is_digit, digit_value. intros H.
  apply andb_true_iff in H as [H1 H2].
  apply Nat.leb_le in H1. apply Nat.leb_le in H2. lia.
Qed.

Lemma lstrip_id s :
  (forall c, hd_error s = Some c -> is_space c = false) -> lstrip s = s.
Proof.
  destruct s as [|c s]; [reflexivity|]. intros H. cbn [lstrip].
  now rewrite (H c eq_refl).
Qed.

Lemma strip_id s : (forall c, In c s -> is_space c = false) -> strip s = s.
Proof.
  intros H. unfold strip.
  rewrite (lstrip_id s).
  2:{ intros c Hc. apply H. destruct s; inversion Hc; subst. now left. }
  rewrite (lstrip_id (rev s)).
  2:{ intros c Hc. apply H. apply in_rev. destruct (rev s); inversion Hc; subst. now left. }
  apply rev_involutive.
Qed.

Lemma drop_underscores_id s b :
  (forall c, In c s -> is_underscore c = false) -> drop_underscores b s = Some s.
Proof.
  revert b; induction s as [|c s IH]; intros b H; [reflexivity|].
  cbn [drop_underscores]. rewrite (H c (or_introl eq_refl)).
  rewrite IH; [reflexivity|]. intros d Hd. apply H. now right.
Qed.

(** A run of digits is read to its end, as a number below [10^length]. *)
Lemma digits_all ds :
  forallb is_digit ds = true ->
  forall acc len,
    exists v, digits acc len ds = (v, len + length ds, [])
              /\ (Z.of_N acc * 10 ^ Z.of_nat (length ds) <= Z.of_N v
                  < (Z.of_N acc + 1) * 10 ^ Z.of_nat (length ds))%Z.
Proof.
  induction ds as [|c ds IH]; intros Hall acc len.
  - exists acc. cbn [digits length]. split; [f_equal; f_equal; lia|].
    change (Z.of_nat 0) with 0%Z. rewrite Z.pow_0_r. lia.
  - cbn [forallb] in Hall. apply andb_true_iff in Hall as [Hc Hds].
    cbn [digits]. rewrite Hc.
    destruct (IH Hds (10 * acc + digit_value c)%N (S len)) as [v [Hv Hb]].
    exists v. split.
    + rewrite Hv. f_equal. f_equal. cbn [length]. lia.
    + pose proof (digit_value_small c Hc) as Hd.
      cbn [length]. rewrite Nat2Z.inj_succ, Z.pow_succ_r by lia.
      assert (Hp : (0 < 10 ^ Z.of_nat (length ds))%Z) by (apply Z.pow_pos_nonneg; lia).
      set (p := (10 ^ Z.of_nat (length ds))%Z) in *.
      rewrite N2Z.inj_add, N2Z.inj_mul in Hb. change (Z.of_N 10) with 10%Z in Hb.
      assert (Hd' : (0 <= Z.of_N (digit_value c) <= 9)%Z) by lia.
      nia.
Qed.

Lemma in_digit_field ds c :
  forallb is_digit ds = true ->
  In c (list_ascii_of_string "0." ++ ds) ->
  is_space c = false /\ is_underscore c = false.
Proof.
  intros Hall Hc. cbn [list_ascii_of_string app] in Hc.
  destruct Hc as [<-|[<-|Hc]]; [split; reflexivity|split; reflexivity|].
  rewrite forallb_forall in Hall. specialize (Hall c Hc).
  split; [now apply digit_not_space|now apply digit_not_underscore].
Qed.

Lemma powerRZ_neg_nat n : powerRZ 10 (0 - Z.of_nat n) = / 10 ^ n.
Proof.
  replace (0 - Z.of_nat n)%Z with (- Z.of_nat n)%Z by lia.
  rewrite powerRZ_neg', <- pow_powerRZ. reflexivity.
Qed.

(** [float("0." + digits)] is the number the digits spell, divided by
    [10^length]. *)
Lemma float_of_digit_field ds :
  forallb is_digit ds = true ->
  exists v,
    py_float (list_ascii_of_string "0." ++ ds)
    = Ok (Finite (IZR v / 10 ^ length ds))
    /\ (0 <= v < 10 ^ Z.of_nat (length ds))%Z
    /\ v = Z.of_N (fst (fst (digits 0 0 ds))).
Proof.
  intros Hall. unfold py_float, float_syntax.
  rewrite strip_id by (intros c Hc; now apply (in_digit_field ds c Hall)).
  rewrite drop_underscores_id by (intros c Hc; now apply (in_digit_field ds c Hall)).
  cbn [list_ascii_of_string app sign map].
  change (lower "0"%char) with "0"%char.
  unfold text_eqb. cbn [string_of_list_ascii list_ascii_of_string String.eqb Ascii.eqb].
  cbn [Bool.eqb orb andb].
  unfold decimal. cbn [digits].
  change (is_digit "0"%char) with true. change (is_digit "."%char) with false.
  cbv iota.
  destruct (digits_all ds Hall 0%N 0) as [v [Hv Hb]].
  change (10 * 0 + digit_value "0")%N with 0%N.
  rewrite Hv. cbn [Nat.add Nat.eqb exponent_part].
  exists (Z.of_N v). split; [|split].
  - unfold literal_value. rewrite powerRZ_neg_nat. reflexivity.
  - change (Z.of_N 0) with 0%Z in Hb. lia.
  - reflexivity.
Qed.

End DigitFields.

(** When [tle_to_kepler6] returns and the eccentricity columns (27 to 33 of
    line 2) hold digits only, the eccentricity it returns is the number the
    digits spell divided by [10^length]: at least 0 and below 1. *)
Theorem tle_to_kepler6_digit_eccentricity
  (line1 line2 : PyStr.text) (k : Tle.kepler6) :
  Tle.tle_to_kepler6 line1 line2 = Ok k ->
  forallb PyStr.is_digit (PyStr.slice 26 33 line2) = true ->
  exists e,
    Tle.ecc k = Finite e
    /\ 0 <= e < 1
    /\ e = IZR (Z.of_N (fst (fst (PyStr.digits 0 0 (PyStr.slice 26 33 line2)))))
           / 10 ^ length (PyStr.slice 26 33 line2).
Proof.
  intros Hk Hd.
  pose proof (tle_to_kepler6_ecc line1 line2 k Hk) as He.
  unfold Tle.eccentricity_field in He.
  rewrite strip_id in He.
  2:{ intros c Hc. apply digit_not_space.
      rewrite forallb_forall in Hd. now apply Hd. }
  destruct (float_of_digit_field _ Hd) as [v [Hv [Hb Hval]]].
  rewrite Hv in He. inversion He as [He'].
  eexists. split; [reflexivity|].
  set (n := length (PyStr.slice 26 33 line2)) in *.
  assert (Hp : 0 < 10 ^ n) by (apply pow_lt; lra).
  assert (Hpz : IZR (10 ^ Z.of_nat n) = 10 ^ n).
  { rewrite <- pow_IZR. reflexivity. }
  split.
  - destruct Hb as [Hb0 Hb1]. apply IZR_le in Hb0. apply IZR_lt in Hb1.
    rewrite Hpz in Hb1. split.
    + apply Rmult_le_pos; [exact Hb0|]. left. now apply Rinv_0_lt_compat.
    + apply (Rmult_lt_reg_r (10 ^ n)); [exact Hp|].
      unfold Rdiv. rewrite Rmult_assoc, Rinv_l by lra. lra.
  - now rewrite Hval.
Qed.

Lemma tle_to_kepler6_digit_eccentricity_witness :
  exists k,
    Tle.tle_to_kepler6 Tle.iss_line1 Iss.iss_line2 = Ok k
    /\ forallb PyStr.is_digit (PyStr.slice 26 33 Iss.iss_line2) = true
    /\ exists e,
         Tle.ecc k = Finite e
         /\ 0 <= e < 1
         /\ e = IZR (Z.of_N (fst (fst (PyStr.digits 0 0 (PyStr.slice 26 33 Iss.iss_line2)))))
                / 10 ^ length (PyStr.slice 26 33 Iss.iss_line2).
Proof.
  destruct iss_lines_parse as [a [ts Hk]].
  assert (Hd : forallb PyStr.is_digit (PyStr.slice 26 33 Iss.iss_line2) = true)
    by reflexivity.
  eexists. split; [exact Hk|]. split; [exact Hd|].
  exact (tle_to_kepler6_digit_eccentricity _ _ _ Hk Hd).
Defined.

(** ** The propagation request: how it ends *)

Section RequestOutcome.
Import OrbMath Plot Live.

Lemma sample_times_linspace T q :
  sample_times T (animation q) (revolves q) (sample_points_per_orbit q)
  = linspace 0 (T * effective_revolves q) (sample_count q).
Proof.
  unfold sample_times, sample_count, effective_revolves.
  destruct (animation q), (revolves q); reflexivity.
Qed.

Lemma linspace_raises start stop num :
  (num < 0)%Z -> linspace start stop num = Raise ValueError.
Proof.
  intros H. unfold linspace.
  destruct (num <? 0)%Z eqn:E; [reflexivity|]. apply Z.ltb_ge in E. lia.
Qed.

Lemma math_sqrt_axis a :
  (a < 0 -> math_sqrt (a ^ 3 / 398600.4418) = Raise ValueError)
  /\ (0 <= a -> math_sqrt (a ^ 3 / 398600.4418) = Ok (sqrt (a ^ 3 / 398600.4418))).
Proof.
  unfold math_sqrt. split; intros Ha.
  - assert (H : a ^ 3 / 398600.4418 < 0).
    { assert (0 < (- a) ^ 3) by (apply pow_lt; lra).
      replace (a ^ 3) with (- (- a) ^ 3) by ring. lra. }
    destruct (Rlt_dec (a ^ 3 / 398600.4418) 0); [reflexivity|contradiction].
  - assert (H : 0 <= a ^ 3 / 398600.4418).
    { assert (0 <= a ^ 3) by (apply pow_le; exact Ha). lra. }
    destruct (Rlt_dec (a ^ 3 / 398600.4418) 0); [lra|reflexivity].
Qed.

Lemma propagate_orbit_wrong_length el times t0 :
  length el <> 6%nat -> propagate_orbit el times t0 = Raise ValueError.
Proof.
  intros H. unfold propagate_orbit.
  destruct el as [|a [|e [|i [|raan [|argp [|M0 [|x rest]]]]]]]; try reflexivity.
  exfalso. now apply H.
Qed.

Lemma drop_timer (o : OrbitPlot) calls :
  (if animation_timer o
   then set_self (fun o => mkOrbitPlot (elems o) false (_cached_times o)
                             (_cached_r_eci o) (_cached_r_ecef o) (_epoch o))
   else ret tt) (mkWorld o calls)
  = (Ok tt, mkWorld (without_timer o) calls).
Proof.
  destruct o as [el t ct ce cf ep]. cbn [animation_timer].
  destruct t; reflexivity.
Qed.

(** How a request ends, by cases on the element list and the sample count. *)
Lemma serve_outcome (w : world) (q : request) :
  let el := elems (self w) in
  let a := nth 0 el 0 in
  let w0 := mkWorld (without_timer (self w)) (propagations w) in
  (el = [] /\ serve q w = (Raise IndexError, w))
  \/ (el <> [] /\ a < 0 /\ serve q w = (Raise ValueError, w))
  \/ (el <> [] /\ 0 <= a /\ (sample_count q < 0)%Z /\ serve q w = (Raise ValueError, w0))
  \/ (el <> [] /\ 0 <= a /\ (0 <= sample_count q)%Z /\ length el <> 6%nat
      /\ exists times,
           serve q w = (Raise ValueError,
                        mkWorld (without_timer (self w)) ((el, times) :: propagations w)))
  \/ (a = 0 /\ (0 <= sample_count q)%Z /\ length el = 6%nat
      /\ exists times,
           serve q w = (Raise ZeroDivisionError,
                        mkWorld (without_timer (self w)) ((el, times) :: propagations w)))
  \/ (0 < a /\ (0 <= sample_count q)%Z /\ length el = 6%nat
      /\ exists times r_eci r_ecef,
           let T := 2 * PI * sqrt (a ^ 3 / 398600.4418) in
           linspace 0 (T * effective_revolves q) (sample_count q) = Ok times
           /\ propagate_orbit el times 0 = Ok r_eci
           /\ eci_to_ecef (Batch r_eci) times 0.0 = Ok r_ecef
           /\ serve q w
              = (Ok (times, r_eci, r_ecef, T),
                 mkWorld (mkOrbitPlot el false (Some times) (Some r_eci) (Some r_ecef)
                            (_epoch (self w)))
                   ((el, times) :: propagations w))).
Proof.
  intros el a w0.
  destruct w as [o calls]. cbn [self propagations] in *.
  remember (serve q (mkWorld o calls)) as out eqn:Hout.
  unfold serve, _prepare_propagation in Hout.
  unfold mbind at 1 in Hout. unfold get_self at 1 in Hout. cbn [self] in Hout.
  unfold mbind at 1 in Hout. unfold lift at 1 in Hout. fold el in Hout.
  destruct el as [|a0 rest] eqn:Hel.
  { left. split; [reflexivity|exact Hout]. }
  right. assert (Hne : a0 :: rest <> []) by discriminate.
  assert (Ha : a = a0) by (unfold a; reflexivity).
  destruct (math_sqrt_axis a0) as [Hneg Hpos].
  unfold mbind at 1 in Hout. unfold lift at 1 in Hout.
  destruct (Rlt_dec a0 0) as [Hlt|Hge].
  { left. split; [exact Hne|]. split; [lra|].
    rewrite (Hneg Hlt) in Hout. exact Hout. }
  right. assert (Ha0 : 0 <= a0) by lra. specialize (Hpos Ha0).
  rewrite Hpos in Hout. cbv zeta in Hout.
  unfold mbind at 1 in Hout. rewrite (drop_timer o calls) in Hout.
  unfold mbind at 1 in Hout. unfold lift at 1 in Hout.
  rewrite sample_times_linspace in Hout.
  destruct (Z_lt_le_dec (sample_count q) 0) as [HN|HN].
  { left. split; [exact Hne|]. split; [lra|]. split; [exact HN|].
    rewrite linspace_raises in Hout by exact HN. exact Hout. }
  right.
  destruct (linspace_ok 0 (2 * PI * sqrt (a0 ^ 3 / 398600.4418) * effective_revolves q)
              (sample_count q) HN) as [times [Htimes Hlen]].
  rewrite Htimes in Hout.
  unfold mbind at 1 in Hout. unfold get_self at 1 in Hout. cbn [self] in Hout.
  unfold mbind at 1 in Hout. unfold call_propagate_orbit at 1 in Hout.
  cbn [self propagations elems without_timer] in Hout.
  fold el in Hout. rewrite Hel in Hout.
  destruct (Nat.eq_dec (length (a0 :: rest)) 6) as [H6|H6].
  2:{ left. split; [exact Hne|]. split; [lra|]. split; [exact HN|]. split; [exact H6|].
      exists times. rewrite propagate_orbit_wrong_length in Hout by exact H6. exact Hout. }
  right.
  destruct rest as [|e [|i [|raan [|argp [|M0 [|x rest]]]]]]; try discriminate.
  destruct (Req_dec a0 0) as [Hz|Hnz].
  { left. split; [lra|]. split; [exact HN|]. split; [reflexivity|].
    exists times.
    assert (Hp : propagate_orbit [a0; e; i; raan; argp; M0] times 0 = Raise ZeroDivisionError)
      by (rewrite Hz; apply propagate_orbit_zero_axis).
    rewrite Hp in Hout. exact Hout. }
  right. split; [lra|]. split; [exact HN|]. split; [reflexivity|].
  destruct (propagate_orbit_ok a0 e i raan argp M0 times 0 Hnz) as [r_eci [Hprop Hrlen]].
  rewrite Hprop in Hout.
  destruct (eci_to_ecef_rows (Batch r_eci) times 0.0) as [r_ecef [Hecef _]].
  { right. cbn [rows_of]. lia. }
  unfold mbind at 1 in Hout. unfold lift at 1 in Hout. rewrite Hecef in Hout.
  cbv [mbind set_self ret] in Hout.
  cbn [self propagations elems animation_timer _epoch without_timer] in Hout.
  change (elems o) with el in Hout. rewrite Hel in Hout.
  exists times, r_eci, r_ecef. cbv zeta. rewrite Ha.
  split; [exact Htimes|]. split; [exact Hprop|]. split; [exact Hecef|]. exact Hout.
Qed.

End RequestOutcome.



(** A request that fails leaves the stored samples, the elements and the
    epoch as they were: the samples are replaced only at the end of a request
    that succeeds. *)
Theorem failed_request_keeps_stored_samples
  (w w' : Plot.world) (q : Plot.request) (ex : exn) :
  Plot.serve q w = (Raise ex, w') ->
  Plot._cached_times (Plot.self w') = Plot._cached_times (Plot.self w)
  /\ Plot._cached_r_eci (Plot.self w') = Plot._cached_r_eci (Plot.self w)
  /\ Plot._cached_r_ecef (Plot.self w') = Plot._cached_r_ecef (Plot.self w)
  /\ Plot.elems (Plot.self w') = Plot.elems (Plot.self w)
  /\ Plot._epoch (Plot.self w') = Plot._epoch (Plot.self w).
Proof.
  intros Hs.
  destruct (serve_outcome w q)
    as [[H1 H]|[[H1 [H2 H]]|[[H1 [H2 [H3 H]]]|[[H1 [H2 [H3 [H4 [ts H]]]]]
        |[[H1 [H2 [H3 [ts H]]]]|[H1 [H2 [H3 [ts [re [rf [_ [_ [_ H]]]]]]]]]]]]]];
    rewrite H in Hs; inversion Hs; subst; cbn [Plot.self Live.without_timer
      Plot._cached_times Plot._cached_r_eci Plot._cached_r_ecef Plot.elems Plot._epoch];
    repeat split; reflexivity.
Qed.

Section SevenElements.
Import Plot.

(** The element list of [examples/2d.py]: seven entries, the epoch last. *)
Lemma seven_elements_raise (o : OrbitPlot) calls q :
  elems o = [42164.0; 0.0001; 0.0; 0.0; 0.0; 45.0; 0.0] ->
  exists w', serve q (mkWorld o calls) = (Raise ValueError, w').
Proof.
  intros Hel.
  destruct (serve_outcome (mkWorld o calls) q)
    as [[H1 H]|[[H1 [H2 H]]|[[H1 [H2 [H3 H]]]|[[H1 [H2 [H3 [H4 [ts H]]]]]
        |[[H1 [H2 [H3 [ts H]]]]|[H1 [H2 [H3 [ts [re [rf [_ [_ [_ H]]]]]]]]]]]]]];
    cbn [self] in *; rewrite Hel in *; cbn [nth length] in *;
    try discriminate; try lra; try (eexists; exact H).
Qed.

End SevenElements.

Lemma failed_request_keeps_stored_samples_witness :
  exists w',
    Plot.serve Plot.request0
      (Plot.mkWorld
         (Plot.mkOrbitPlot [42164.0; 0.0001; 0.0; 0.0; 0.0; 45.0; 0.0] true
            (Some [0; 1]) None None 0.0) [])
    = (Raise ValueError, w')
    /\ Plot._cached_times (Plot.self w') = Some [0; 1]
    /\ Plot._cached_r_eci (Plot.self w') = None
    /\ Plot._cached_r_ecef (Plot.self w') = None
    /\ Plot.elems (Plot.self w') = [42164.0; 0.0001; 0.0; 0.0; 0.0; 45.0; 0.0]
    /\ Plot._epoch (Plot.self w') = 0.0.
Proof.
  destruct (seven_elements_raise
              (Plot.mkOrbitPlot [42164.0; 0.0001; 0.0; 0.0; 0.0; 45.0; 0.0] true
                 (Some [0; 1]) None None 0.0) [] Plot.request0 eq_refl) as [w' H].
  exists w'. split; [exact H|].
  exact (failed_request_keeps_stored_samples _ _ _ _ H).
Defined.

Section SampleTimes.
Import OrbMath Plot.

(** [np.linspace(0, stop, num)] for [num >= 2] and [stop >= 0]: from 0 to
    [stop], inside the interval. *)
Lemma linspace_from_zero stop num ts :
  linspace 0 stop num = Ok ts -> (2 <= num)%Z -> 0 <= stop ->
  length ts = Z.to_nat num
  /\ hd 0 ts = 0 /\ last ts 0 = stop
  /\ Forall (fun t => 0 <= t <= stop) ts.
Proof.
  unfold linspace. intros H Hnum Hstop.
  destruct (num <? 0)%Z eqn:E; [discriminate|]. inversion H as [Hts]. clear H.
  set (n := Z.to_nat num).
  assert (Hn : (2 <= n)%nat) by (unfold n; lia).
  assert (Hd : IZR (num - 1) = INR (n - 1)).
  { rewrite INR_IZR_INZ. f_equal. unfold n. lia. }
  assert (Hpos : 0 < INR (n - 1)) by (apply lt_0_INR; lia).
  rewrite Hd. set (f := fun k : nat => 0 + INR k * ((stop - 0) / INR (n - 1))).
  split; [now rewrite length_map, length_seq|].
  split; [|split].
  - destruct n as [|n']; [lia|]. cbn [seq map hd]. unfold f. simpl INR. ring.
  - replace n with (S (n - 1)) at 1 by lia. rewrite seq_S, map_app. cbn [map]. rewrite last_last.
    cbn [Nat.add]. unfold f. field. lra.
  - apply Forall_forall. intros t Ht. apply in_map_iff in Ht as [k [<- Hk]].
    apply in_seq in Hk. unfold f.
    assert (H0 : 0 <= INR k) by apply pos_INR.
    assert (H1 : INR k <= INR (n - 1)) by (apply le_INR; lia).
    assert (H2 : 0 <= (stop - 0) / INR (n - 1)).
    { apply Rmult_le_pos; [lra|]. left. now apply Rinv_0_lt_compat. }
    assert (H3 : INR k * ((stop - 0) / INR (n - 1))
                 <= INR (n - 1) * ((stop - 0) / INR (n - 1)))
      by (apply Rmult_le_compat_r; assumption).
    assert (H4 : INR (n - 1) * ((stop - 0) / INR (n - 1)) = stop) by (field; lra).
    split; [nra|lra].
Qed.

Lemma last_of_cons {A} (rest : list A) x d : last rest x = last (x :: rest) d.
Proof.
  revert x. induction rest as [|y rest IH]; intros x; [reflexivity|].
  cbn [last]. destruct rest as [|z rest']; [reflexivity|].
  specialize (IH y). cbn [last] in IH.
  transitivity (last (z :: rest') y); [|exact IH].
  clear. revert z. induction rest' as [|u r IHr]; intros z; [reflexivity|].
  cbn [last] in *. apply (IHr u).
Qed.

Lemma init_value el o :
  init el = Ok o ->
  el <> [] /\ o = mkOrbitPlot el false None None None (last el 0).
Proof.
  unfold init. destruct el as [|x rest]; [discriminate|].
  intros H. split; [discriminate|].
  inversion H as [Ho]. f_equal. apply last_of_cons.
Qed.

End SampleTimes.

(** An object on which a propagation request succeeds has six elements, and
    the epoch its constructor stored ([elems[-1]]) is then the mean anomaly
    [M0_deg]: [liveorbit] called without [epoch_time] takes the Greenwich
    sidereal time at [M0_deg] seconds after the Unix epoch, before and after
    the request. *)
Theorem usable_plot_takes_mean_anomaly_as_epoch
  (el : list R) (o : Plot.OrbitPlot) (calls : list (list R * list R))
  (q : Plot.request) (r : list R * list vec3 * positions * R) (w' : Plot.world) :
  Plot.init el = Ok o ->
  Plot.serve q (Plot.mkWorld o calls) = (Ok r, w') ->
  exists a e i_deg raan_deg argp_deg M0_deg,
    el = [a; e; i_deg; raan_deg; argp_deg; M0_deg]
    /\ Plot._epoch o = M0_deg
    /\ Live.gst0 o None = Gmst.gmst_rad M0_deg
    /\ Live.gst0 (Plot.self w') None = Gmst.gmst_rad M0_deg.
Proof.
  intros Hinit Hs.
  destruct (init_value el o Hinit) as [Hne Ho].
  destruct (serve_outcome (Plot.mkWorld o calls) q)
    as [[H1 H]|[[H1 [H2 H]]|[[H1 [H2 [H3 H]]]|[[H1 [H2 [H3 [H4 [ts H]]]]]
        |[[H1 [H2 [H3 [ts H]]]]|[H1 [H2 [H3 [ts [re [rf [_ [_ [_ H]]]]]]]]]]]]]];
    rewrite H in Hs; try discriminate.
  inversion Hs as [[Hr Hw]]. clear Hs H.
  cbn [Plot.self] in *. rewrite Ho in *. cbn [Plot.elems Plot._epoch] in *.
  destruct el as [|a [|e [|i [|raan [|argp [|M0 [|x rest]]]]]]]; try discriminate.
  exists a, e, i, raan, argp, M0.
  split; [reflexivity|]. split; [reflexivity|]. split; reflexivity.
Qed.

Lemma usable_plot_takes_mean_anomaly_as_epoch_witness :
  exists r w',
    Plot.init [7000; 0; 0; 0; 0; 30] = Ok (Plot.mkOrbitPlot [7000; 0; 0; 0; 0; 30]
                                             false None None None 30)
    /\ Plot.serve Plot.request0
         (Plot.mkWorld (Plot.mkOrbitPlot [7000; 0; 0; 0; 0; 30] false None None None 30) [])
       = (Ok r, w')
    /\ exists a e i_deg raan_deg argp_deg M0_deg,
         [7000; 0; 0; 0; 0; 30] = [a; e; i_deg; raan_deg; argp_deg; M0_deg]
         /\ Plot._epoch (Plot.mkOrbitPlot [7000; 0; 0; 0; 0; 30] false None None None 30)
            = M0_deg
         /\ Live.gst0 (Plot.mkOrbitPlot [7000; 0; 0; 0; 0; 30] false None None None 30) None
            = Gmst.gmst_rad M0_deg
         /\ Live.gst0 (Plot.self w') None = Gmst.gmst_rad M0_deg.
Proof.
  assert (Hinit : Plot.init [7000; 0; 0; 0; 0; 30]
                  = Ok (Plot.mkOrbitPlot [7000; 0; 0; 0; 0; 30] false None None None 30))
    by reflexivity.
  destruct (serve_recomputes
              (Plot.mkWorld (Plot.mkOrbitPlot [7000; 0; 0; 0; 0; 30] false None None None 30) [])
              Plot.request0 7000 0 0 0 0 30 eq_refl)
    as (times & r_eci & r_ecef & T & w' & Hs & _);
    [lra|simpl; lra|unfold Plot.effective_revolves; simpl; lra|].
  exists (times, r_eci, r_ecef, T), w'.
  split; [exact Hinit|]. split; [exact Hs|].
  exact (usable_plot_takes_mean_anomaly_as_epoch _ _ _ _ _ _ Hinit Hs).
Defined.

(** A static request ([animation=False] with [revolves] given and not
    negative) that succeeds returns at least 300 sample times; they start at
    0, end at [T * revolves] and stay in between, [T] being the orbital period
    it returns. *)
Theorem static_request_sample_times
  (w w' : Plot.world) (q : Plot.request) (rev : R)
  (times : list R) (r_eci : list vec3) (r_ecef : positions) (T : R) :
  Plot.serve q w = (Ok (times, r_eci, r_ecef, T), w') ->
  Plot.animation q = false ->
  Plot.revolves q = Some rev ->
  0 <= rev ->
  (300 <= length times)%nat
  /\ T = 2 * PI * sqrt (nth 0 (Plot.elems (Plot.self w)) 0 ^ 3 / 398600.4418)
  /\ hd 0 times = 0
  /\ last times 0 = T * rev
  /\ Forall (fun t => 0 <= t <= T * rev) times.
Proof.
  intros Hs Han Hrev Hpos.
  destruct (serve_outcome w q)
    as [[H1 H]|[[H1 [H2 H]]|[[H1 [H2 [H3 H]]]|[[H1 [H2 [H3 [H4 [ts H]]]]]
        |[[H1 [H2 [H3 [ts H]]]]|[H1 [H2 [H3 [ts [re [rf [Hlin [_ [_ H]]]]]]]]]]]]]];
    rewrite H in Hs; try discriminate.
  inversion Hs as [[Hts Hre Hrf HT Hw]]. clear Hs H. subst ts.
  set (T0 := 2 * PI * sqrt (nth 0 (Plot.elems (Plot.self w)) 0 ^ 3 / 398600.4418)) in *.
  assert (HT0 : 0 <= T0).
  { unfold T0. pose proof PI_RGT_0.
    pose proof (sqrt_pos (nth 0 (Plot.elems (Plot.self w)) 0 ^ 3 / 398600.4418)). nra. }
  assert (Heff : Plot.effective_revolves q = rev)
    by (unfold Plot.effective_revolves; now rewrite Hrev).
  assert (HN : (300 <= Plot.sample_count q)%Z).
  { unfold Plot.sample_count. rewrite Han, Hrev. lia. }
  rewrite Heff in Hlin.
  destruct (linspace_from_zero _ _ _ Hlin) as [Hlen [Hhd [Hlast Hall]]];
    [lia|nra|].
  split; [lia|]. split; [reflexivity|]. split; [exact Hhd|]. split; [exact Hlast|exact Hall].
Qed.

Lemma static_request_sample_times_witness :
  exists times r_eci r_ecef T w',
    Plot.serve (Plot.mkRequest false (Some 6) 2000) (Plot.mkWorld Plot.plot0 [])
    = (Ok (times, r_eci, r_ecef, T), w')
    /\ Plot.animation (Plot.mkRequest false (Some 6) 2000) = false
    /\ Plot.revolves (Plot.mkRequest false (Some 6) 2000) = Some 6
    /\ 0 <= 6
    /\ (300 <= length times)%nat
    /\ T = 2 * PI * sqrt (nth 0 (Plot.elems (Plot.self (Plot.mkWorld Plot.plot0 []))) 0 ^ 3
                          / 398600.4418)
    /\ hd 0 times = 0
    /\ last times 0 = T * 6
    /\ Forall (fun t => 0 <= t <= T * 6) times.
Proof.
  destruct (serve_recomputes (Plot.mkWorld Plot.plot0 [])
              (Plot.mkRequest false (Some 6) 2000) 7000 0 0 0 0 0 eq_refl)
    as (times & r_eci & r_ecef & T & w' & Hs & _);
    [lra|simpl; lra|unfold Plot.effective_revolves; simpl; lra|].
  assert (H6 : 0 <= 6) by lra.
  exists times, r_eci, r_ecef, T, w'.
  split; [exact Hs|]. split; [reflexivity|]. split; [reflexivity|]. split; [exact H6|].
  exact (static_request_sample_times _ _ _ _ _ _ _ _ Hs eq_refl eq_refl H6).
Defined.

(** ** The ground track: splitting at the date line *)

Section DateLine.
Import Track.

Lemma no_jump_snoc l x :
  l <> [] -> Rabs (x - last l 0) <= 180 -> no_jump l -> no_jump (l ++ [x]).
Proof.
  induction l as [|a l IH]; intros Hne Hx Hl; [contradiction|].
  destruct l as [|b l'].
  - cbn [app no_jump last] in *. split; [exact Hx|exact I].
  - cbn [app no_jump] in *. destruct Hl as [Hab Hl]. split; [exact Hab|].
    apply IH; [discriminate| |exact Hl].
    cbn [last] in Hx. exact Hx.
Qed.

Lemma skipn_nth_error {A} (l : list A) i y :
  nth_error l i = Some y -> skipn i l = y :: skipn (S i) l.
Proof.
  revert l; induction i as [|i IH]; intros [|a l] H; try discriminate.
  - inversion H. reflexivity.
  - cbn [nth_error] in H. cbn [skipn]. now apply IH.
Qed.

Lemma nth_error_below {A} (l : list A) i :
  (i < length l)%nat -> exists y, nth_error l i = Some y.
Proof.
  intros H. destruct (nth_error l i) as [y|] eqn:E; [now exists y|].
  apply nth_error_None in E. lia.
Qed.

(** The loop, when there is a latitude for every longitude left. *)
Lemma wrapped_loop_spec lat rest :
  forall prev i seg_lon seg_lat segments plot,
    (i + length rest <= length lat)%nat ->
    seg_lon <> [] -> last seg_lon 0 = prev -> length seg_lon = length seg_lat ->
    no_jump seg_lon ->
    exists first more tail,
      wrapped_loop lat prev rest i seg_lon seg_lat segments plot
      = (Ok (segments ++ first :: tail), plot ++ first :: tail)
      /\ fst first = seg_lon ++ more
      /\ concat (map fst (first :: tail)) = seg_lon ++ rest
      /\ concat (map snd (first :: tail))
         = seg_lat ++ firstn (length rest) (skipn i lat)
      /\ Forall unbroken (first :: tail)
      /\ jumps_between (first :: tail).
Proof.
  induction rest as [|x rest IH]; intros prev i seg_lon seg_lat segments plot
    Hlen Hne Hlast Hll Hnj.
  - exists (seg_lon, seg_lat), [], []. cbn [wrapped_loop map concat fst snd length firstn].
    rewrite !app_nil_r. repeat split; try reflexivity; try assumption.
    constructor; [|constructor]. repeat split; assumption.
  - cbn [length] in Hlen.
    destruct (nth_error_below lat i ltac:(lia)) as [y Hy].
    cbn [wrapped_loop]. rewrite Hy.
    destruct (Rlt_dec 180 (Rabs (x - prev))) as [Hjump|Hnear].
    + destruct (IH x (S i) [x] [y] (segments ++ [(seg_lon, seg_lat)])
                  (plot ++ [(seg_lon, seg_lat)]))
        as (first & more & tail & Heq & Hfst & Hlon & Hlat & Hall & Hj);
        [lia|discriminate|reflexivity|reflexivity|exact I|].
      exists (seg_lon, seg_lat), [], (first :: tail).
      rewrite Heq, <- !app_assoc. cbn [app].
      split; [reflexivity|]. split; [cbn [fst]; now rewrite app_nil_r|].
      split; [|split; [|split]].
      * cbn [map concat fst] in *. now rewrite Hlon.
      * cbn [map concat snd] in *. rewrite Hlat.
        rewrite (skipn_nth_error lat i y Hy). reflexivity.
      * constructor; [|exact Hall]. repeat split; assumption.
      * cbn [jumps_between fst]. split; [|exact Hj].
        rewrite Hfst, Hlast. cbn [app hd]. exact Hjump.
    + destruct (IH x (S i) (seg_lon ++ [x]) (seg_lat ++ [y]) segments plot)
        as (first & more & tail & Heq & Hfst & Hlon & Hlat & Hall & Hj).
      * lia.
      * intros H. now apply app_eq_nil in H as [_ H].
      * apply last_last.
      * rewrite !length_app. cbn [length]. lia.
      * apply no_jump_snoc; [exact Hne| |exact Hnj]. rewrite Hlast. lra.
      * exists first, (x :: more), tail.
        rewrite Heq. split; [reflexivity|].
        split; [rewrite Hfst, <- app_assoc; reflexivity|].
        split; [rewrite Hlon, <- app_assoc; reflexivity|].
        split; [|split; assumption].
        rewrite Hlat, <- app_assoc. cbn [app].
        rewrite (skipn_nth_error lat i y Hy). reflexivity.
Qed.

(** The loop, when the latitudes run out. *)
Lemma wrapped_loop_short lat rest :
  forall prev i seg_lon seg_lat segments plot,
    (length lat < i + length rest)%nat -> rest <> [] ->
    fst (wrapped_loop lat prev rest i seg_lon seg_lat segments plot) = Raise IndexError.
Proof.
  induction rest as [|x rest IH]; intros prev i seg_lon seg_lat segments plot Hlen Hne;
    [contradiction|].
  cbn [wrapped_loop length] in *.
  destruct (nth_error lat i) as [y|] eqn:Hy.
  - assert (Hi : (i < length lat)%nat) by (apply nth_error_Some; congruence).
    assert (Hr : rest <> []) by (intros ->; cbn [length] in Hlen; lia).
    destruct (Rlt_dec 180 (Rabs (x - prev))); apply IH; try assumption; lia.
  - destruct (Rlt_dec 180 (Rabs (x - prev))); reflexivity.
Qed.

End DateLine.

(** [add_wrapped_segments] draws nothing for fewer than two points.  For two
    points or more with a latitude for each, it adds to the plot and returns
    curves that, laid end to end, are the longitudes and latitudes it was
    given, in order; no curve is empty or has two neighbours more than 180
    degrees apart, and each curve ends more than 180 degrees from where the
    next starts.  With too few latitudes it raises IndexError. *)
Theorem add_wrapped_segments_splits_at_jumps
  (plot_widget : list Track.curve) (lon_arr lat_arr : list R) :
  ((length lon_arr < 2)%nat
   /\ Track.add_wrapped_segments plot_widget lon_arr lat_arr = (Ok [], plot_widget))
  \/ ((2 <= length lon_arr <= length lat_arr)%nat
      /\ exists segments,
           Track.add_wrapped_segments plot_widget lon_arr lat_arr
           = (Ok segments, plot_widget ++ segments)
           /\ concat (map fst segments) = lon_arr
           /\ concat (map snd segments) = firstn (length lon_arr) lat_arr
           /\ Forall Track.unbroken segments
           /\ Track.jumps_between segments)
  \/ ((2 <= length lon_arr /\ length lat_arr < length lon_arr)%nat
      /\ fst (Track.add_wrapped_segments plot_widget lon_arr lat_arr) = Raise IndexError).
Proof.
  destruct lon_arr as [|x0 [|x1 rest]].
  - left. split; [cbn; lia|reflexivity].
  - left. split; [cbn; lia|reflexivity].
  - right. destruct (le_lt_dec (length (x0 :: x1 :: rest)) (length lat_arr)) as [Hle|Hlt].
    + left. split; [cbn [length] in *; lia|].
      destruct lat_arr as [|y0 lat']; [cbn [length] in Hle; lia|].
      unfold Track.add_wrapped_segments.
      destruct (wrapped_loop_spec (y0 :: lat') (x1 :: rest) x0 1 [x0] [y0] [] plot_widget)
        as (first & more & tail & Heq & Hfst & Hlon & Hlat & Hall & Hj);
        [cbn [length] in *; lia|discriminate|reflexivity|reflexivity|exact I|].
      exists (first :: tail). rewrite Heq. cbn [app].
      split; [reflexivity|]. split; [exact Hlon|].
      split; [|split; assumption].
      rewrite Hlat. reflexivity.
    + right. split; [cbn [length] in *; lia|].
      unfold Track.add_wrapped_segments.
      destruct lat_arr as [|y0 lat']; [reflexivity|].
      apply wrapped_loop_short; [cbn [length] in *; lia|discriminate].
Qed.

Section LiveLongitude.
Import Track.

Lemma wrap_lon_range lon : -180 <= wrap_lon lon < 180.
Proof.
  unfold wrap_lon.
  pose proof (py_mod_range (lon + 180) 360 ltac:(lra)). lra.
Qed.

Lemma wrap_lon_inside lon : -180 <= lon < 180 -> wrap_lon lon = lon.
Proof.
  intros H. unfold wrap_lon. rewrite py_mod_small by lra. ring.
Qed.

Lemma wrap_lon_date_line : wrap_lon 180 = -180.
Proof.
  unfold wrap_lon, py_mod.
  replace ((180 + 180) / 360) with (IZR 1) by lra.
  rewrite ZfloorZ. lra.
Qed.

End LiveLongitude.

(** The longitudes [update_live] plots: [((lon + 180) % 360) - 180] leaves
    every longitude of [ecef_to_latlon] as it is, except 180 itself, which
    becomes -180; the result lies in [-180, 180). *)
Theorem live_longitudes_stay_except_on_the_date_line (r_ecef : positions) :
  Forall (fun lon =>
            -180 <= Track.wrap_lon lon < 180
            /\ (lon <> 180 -> Track.wrap_lon lon = lon)
            /\ (lon = 180 -> Track.wrap_lon lon = -180))
    (Track.longitudes (OrbMath.ecef_to_latlon r_ecef)).
Proof.
  assert (H : forall v, let lon := rad2deg (OrbMath.lon_of v) in
              -180 <= Track.wrap_lon lon < 180
              /\ (lon <> 180 -> Track.wrap_lon lon = lon)
              /\ (lon = 180 -> Track.wrap_lon lon = -180)).
  { intros v lon. pose proof (lon_range v) as Hr. fold lon in Hr.
    split; [apply wrap_lon_range|]. split.
    - intros Hne. apply wrap_lon_inside. lra.
    - intros ->. apply wrap_lon_date_line. }
  destruct r_ecef as [v|rows]; cbn [OrbMath.ecef_to_latlon Track.longitudes].
  - constructor; [apply H|constructor].
  - apply Forall_forall. intros lon Hlon. apply in_map_iff in Hlon as [v [<- _]]. apply H.
Qed.

(** ** The animation timer *)

Section Timer.
Import Plot Anim.

Lemma linspace_length start stop num ts :
  linspace start stop num = Ok ts -> length ts = Z.to_nat num.
Proof.
  unfold linspace. destruct (num <? 0)%Z; [discriminate|].
  intros H. inversion H. now rewrite length_map, length_seq.
Qed.

Lemma py_trunc_whole z : (0 <= z)%Z -> py_trunc (IZR z) = z.
Proof.
  intros Hz. unfold py_trunc.
  destruct (Rle_dec 0 (IZR z)) as [_|Hn]; [apply ZfloorZ|].
  exfalso. apply Hn. now apply (IZR_le 0).
Qed.

(** The number of samples of an animated view with a whole number of
    revolutions, or with none given. *)
Lemma animated_sample_count revolves :
  revolves = None \/ (exists k, (1 <= k)%Z /\ revolves = Some (IZR k)) ->
  exists k, (1 <= k)%Z
    /\ orbits_to_show revolves = IZR k
    /\ sample_count (view_request true revolves) = (2000 * k)%Z.
Proof.
  intros [->|[k [Hk ->]]].
  - exists 2%Z. split; [lia|]. split; [reflexivity|].
    unfold sample_count, view_request, effective_revolves;
      cbn [animation revolves sample_points_per_orbit].
    replace (2000 * 2.0) with (IZR 4000) by lra. now rewrite py_trunc_whole.
  - exists k. split; [exact Hk|]. split.
    + unfold orbits_to_show. destruct (Req_dec_T (IZR k) 0) as [H0|_]; [|reflexivity].
      apply eq_IZR in H0. lia.
    + unfold sample_count, view_request, effective_revolves;
        cbn [animation revolves sample_points_per_orbit].
      rewrite <- mult_IZR. apply py_trunc_whole. lia.
Qed.

Lemma points_per_orbit_whole k revolves :
  (1 <= k)%Z -> orbits_to_show revolves = IZR k ->
  points_per_orbit (2000 * k) revolves = 2000.
Proof.
  intros Hk Ho. unfold points_per_orbit. rewrite Ho.
  assert (Hk0 : IZR k <> 0) by (intros H; apply eq_IZR in H; lia).
  replace (IZR (2000 * k) / IZR k) with (IZR 2000) by (rewrite mult_IZR; field; exact Hk0).
  rewrite ZfloorZ. apply Rmax_right. lra.
Qed.

Lemma interval_ms_whole T k revolves :
  (1 <= k)%Z -> orbits_to_show revolves = IZR k ->
  interval_ms T (2000 * k) revolves = Z.max 1 (py_trunc (T / 2))
  /\ (2 <= T ->
      IZR (interval_ms T (2000 * k) revolves) * 2000 <= T * 1000
      < (IZR (interval_ms T (2000 * k) revolves) + 1) * 2000).
Proof.
  intros Hk Ho.
  pose proof (points_per_orbit_whole k revolves Hk Ho) as Hp.
  assert (Hms : interval_ms T (2000 * k) revolves = Z.max 1 (py_trunc (T / 2))).
  { unfold interval_ms. rewrite Hp. do 2 f_equal. field. }
  split; [exact Hms|].
  intros HT2. rewrite Hms.
  unfold py_trunc. destruct (Rle_dec 0 (T / 2)) as [_|Hn]; [|lra].
  pose proof (Zfloor_bound (T / 2)) as [Hlo Hhi].
  assert (H1f : (1 <= Zfloor (T / 2))%Z) by (apply Zfloor_lub; simpl; lra).
  rewrite Z.max_r by exact H1f. lra.
Qed.

End Timer.

(** The animation runs in real time, whatever the number of revolutions: for
    an animated view with [revolves] a whole number of at least 1, or not
    given, the request returns 2000 points per orbit and the timer interval
    is [max(1, int(T / 2))] milliseconds, so that for a period [T] of 2
    seconds or more the 2000 ticks of one orbit take at most [T] seconds and
    more than [T - 2]. *)
Theorem animation_runs_in_real_time
  (w w' : Plot.world) (revolves : option R)
  (times : list R) (r_eci : list vec3) (r_ecef : positions) (T : R) :
  Plot.serve (Anim.view_request true revolves) w = (Ok (times, r_eci, r_ecef, T), w') ->
  revolves = None \/ (exists k, (1 <= k)%Z /\ revolves = Some (IZR k)) ->
  let N := Z.of_nat (length times) in
  Anim.points_per_orbit N revolves = 2000
  /\ Anim.interval_ms T N revolves = Z.max 1 (Plot.py_trunc (T / 2))
  /\ (2 <= T ->
      IZR (Anim.interval_ms T N revolves) * 2000 <= T * 1000
      < (IZR (Anim.interval_ms T N revolves) + 1) * 2000).
Proof.
  intros Hs Hrev N.
  destruct (animated_sample_count revolves Hrev) as [k [Hk [Ho Hcount]]].
  destruct (serve_outcome w (Anim.view_request true revolves))
    as [[H1 H]|[[H1 [H2 H]]|[[H1 [H2 [H3 H]]]|[[H1 [H2 [H3 [H4 [ts H]]]]]
        |[[H1 [H2 [H3 [ts H]]]]|[H1 [H2 [H3 [ts [re [rf [Hlin [_ [_ H]]]]]]]]]]]]]];
    rewrite H in Hs; try discriminate.
  injection Hs; intros; subst. clear Hs H.
  apply linspace_length in Hlin. rewrite Hcount in Hlin.
  assert (HN : N = (2000 * k)%Z) by (unfold N; rewrite Hlin; lia).
  rewrite HN.
  split; [exact (points_per_orbit_whole k revolves Hk Ho)|].
  exact (interval_ms_whole _ k revolves Hk Ho).
Qed.

Lemma animation_runs_in_real_time_witness :
  exists times r_eci r_ecef T w',
    Plot.serve (Anim.view_request true (Some (IZR 3))) (Plot.mkWorld Plot.plot0 [])
    = (Ok (times, r_eci, r_ecef, T), w')
    /\ (Some (IZR 3) = None \/ (exists k, (1 <= k)%Z /\ Some (IZR 3) = Some (IZR k)))
    /\ Anim.points_per_orbit (Z.of_nat (length times)) (Some (IZR 3)) = 2000
    /\ Anim.interval_ms T (Z.of_nat (length times)) (Some (IZR 3))
       = Z.max 1 (Plot.py_trunc (T / 2))
    /\ (2 <= T ->
        IZR (Anim.interval_ms T (Z.of_nat (length times)) (Some (IZR 3))) * 2000 <= T * 1000
        < (IZR (Anim.interval_ms T (Z.of_nat (length times)) (Some (IZR 3))) + 1) * 2000).
Proof.
  destruct (serve_recomputes (Plot.mkWorld Plot.plot0 [])
              (Anim.view_request true (Some (IZR 3))) 7000 0 0 0 0 0 eq_refl)
    as (times & r_eci & r_ecef & T & w' & Hs & _);
    [lra|simpl; lra|unfold Plot.effective_revolves; simpl; lra|].
  assert (Hrev : Some (IZR 3) = None \/ (exists k, (1 <= k)%Z /\ Some (IZR 3) = Some (IZR k))).
  { right. exists 3%Z. split; [lia|reflexivity]. }
  exists times, r_eci, r_ecef, T, w'.
  split; [exact Hs|]. split; [exact Hrev|].
  exact (animation_runs_in_real_time _ _ _ _ _ _ _ Hs Hrev).
Defined.

(** ** The Earth sphere *)

Section Sphere.
Import Globe.

Lemma for_each_calls {A} (xs : list A) (body : A -> drawing unit) (f : A -> list gl_call) :
  (forall x calls, In x xs -> body x calls = (Ok tt, calls ++ f x)) ->
  forall calls, for_each xs body calls = (Ok tt, calls ++ flat_map f xs).
Proof.
  induction xs as [|x xs IH]; intros H calls; cbn [for_each flat_map].
  - unfold done. now rewrite app_nil_r.
  - unfold then_. rewrite (H x calls (or_introl eq_refl)).
    rewrite IH by (intros y c Hy; apply H; now right).
    now rewrite app_assoc.
Qed.

Lemma in_range n k : In k (range n) <-> (0 <= k < n)%Z.
Proof.
  unfold range. rewrite in_map_iff. split.
  - intros [m [<- Hm]]. apply in_seq in Hm. lia.
  - intros H. exists (Z.to_nat k). split; [lia|]. apply in_seq. lia.
Qed.

Lemma length_range n : length (range n) = Z.to_nat n.
Proof. unfold range. now rewrite length_map, length_seq. Qed.

Lemma py_div_whole a b : b <> 0%Z -> py_div (IZR a) (IZR b) = Ok (IZR a / IZR b).
Proof.
  intros Hb. unfold py_div. destruct (Req_dec_T (IZR b) 0) as [H|_]; [|reflexivity].
  apply eq_IZR in H. contradiction.
Qed.

Lemma ratio_in_unit a b : (0 <= a <= b)%Z -> (0 < b)%Z -> 0 <= IZR a / IZR b <= 1.
Proof.
  intros [Ha Hab] Hb. apply IZR_le in Ha, Hab. apply IZR_lt in Hb.
  split.
  - apply Rmult_le_pos; [exact Ha|]. left. now apply Rinv_0_lt_compat.
  - apply (Rmult_le_reg_r (IZR b)); [exact Hb|].
    unfold Rdiv. rewrite Rmult_assoc, Rinv_l by lra. lra.
Qed.

Lemma unit_sphere lat lon :
  cos lat * cos lon * (cos lat * cos lon) + cos lat * sin lon * (cos lat * sin lon)
  + sin lat * sin lat = 1.
Proof.
  pose proof (sin2_cos2 lat) as H1. pose proof (sin2_cos2 lon) as H2.
  unfold Rsqr in *.
  replace (cos lat * cos lon * (cos lat * cos lon) + cos lat * sin lon * (cos lat * sin lon)
           + sin lat * sin lat)
    with (cos lat * cos lat * (sin lon * sin lon + cos lon * cos lon) + sin lat * sin lat)
    by ring.
  rewrite H2. lra.
Qed.

Lemma pair_calls_on_sphere radius stacks slices i j :
  (0 <= i < stacks)%Z -> (0 <= j <= slices)%Z -> (0 < slices)%Z ->
  Forall (on_sphere radius) (pair_calls radius stacks slices i j).
Proof.
  intros Hi Hj Hs. unfold pair_calls.
  pose proof PI_RGT_0 as Hpi.
  assert (Hu : 0 <= IZR j / IZR slices <= 1) by (apply ratio_in_unit; lia).
  assert (Hv0 : 0 <= IZR i / IZR stacks <= 1) by (apply ratio_in_unit; lia).
  assert (Hv1 : 0 <= IZR (i + 1) / IZR stacks <= 1) by (apply ratio_in_unit; lia).
  assert (Hlat : forall q, 0.5 + PI * (-0.5 + q) / PI = q).
  { intros q. replace (PI * (-0.5 + q) / PI) with (-0.5 + q); [lra|].
    unfold Rdiv. rewrite Rmult_comm, <- Rmult_assoc, Rinv_l, Rmult_1_l by lra.
    reflexivity. }
  assert (Hvert : forall lat lon,
            radius * cos lat * cos lon * (radius * cos lat * cos lon)
            + radius * cos lat * sin lon * (radius * cos lat * sin lon)
            + radius * sin lat * (radius * sin lat) = radius * radius).
  { intros lat lon. pose proof (unit_sphere lat lon) as H.
    replace (radius * cos lat * cos lon * (radius * cos lat * cos lon)
             + radius * cos lat * sin lon * (radius * cos lat * sin lon)
             + radius * sin lat * (radius * sin lat))
      with (radius * radius
            * (cos lat * cos lon * (cos lat * cos lon)
               + cos lat * sin lon * (cos lat * sin lon) + sin lat * sin lat)) by ring.
    rewrite H. ring. }
  cbv zeta.
  repeat (apply Forall_cons; [cbn [on_sphere]; rewrite ?Hlat;
                              first [apply unit_sphere|apply Hvert|lra]|]).
  apply Forall_nil.
Qed.

Lemma inner_step radius stacks slices i j calls :
  slices <> 0%Z ->
  (q <~ compute (py_div (IZR j) (IZR slices)) ;
   let lon := 2 * PI * q in
   let x0 := cos lon in
   let z0 := sin lon in
   u <~ compute (py_div (IZR j) (IZR slices)) ;
   let v0 := 0.5 + PI * (-0.5 + IZR i / IZR stacks) / PI in
   let v1 := 0.5 + PI * (-0.5 + IZR (i + 1) / IZR stacks) / PI in
   call (glTexCoord2f u v0) ;>
   call (glNormal3f (cos (PI * (-0.5 + IZR i / IZR stacks)) * x0)
           (cos (PI * (-0.5 + IZR i / IZR stacks)) * z0)
           (sin (PI * (-0.5 + IZR i / IZR stacks)))) ;>
   call (glVertex3f (radius * cos (PI * (-0.5 + IZR i / IZR stacks)) * x0)
           (radius * cos (PI * (-0.5 + IZR i / IZR stacks)) * z0)
           (radius * sin (PI * (-0.5 + IZR i / IZR stacks)))) ;>
   call (glTexCoord2f u v1) ;>
   call (glNormal3f (cos (PI * (-0.5 + IZR (i + 1) / IZR stacks)) * x0)
           (cos (PI * (-0.5 + IZR (i + 1) / IZR stacks)) * z0)
           (sin (PI * (-0.5 + IZR (i + 1) / IZR stacks)))) ;>
   call (glVertex3f (radius * cos (PI * (-0.5 + IZR (i + 1) / IZR stacks)) * x0)
           (radius * cos (PI * (-0.5 + IZR (i + 1) / IZR stacks)) * z0)
           (radius * sin (PI * (-0.5 + IZR (i + 1) / IZR stacks))))) calls
  = (Ok tt, calls ++ pair_calls radius stacks slices i j).
Proof.
  intros Hs. unfold then_, compute, call. rewrite py_div_whole by exact Hs.
  cbv zeta. unfold pair_calls. rewrite <- !app_assoc. reflexivity.
Qed.

Lemma draw_textured_earth_calls texture_id radius stacks slices calls :
  slices <> 0%Z ->
  draw_textured_earth texture_id radius stacks slices calls
  = (Ok tt,
     calls ++ opening_calls texture_id
     ++ flat_map (band_calls radius stacks slices) (range stacks)
     ++ [glPopMatrix; glDisable_TEXTURE_2D]).
Proof.
  intros Hs. unfold draw_textured_earth.
  unfold then_ at 1. unfold call at 1.
  unfold then_ at 1.
  assert (Htex : (match texture_id with
                  | Some t => call (glBindTexture_TEXTURE_2D t)
                  | None => done tt
                  end) (calls ++ [glEnable_TEXTURE_2D])
                 = (Ok tt, calls ++ [glEnable_TEXTURE_2D]
                           ++ match texture_id with
                              | Some t => [glBindTexture_TEXTURE_2D t]
                              | None => []
                              end)).
  { destruct texture_id; unfold call, done; cbn [app].
    - now rewrite <- app_assoc.
    - reflexivity. }
  rewrite Htex.
  unfold then_ at 1. unfold call at 1.
  unfold then_ at 1. unfold call at 1.
  unfold then_ at 1. unfold call at 1.
  unfold then_ at 1.
  rewrite (for_each_calls (range stacks) _ (band_calls radius stacks slices)).
  - unfold then_, call. f_equal. unfold opening_calls.
    cbn [app]. rewrite <- !app_assoc. cbn [app]. reflexivity.
  - intros i c Hi. apply in_range in Hi.
    assert (Hst : stacks <> 0%Z) by lia.
    unfold then_ at 1. unfold compute at 1. rewrite py_div_whole by exact Hst.
    unfold then_ at 1. unfold compute at 1. rewrite py_div_whole by exact Hst.
    cbv zeta.
    unfold then_ at 1. unfold call at 1.
    unfold then_ at 1.
    rewrite (for_each_calls (range (slices + 1)) _ (pair_calls radius stacks slices i)).
    + unfold call, band_calls. f_equal. rewrite <- !app_assoc. reflexivity.
    + intros j c' _. apply inner_step. exact Hs.
Qed.

Lemma count_flat_map {A} (p : gl_call -> bool) (f : A -> list gl_call) k xs :
  (forall x, length (filter p (f x)) = k) ->
  length (filter p (flat_map f xs)) = (k * length xs)%nat.
Proof.
  intros H. induction xs as [|x xs IH]; cbn [flat_map filter length]; [lia|].
  rewrite filter_app, length_app, H, IH. lia.
Qed.

Lemma Forall_calls {A} (P : gl_call -> Prop) (f : A -> list gl_call) xs :
  (forall x, In x xs -> Forall P (f x)) -> Forall P (flat_map f xs).
Proof.
  intros H. induction xs as [|x xs IH]; cbn [flat_map]; [constructor|].
  apply Forall_app. split; [apply H; now left|].
  apply IH. intros y Hy. apply H. now right.
Qed.

Lemma band_vertices radius stacks slices i :
  length (filter is_vertex (band_calls radius stacks slices i))
  = (2 * Z.to_nat (slices + 1))%nat.
Proof.
  unfold band_calls. cbn [filter is_vertex].
  rewrite filter_app, length_app. cbn [filter is_vertex length].
  rewrite (count_flat_map is_vertex _ 2); [rewrite length_range; lia|].
  intros j. reflexivity.
Qed.

Lemma band_on_sphere radius stacks slices i :
  (0 <= i < stacks)%Z -> (0 < slices)%Z ->
  Forall (on_sphere radius) (band_calls radius stacks slices i).
Proof.
  intros Hi Hs. unfold band_calls.
  constructor; [exact I|]. apply Forall_app. split.
  - apply Forall_calls. intros j Hj. apply in_range in Hj.
    apply pair_calls_on_sphere; lia.
  - constructor; [exact I|constructor].
Qed.

End Sphere.

(** With at least one slice, [draw_textured_earth] raises nothing, and of
    the OpenGL calls it makes every vertex lies on the sphere of the given
    radius around the origin, every normal on the unit sphere and every
    texture coordinate in the unit square; it emits two vertices per slice
    boundary and stack, [2 * stacks * (slices + 1)] in all. *)
Theorem draw_textured_earth_stays_on_the_sphere
  (texture_id : option Z) (radius : R) (stacks slices : Z) :
  (1 <= slices)%Z ->
  exists calls,
    Globe.draw_textured_earth texture_id radius stacks slices [] = (Ok tt, calls)
    /\ Forall (Globe.on_sphere radius) calls
    /\ length (filter Globe.is_vertex calls)
       = (Z.to_nat stacks * (2 * Z.to_nat (slices + 1)))%nat.
Proof.
  intros Hs.
  rewrite draw_textured_earth_calls by lia. cbn [app].
  eexists. split; [reflexivity|]. split.
  - apply Forall_app. split.
    + unfold Globe.opening_calls. destruct texture_id; repeat constructor.
    + apply Forall_app. split; [|repeat constructor].
      apply Forall_calls. intros i Hi. apply in_range in Hi.
      apply band_on_sphere; lia.
  - rewrite !filter_app, !length_app.
    rewrite (count_flat_map Globe.is_vertex _ (2 * Z.to_nat (slices + 1)));
      [|intros i; apply band_vertices].
    rewrite length_range.
    unfold Globe.opening_calls. destruct texture_id; cbn [filter app Globe.is_vertex length]; lia.
Qed.

Lemma draw_textured_earth_stays_on_the_sphere_witness :
  (1 <= 80)%Z
  /\ exists calls,
    Globe.draw_textured_earth None 6371.0 40 80 [] = (Ok tt, calls)
    /\ Forall (Globe.on_sphere 6371.0) calls
    /\ length (filter Globe.is_vertex calls)
       = (Z.to_nat 40 * (2 * Z.to_nat (80 + 1)))%nat.
Proof.
  assert (H : (1 <= 80)%Z) by lia.
  split; [exact H|].
  exact (draw_textured_earth_stays_on_the_sphere None 6371.0 40 80 H).
Defined.

(** ** The line colour *)

Section LineColour.
Import PyStr Colour.
Local Open Scope nat_scope.

Lemma hex_code c :
  is_hex_digit c = true ->
  (48 <= nat_of_ascii c <= 57) \/ (65 <= nat_of_ascii c <= 70)
  \/ (97 <= nat_of_ascii c <= 102).
Proof.
  unfold is_hex_digit. intros H. cbv zeta in H.
  apply orb_true_iff in H as [H|H]; [apply orb_true_iff in H as [H|H]|];
    apply andb_true_iff in H as [H1 H2];
    apply Nat.leb_le in H1; apply Nat.leb_le in H2; lia.
Qed.

Lemma hex_not_char c d :
  is_hex_digit c = true -> is_hex_digit d = false -> Ascii.eqb c d = false.
Proof.
  intros Hc Hd. destruct (Ascii.eqb c d) eqn:E; [|reflexivity].
  apply Ascii.eqb_eq in E. subst d. congruence.
Qed.

Lemma hex_not_space c : is_hex_digit c = true -> is_space c = false.
Proof.
  intros H. apply hex_code in H. unfold is_space.
  repeat (apply orb_false_iff; split);
    try (apply andb_false_iff);
    try (apply Nat.eqb_neq; lia).
  - destruct (le_lt_dec 9 (nat_of_ascii c));
      [right; apply Nat.leb_gt; lia|left; apply Nat.leb_gt; lia].
  - destruct (le_lt_dec 28 (nat_of_ascii c));
      [right; apply Nat.leb_gt; lia|left; apply Nat.leb_gt; lia].
Qed.

Lemma sign_other c s :
  Ascii.eqb c "-"%char = false -> Ascii.eqb c "+"%char = false ->
  sign (c :: s) = (false, c :: s).
Proof.
  intros Hm Hp.
  destruct c as [[] [] [] [] [] [] [] []]; try reflexivity; discriminate.
Qed.

Lemma skip_prefix_other c d s :
  Ascii.eqb d "x"%char = false -> Ascii.eqb d "X"%char = false ->
  skip_prefix (c :: d :: s) = c :: d :: s.
Proof.
  intros Hx HX.
  destruct c as [[] [] [] [] [] [] [] []]; try reflexivity.
  cbn [skip_prefix]. now rewrite Hx, HX.
Qed.

Lemma hex_value_small c : is_hex_digit c = true -> (hex_value c <= 15)%N.
Proof.
  intros H. apply hex_code in H. unfold hex_value.
  destruct (nat_of_ascii c <=? 57) eqn:E1.
  - apply Nat.leb_le in E1. lia.
  - apply Nat.leb_gt in E1. destruct (nat_of_ascii c <=? 70) eqn:E2.
    + apply Nat.leb_le in E2. lia.
    + apply Nat.leb_gt in E2. lia.
Qed.

(** Two digits of base 16 are read as the number they spell. *)
Lemma int16_pair c d :
  is_hex_digit c = true -> is_hex_digit d = true ->
  py_int16 [c; d] = Ok (Z.of_N (16 * hex_value c + hex_value d)).
Proof.
  intros Hc Hd. unfold py_int16, int16_syntax.
  rewrite strip_id.
  2:{ intros x [<-|[<-|[]]]; now apply hex_not_space. }
  rewrite sign_other by (apply hex_not_char; [exact Hc|reflexivity]).
  rewrite skip_prefix_other by (apply hex_not_char; [exact Hd|reflexivity]).
  cbn [drop_underscores16]. unfold is_underscore.
  rewrite (hex_not_char c "_"%char Hc eq_refl), (hex_not_char d "_"%char Hd eq_refl).
  cbn [hex_digits]. rewrite Hc, Hd.
  replace (16 * 0 + hex_value c)%N with (hex_value c) by lia.
  reflexivity.
Qed.

Lemma lstrip_hash_hashes n s c :
  Ascii.eqb c "#"%char = false ->
  lstrip_hash (repeat "#"%char n ++ c :: s) = c :: s.
Proof.
  intros Hc. induction n as [|n IH]; cbn [repeat app lstrip_hash].
  - now rewrite Hc.
  - exact IH.
Qed.

Lemma py_int16_raises s ex : py_int16 s = Raise ex -> ex = ValueError.
Proof. unfold py_int16. destruct (int16_syntax s); intros H; now inversion H. Qed.

End LineColour.

(** A colour written as any number of [#] followed by six digits of base 16
    (and anything after them, which is not read) gives the three bytes the
    digit pairs spell, each divided by 255.0: three numbers in [0, 1]. *)
Theorem line_rgb_of_six_hex_digits
  (n : nat) (c1 c2 c3 c4 c5 c6 : ascii) (rest : PyStr.text) :
  forallb Colour.is_hex_digit [c1; c2; c3; c4; c5; c6] = true ->
  let byte c d := IZR (Z.of_N (16 * Colour.hex_value c + Colour.hex_value d)) in
  Colour.line_rgb (repeat "#"%char n ++ [c1; c2; c3; c4; c5; c6] ++ rest)
  = Ok (byte c1 c2 / 255.0, byte c3 c4 / 255.0, byte c5 c6 / 255.0)
  /\ 0 <= byte c1 c2 / 255.0 <= 1
  /\ 0 <= byte c3 c4 / 255.0 <= 1
  /\ 0 <= byte c5 c6 / 255.0 <= 1.
Proof.
  intros Hall byte. cbn [forallb] in Hall.
  repeat (apply andb_true_iff in Hall as [?H Hall]).
  assert (Hbyte : forall c d, Colour.is_hex_digit c = true -> Colour.is_hex_digit d = true ->
                    0 <= byte c d / 255.0 <= 1).
  { intros c d Hc Hd. unfold byte.
    pose proof (hex_value_small c Hc) as Hvc. pose proof (hex_value_small d Hd) as Hvd.
    assert (Hz : (0 <= Z.of_N (16 * Colour.hex_value c + Colour.hex_value d) <= 255)%Z) by lia.
    destruct Hz as [Hz0 Hz1]. apply IZR_le in Hz0. apply IZR_le in Hz1. lra. }
  split; [|repeat split; apply Hbyte; assumption].
  unfold Colour.line_rgb. cbn [app].
  rewrite lstrip_hash_hashes by (apply hex_not_char; [assumption|reflexivity]).
  change (PyStr.slice 0 2 (c1 :: c2 :: c3 :: c4 :: c5 :: c6 :: rest)) with [c1; c2].
  change (PyStr.slice 2 4 (c1 :: c2 :: c3 :: c4 :: c5 :: c6 :: rest)) with [c3; c4].
  change (PyStr.slice 4 6 (c1 :: c2 :: c3 :: c4 :: c5 :: c6 :: rest)) with [c5; c6].
  rewrite !int16_pair by assumption. reflexivity.
Qed.

Lemma line_rgb_of_six_hex_digits_witness :
  forallb Colour.is_hex_digit ["0"; "0"; "f"; "F"; "9"; "a"]%char = true
  /\ let byte c d := IZR (Z.of_N (16 * Colour.hex_value c + Colour.hex_value d)) in
     Colour.line_rgb (repeat "#"%char 1 ++ ["0"; "0"; "f"; "F"; "9"; "a"]%char ++ [])
     = Ok (byte "0" "0" / 255.0, byte "f" "F" / 255.0, byte "9" "a" / 255.0)%char
     /\ 0 <= byte "0"%char "0"%char / 255.0 <= 1
     /\ 0 <= byte "f"%char "F"%char / 255.0 <= 1
     /\ 0 <= byte "9"%char "a"%char / 255.0 <= 1.
Proof.
  assert (H : forallb Colour.is_hex_digit ["0"; "0"; "f"; "F"; "9"; "a"]%char = true)
    by reflexivity.
  split; [exact H|].
  exact (line_rgb_of_six_hex_digits 1 "0" "0" "f" "F" "9" "a" [] H).
Defined.

(** A colour with fewer than five characters after its leading [#] (the
    three-digit form [#fff], a colour name like [red], the empty string) is
    rejected with ValueError. *)
Theorem line_rgb_rejects_short_colours (lncolor : PyStr.text) :
  (length (Colour.lstrip_hash lncolor) <= 4)%nat ->
  Colour.line_rgb lncolor = Raise ValueError.
Proof.
  intros Hlen. unfold Colour.line_rgb.
  set (h := Colour.lstrip_hash lncolor) in *.
  assert (H3 : PyStr.slice 4 6 h = []).
  { unfold PyStr.slice. rewrite skipn_all2 by exact Hlen. reflexivity. }
  rewrite H3.
  destruct (Colour.py_int16 (PyStr.slice 0 2 h)) as [r|ex] eqn:Hr.
  2:{ apply py_int16_raises in Hr. now subst. }
  cbn [bind].
  destruct (Colour.py_int16 (PyStr.slice 2 4 h)) as [g|ex] eqn:Hg.
  2:{ apply py_int16_raises in Hg. now subst. }
  reflexivity.
Qed.

Lemma line_rgb_rejects_short_colours_witness :
  (length (Colour.lstrip_hash (list_ascii_of_string "#fff")) <= 4)%nat
  /\ Colour.line_rgb (list_ascii_of_string "#fff") = Raise ValueError.
Proof.
  assert (H : (length (Colour.lstrip_hash (list_ascii_of_string "#fff")) <= 4)%nat)
    by (simpl; lia).
  split; [exact H|].
  exact (line_rgb_rejects_short_colours (list_ascii_of_string "#fff") H).
Defined.

(** ** The ground track of a request *)

Section GroundTrack.
Import OrbMath Plot Track.

Lemma rotated_rows_keep rows out (P : vec3 -> Prop) :
  Forall2 (fun v w => exists th, w = mat_vec (rot_ecef th) v) rows out ->
  (forall th v, P v -> P (mat_vec (rot_ecef th) v)) ->
  Forall P rows -> Forall P out.
Proof.
  intros Hall Hrot. induction Hall as [|v w vs ws [th ->] _ IH]; intros HP.
  - constructor.
  - inversion HP; subst. constructor; [now apply Hrot|now apply IH].
Qed.

End GroundTrack.

(** The ground track of a request that succeeds, on an ellipse
    ([0 <= e < 1]): [ecef_to_latlon] of the Earth-fixed positions it returns
    gives one latitude, longitude and altitude per sample time; every
    latitude stays within the inclination (its sine is at most [|sin i|]),
    and every altitude between the perigee and the apogee altitude,
    [a (1 - e) - 6371.0] and [a (1 + e) - 6371.0]. *)
Theorem ground_track_stays_within_the_orbit
  (w w' : Plot.world) (q : Plot.request)
  (times : list R) (r_eci : list vec3) (r_ecef : positions) (T : R)
  (a e i_deg raan_deg argp_deg M0_deg : R) :
  Plot.serve q w = (Ok (times, r_eci, r_ecef, T), w') ->
  Plot.elems (Plot.self w) = [a; e; i_deg; raan_deg; argp_deg; M0_deg] ->
  0 <= e < 1 ->
  let track := OrbMath.ecef_to_latlon r_ecef in
  Forall (fun lat => Rabs (sin (deg2rad lat)) <= Rabs (sin (deg2rad i_deg)))
    (Track.latitudes track)
  /\ Forall (fun alt => a * (1 - e) - 6371.0 <= alt <= a * (1 + e) - 6371.0)
       (OrbMath.altitudes track)
  /\ length (Track.latitudes track) = length times
  /\ length (Track.longitudes track) = length times
  /\ length (OrbMath.altitudes track) = length times.
Proof.
  intros Hs Hel He track.
  destruct (serve_outcome w q)
    as [[H1 H]|[[H1 [H2 H]]|[[H1 [H2 [H3 H]]]|[[H1 [H2 [H3 [H4 [ts H]]]]]
        |[[H1 [H2 [H3 [ts H]]]]|[Ha [H2 [H3 [ts [re [rf [Hlin [Hprop [Hecef H]]]]]]]]]]]]]];
    rewrite H in Hs; try discriminate.
  injection Hs; intros; subst. clear Hs H.
  rewrite Hel in *. cbn [nth] in Ha.
  rewrite propagate_orbit_value in Hprop by lra.
  injection Hprop as Hrows.
  destruct (eci_to_ecef_ok _ _ _ _ Hecef) as [Hrot Hshape].
  destruct r_ecef as [v|out]; [contradiction|].
  cbn [OrbMath.rows_of] in Hrot.
  pose proof (rotate_rows_length _ _ _ _ Hrot) as Hlen.
  destruct (rotate_rows_spec _ _ _ _ Hrot) as [Hall _].
  assert (Hn : length r_eci = length times).
  { rewrite <- Hrows, !length_map. unfold Kepler.kepler_E_default.
    now rewrite kepler_E_length, !length_map. }
  unfold track. cbn [OrbMath.ecef_to_latlon Track.latitudes Track.longitudes OrbMath.altitudes].
  rewrite !length_map, Hlen, Hn.
  split; [|split; [|repeat split; reflexivity]].
  - rewrite Forall_map.
    apply (rotated_rows_keep r_eci out
             (fun v => Rabs (sin (deg2rad (rad2deg (OrbMath.lat_of v))))
                       <= Rabs (sin (deg2rad i_deg))) Hall).
    + intros th v Hv. now rewrite rot_ecef_lat.
    + rewrite <- Hrows. apply Forall_map_map. intros E.
      rewrite deg2rad_rad2deg. unfold OrbMath.perifocal.
      apply position_within_inclination.
  - rewrite Forall_map.
    apply (rotated_rows_keep r_eci out
             (fun v => a * (1 - e) - 6371.0 <= OrbMath.alt_of v <= a * (1 + e) - 6371.0) Hall).
    + intros th v Hv. unfold OrbMath.alt_of in *. now rewrite norm_rot_ecef.
    + rewrite <- Hrows. apply Forall_map_map. intros E.
      unfold OrbMath.alt_of. rewrite norm_Q_pX.
      pose proof (norm_perifocal_bounds a e Ha He E). lra.
Qed.

Lemma ground_track_stays_within_the_orbit_witness :
  exists times r_eci r_ecef T w',
    Plot.serve Plot.request0
      (Plot.mkWorld (Plot.mkOrbitPlot [7000; 0.1; 51.6; 10; 20; 30] false None None None 30) [])
    = (Ok (times, r_eci, r_ecef, T), w')
    /\ Plot.elems (Plot.self
                     (Plot.mkWorld
                        (Plot.mkOrbitPlot [7000; 0.1; 51.6; 10; 20; 30] false None None None 30)
                        []))
       = [7000; 0.1; 51.6; 10; 20; 30]
    /\ 0 <= 0.1 < 1
    /\ Forall (fun lat => Rabs (sin (deg2rad lat)) <= Rabs (sin (deg2rad 51.6)))
         (Track.latitudes (OrbMath.ecef_to_latlon r_ecef))
    /\ Forall (fun alt => 7000 * (1 - 0.1) - 6371.0 <= alt <= 7000 * (1 + 0.1) - 6371.0)
         (OrbMath.altitudes (OrbMath.ecef_to_latlon r_ecef))
    /\ length (Track.latitudes (OrbMath.ecef_to_latlon r_ecef)) = length times
    /\ length (Track.longitudes (OrbMath.ecef_to_latlon r_ecef)) = length times
    /\ length (OrbMath.altitudes (OrbMath.ecef_to_latlon r_ecef)) = length times.
Proof.
  destruct (serve_recomputes
              (Plot.mkWorld
                 (Plot.mkOrbitPlot [7000; 0.1; 51.6; 10; 20; 30] false None None None 30) [])
              Plot.request0 7000 0.1 51.6 10 20 30 eq_refl)
    as (times & r_eci & r_ecef & T & w' & Hs & _);
    [lra|simpl; lra|unfold Plot.effective_revolves; simpl; lra|].
  assert (He : 0 <= 0.1 < 1) by lra.
  exists times, r_eci, r_ecef, T, w'.
  split; [exact Hs|]. split; [reflexivity|]. split; [exact He|].
  exact (ground_track_stays_within_the_orbit _ _ _ _ _ _ _ _ _ _ _ _ _ Hs eq_refl He).
Defined.

(** ** The fading track of the live view *)

Section Fading.
Import Track.

Lemma split_loop_wrapped lat rest :
  forall prev j seg_lon seg_lat segs (plot : list curve),
    split_loop lat prev rest j seg_lon seg_lat segs
    = fst (wrapped_loop lat prev rest j seg_lon seg_lat segs plot).
Proof.
  induction rest as [|x rest IH]; intros prev j seg_lon seg_lat segs plot.
  - reflexivity.
  - cbn [split_loop wrapped_loop].
    destruct (nth_error lat j) as [y|]; destruct (Rlt_dec 180 (Rabs (x - prev)));
      try reflexivity; apply IH.
Qed.

Lemma joined_pairs_short profile g lon lat :
  (length lon <= 1)%nat -> joined_pairs profile g lon lat = [].
Proof.
  destruct lon as [|x [|x' lon]]; cbn [length]; intros H; try lia; reflexivity.
Qed.

Lemma joined_pairs_step profile g x0 x1 lon y0 y1 lat :
  joined_pairs profile g (x0 :: x1 :: lon) (y0 :: y1 :: lat)
  = (if Rlt_dec 180 (Rabs (x1 - x0)) then []
     else [(([x0; x1], [y0; y1]), Plot.py_trunc (nth g profile 0))])
    ++ joined_pairs profile (S g) (x1 :: lon) (y1 :: lat).
Proof. reflexivity. Qed.

Lemma joined_pairs_firstn profile lon :
  forall g lat, joined_pairs profile g lon (firstn (length lon) lat)
                = joined_pairs profile g lon lat.
Proof.
  induction lon as [|x0 lon IH]; intros g lat; [reflexivity|].
  destruct lon as [|x1 lon'].
  - now rewrite !joined_pairs_short by (cbn; lia).
  - destruct lat as [|y0 [|y1 lat']]; try reflexivity.
    specialize (IH (S g) (y1 :: lat')).
    cbn [length firstn] in IH |- *. cbn [joined_pairs] in IH |- *.
    now rewrite IH.
Qed.

Lemma joined_pairs_app profile s1 :
  forall g l1 s2 l2,
    s1 <> [] -> length s1 = length l1 ->
    (s2 = [] \/ 180 < Rabs (hd 0 s2 - last s1 0)) ->
    joined_pairs profile g (s1 ++ s2) (l1 ++ l2)
    = joined_pairs profile g s1 l1 ++ joined_pairs profile (g + length s1) s2 l2.
Proof.
  induction s1 as [|a s1 IH]; intros g l1 s2 l2 Hne Hlen Hjump; [contradiction|].
  destruct l1 as [|b l1]; [discriminate|].
  destruct s1 as [|a' s1'].
  - destruct l1; [|discriminate]. cbn [app length].
    replace (g + 1)%nat with (S g) by lia.
    destruct s2 as [|c s2']; [reflexivity|].
    destruct Hjump as [Hnil|Hjump]; [discriminate|].
    cbn [hd last] in Hjump.
    destruct l2 as [|d l2']; [now destruct s2'|].
    cbn [joined_pairs]. destruct (Rlt_dec 180 (Rabs (c - a))); [reflexivity|contradiction].
  - destruct l1 as [|b' l1']; [discriminate|].
    specialize (IH (S g) (b' :: l1') s2 l2).
    cbn [app length] in IH |- *. cbn [joined_pairs].
    rewrite <- app_assoc. f_equal.
    replace (g + S (S (length s1')))%nat with (S g + S (length s1'))%nat by lia.
    apply IH; [discriminate|cbn [length] in Hlen; lia|].
    destruct Hjump as [E|Hjump]; [now left|right].
    exact Hjump.
Qed.

Lemma no_jump_tail x l : no_jump (x :: l) -> no_jump l.
Proof. destruct l; cbn [no_jump]; tauto. Qed.

Lemma no_jump_skipn k : forall l, no_jump l -> no_jump (skipn k l).
Proof.
  induction k as [|k IH]; intros l H; [exact H|].
  destruct l as [|x l]; [exact I|]. cbn [skipn]. apply IH. now apply no_jump_tail in H.
Qed.

Lemma nth_error_window {A} (l : list A) s L k d :
  (k < L)%nat -> (s + L <= length l)%nat ->
  nth_error (firstn L (skipn s l)) k = Some (nth (s + k) l d).
Proof.
  intros Hk Hl.
  rewrite nth_error_firstn.
  destruct (Nat.ltb_spec k L) as [_|H]; [|lia].
  rewrite nth_error_skipn.
  apply nth_error_nth'. lia.
Qed.

(** The inner loop on one curve without a jump. *)
Lemma items_of_segment_from profile s seg_lon seg_lat :
  length seg_lon = length seg_lat -> no_jump seg_lon ->
  (s + length seg_lon <= length profile)%nat ->
  forall n k0 items plot,
    (k0 + n = length seg_lon - 1)%nat ->
    items_of_segment seg_lon seg_lat
      (firstn (length seg_lon) (skipn s profile)) (seq k0 n) items plot
    = (Ok (items ++ joined_pairs profile (s + k0) (skipn k0 seg_lon) (skipn k0 seg_lat)),
       plot ++ joined_pairs profile (s + k0) (skipn k0 seg_lon) (skipn k0 seg_lat)).
Proof.
  intros Hlen Hnj Hprof.
  induction n as [|n IH]; intros k0 items plot Hk.
  - cbn [seq items_of_segment].
    rewrite joined_pairs_short by (rewrite length_skipn; lia).
    now rewrite !app_nil_r.
  - cbn [seq items_of_segment]. unfold item_at.
    rewrite (nth_error_window profile s (length seg_lon) k0 0) by lia.
    destruct (nth_error_below seg_lon k0 ltac:(lia)) as [x0 Hx0].
    destruct (nth_error_below seg_lon (S k0) ltac:(lia)) as [x1 Hx1].
    destruct (nth_error_below seg_lat k0 ltac:(lia)) as [y0 Hy0].
    destruct (nth_error_below seg_lat (S k0) ltac:(lia)) as [y1 Hy1].
    rewrite Hx0, Hx1, Hy0, Hy1.
    pose proof (no_jump_skipn k0 _ Hnj) as Hn0.
    rewrite (skipn_nth_error _ _ _ Hx0), (skipn_nth_error _ _ _ Hx1) in Hn0 |- *.
    rewrite (skipn_nth_error _ _ _ Hy0), (skipn_nth_error _ _ _ Hy1).
    cbn [no_jump] in Hn0. destruct Hn0 as [Hnear _].
    rewrite joined_pairs_step.
    destruct (Rlt_dec 180 (Rabs (x1 - x0))) as [Hj|_]; [lra|].
    rewrite <- (skipn_nth_error _ _ _ Hx1), <- (skipn_nth_error _ _ _ Hy1).
    rewrite (IH (S k0)) by lia.
    replace (s + S k0)%nat with (S (s + k0)) by lia.
    now rewrite <- !app_assoc.
Qed.

(** The outer loop on curves that are split exactly at the jumps. *)
Lemma items_of_segments_spec profile segs :
  forall s items plot,
    Forall unbroken segs -> jumps_between segs ->
    (s + length (concat (map fst segs)) <= length profile)%nat ->
    items_of_segments profile segs s items plot
    = (Ok (items ++ joined_pairs profile s (concat (map fst segs)) (concat (map snd segs))),
       plot ++ joined_pairs profile s (concat (map fst segs)) (concat (map snd segs))).
Proof.
  induction segs as [|[seg_lon seg_lat] rest IH]; intros s items plot Hall Hj Hlen.
  - cbn [items_of_segments map concat joined_pairs]. now rewrite !app_nil_r.
  - inversion Hall as [|? ? [Hne [Hll Hnj]] Hrest]; subst.
    cbn [fst snd] in Hne, Hll, Hnj.
    cbn [map concat fst snd] in Hlen |- *. rewrite length_app in Hlen.
    cbn [items_of_segments].
    pose proof (items_of_segment_from profile s seg_lon seg_lat Hll Hnj ltac:(lia)
                  (length seg_lon - 1) 0%nat items plot ltac:(lia)) as Hseg.
    cbn [skipn] in Hseg. rewrite Nat.add_0_r in Hseg. rewrite Hseg.
    rewrite IH; [|exact Hrest| |lia].
    + assert (Hside : concat (map fst rest) = []
                      \/ 180 < Rabs (hd 0 (concat (map fst rest)) - last seg_lon 0)).
      { destruct rest as [|[t_lon t_lat] rest']; [now left|right].
        inversion Hrest as [|? ? [Hne' _] _]; subst. cbn [fst] in Hne'.
        destruct Hj as [Hj _]. cbn [fst] in Hj.
        destruct t_lon as [|t0 t_lon']; [contradiction|].
        cbn [map concat fst app hd] in *. exact Hj. }
      rewrite (joined_pairs_app profile seg_lon s seg_lat _ _ Hne Hll Hside).
      now rewrite <- !app_assoc.
    + destruct rest as [|t rest']; [exact I|]. now destruct Hj.
Qed.

Lemma py_trunc_byte a : 0 <= a <= 255 -> (0 <= Plot.py_trunc a <= 255)%Z.
Proof.
  intros [H0 H1]. split; [now apply py_trunc_nonneg|].
  unfold Plot.py_trunc. destruct (Rle_dec 0 a); [|contradiction].
  apply le_IZR. pose proof (Zfloor_bound a). lra.
Qed.

Lemma joined_pairs_alpha profile :
  Forall (fun a => 0 <= a <= 255) profile ->
  forall lon g lat,
    Forall (fun it : fade_item => (0 <= snd it <= 255)%Z) (joined_pairs profile g lon lat).
Proof.
  intros Hp. induction lon as [|x0 lon IH]; intros g lat; [constructor|].
  destruct lon as [|x1 lon']; [constructor|].
  destruct lat as [|y0 [|y1 lat']]; try constructor.
  rewrite joined_pairs_step. apply Forall_app. split; [|apply IH].
  destruct (Rlt_dec 180 (Rabs (x1 - x0))); constructor; [|constructor].
  cbn [snd]. apply py_trunc_byte.
  destruct (Nat.lt_ge_cases g (length profile)) as [Hg|Hg].
  - rewrite Forall_forall in Hp. apply Hp. now apply nth_In.
  - rewrite nth_overflow by lia. lra.
Qed.

(** The profile: as long as the track, between 0 and 255, 0 at the first
    sample and 255 at the middle one. *)
Lemma alpha_profile_shape N :
  (2 <= N)%nat ->
  exists profile,
    alpha_profile N = Ok profile
    /\ length profile = N
    /\ Forall (fun a => 0 <= a <= 255) profile
    /\ nth 0 profile 0 = 0
    /\ nth (N / 2) profile 0 = 255.
Proof.
  intros HN.
  set (half := (Z.of_nat N / 2)%Z).
  assert (Hh : (1 <= half /\ 2 * half <= Z.of_nat N < 2 * half + 2)%Z).
  { unfold half. pose proof (Z.div_mod (Z.of_nat N) 2 ltac:(lia)).
    pose proof (Z.mod_pos_bound (Z.of_nat N) 2 ltac:(lia)). lia. }
  assert (Hhn : Z.to_nat half = (N / 2)%nat).
  { unfold half. rewrite <- (Nat2Z.id (N / 2)). f_equal.
    now rewrite Nat2Z.inj_div. }
  unfold alpha_profile, linspace_open, Plot.linspace. fold half.
  destruct (Z.ltb_spec half 0) as [H|_]; [lia|].
  destruct (Z.ltb_spec (Z.of_nat N - half) 0) as [H|_]; [lia|].
  cbn [bind].
  eexists. split; [reflexivity|].
  assert (Hup : (0 < Z.to_nat half)%nat) by lia.
  assert (Hhalf : 0 < IZR half) by (apply IZR_lt; lia).
  split; [|split; [|split]].
  - rewrite length_app, !length_map, !length_seq. lia.
  - apply Forall_app. split; apply Forall_forall; intros a Ha;
      apply in_map_iff in Ha as [k [<- Hk]]; apply in_seq in Hk.
    + assert (Hk' : 0 <= INR k < IZR half).
      { split; [apply pos_INR|]. rewrite INR_IZR_INZ. apply IZR_lt. lia. }
      replace (0 + INR k * ((255 - 0) / IZR half)) with (255 * (INR k / IZR half))
        by (field; lra).
      assert (0 <= INR k / IZR half < 1).
      { split; [apply Rmult_le_pos; [lra|left; now apply Rinv_0_lt_compat]|].
        apply Rmult_lt_reg_r with (IZR half); [exact Hhalf|].
        unfold Rdiv. rewrite Rmult_assoc, Rinv_l by lra. lra. }
      lra.
    + destruct (Z.eq_dec (Z.of_nat N - half - 1) 0) as [Hz|Hz].
      * assert (k = 0%nat) by lia. subst k. cbn [INR]. lra.
      * assert (Hm : 0 < IZR (Z.of_nat N - half - 1)) by (apply IZR_lt; lia).
        assert (Hk' : 0 <= INR k <= IZR (Z.of_nat N - half - 1)).
        { split; [apply pos_INR|]. rewrite INR_IZR_INZ. apply IZR_le. lia. }
        set (m := IZR (Z.of_nat N - half - 1)) in *.
        replace (255 + INR k * ((0 - 255) / m)) with (255 * (1 - INR k / m))
          by (field; lra).
        assert (0 <= INR k / m <= 1).
        { split; [apply Rmult_le_pos; [lra|left; now apply Rinv_0_lt_compat]|].
          apply Rmult_le_reg_r with m; [exact Hm|].
          unfold Rdiv. rewrite Rmult_assoc, Rinv_l by lra. lra. }
        lra.
  - rewrite app_nth1 by (rewrite length_map, length_seq; lia).
    destruct (Z.to_nat half) as [|h]; [lia|]. cbn [seq map nth INR]. lra.
  - rewrite <- Hhn.
    rewrite app_nth2 by (rewrite length_map, length_seq; lia).
    rewrite length_map, length_seq, Nat.sub_diag.
    destruct (Z.to_nat (Z.of_nat N - half)) as [|h] eqn:E; [lia|].
    cbn [seq map nth INR]. lra.
Qed.

End Fading.

(** The fading track of the live view, for two samples or more with a
    latitude for each: [add_wrapped_gradient] adds to the plot and returns one
    two-point line for each pair of neighbouring samples that are no more
    than 180 degrees of longitude apart, in order, and none across the date
    line.  The line that starts at sample [g] has the alpha
    [int(alpha_profile[g])]; the profile has one value per sample, all
    between 0 and 255, is 0 at the first sample and 255 at the middle one, so
    every alpha is between 0 and 255. *)
Theorem add_wrapped_gradient_joins_neighbours
  (plot_widget : list Track.fade_item) (lon_seg lat_seg : list R) :
  (2 <= length lon_seg <= length lat_seg)%nat ->
  exists profile items,
    Track.alpha_profile (length lon_seg) = Ok profile
    /\ Track.add_wrapped_gradient plot_widget lon_seg lat_seg
       = (Ok items, plot_widget ++ items)
    /\ items = Track.joined_pairs profile 0 lon_seg lat_seg
    /\ length profile = length lon_seg
    /\ Forall (fun a => 0 <= a <= 255) profile
    /\ nth 0 profile 0 = 0
    /\ nth (length lon_seg / 2) profile 0 = 255
    /\ Forall (fun it : Track.fade_item => (0 <= snd it <= 255)%Z) items.
Proof.
  intros [H2 Hle].
  destruct (alpha_profile_shape (length lon_seg) H2)
    as (profile & Hprof & Hlen & Hrange & Hfirst & Hmid).
  exists profile, (Track.joined_pairs profile 0 lon_seg lat_seg).
  split; [exact Hprof|].
  split; [|split; [reflexivity|split; [exact Hlen|split; [exact Hrange|
            split; [exact Hfirst|split; [exact Hmid|now apply joined_pairs_alpha]]]]]].
  destruct lon_seg as [|x0 [|x1 rest]]; try (cbn [length] in H2; lia).
  destruct lat_seg as [|y0 lat']; [cbn [length] in Hle; lia|].
  unfold Track.add_wrapped_gradient.
  rewrite (split_loop_wrapped _ _ _ _ _ _ _ []).
  destruct (wrapped_loop_spec (y0 :: lat') (x1 :: rest) x0 1 [x0] [y0] [] [])
    as (first & more & tail & Heq & Hfst & Hlon & Hlat & Hall & Hj);
    [cbn [length] in *; lia|discriminate|reflexivity|reflexivity|exact I|].
  rewrite Heq. cbn [fst app]. rewrite Hprof.
  rewrite items_of_segments_spec; [|exact Hall|exact Hj|].
  - rewrite Hlon, Hlat. cbn [app].
    change (y0 :: firstn (length (x1 :: rest)) (skipn 1 (y0 :: lat')))
      with (firstn (length (x0 :: x1 :: rest)) (y0 :: lat')).
    now rewrite joined_pairs_firstn.
  - rewrite Hlon, Hlen. cbn [app length]. lia.
Qed.

Lemma add_wrapped_gradient_joins_neighbours_witness :
  exists profile items,
    (2 <= length [170; 179; -179; -170]%R <= length [0; 1; 2; 3]%R)%nat
    /\ Track.alpha_profile (length [170; 179; -179; -170]) = Ok profile
    /\ Track.add_wrapped_gradient [] [170; 179; -179; -170] [0; 1; 2; 3]
       = (Ok items, [] ++ items)
    /\ items = Track.joined_pairs profile 0 [170; 179; -179; -170] [0; 1; 2; 3]
    /\ length profile = length [170; 179; -179; -170]
    /\ Forall (fun a => 0 <= a <= 255) profile
    /\ nth 0 profile 0 = 0
    /\ nth (length [170; 179; -179; -170] / 2) profile 0 = 255
    /\ Forall (fun it : Track.fade_item => (0 <= snd it <= 255)%Z) items.
Proof.
  assert (H : (2 <= length [170; 179; -179; -170]%R <= length [0; 1; 2; 3]%R)%nat)
    by (simpl; lia).
  destruct (add_wrapped_gradient_joins_neighbours [] [170; 179; -179; -170] [0; 1; 2; 3] H)
    as (profile & items & Hrest).
  exists profile, items. split; [exact H|exact Hrest].
Defined.

(** ** The window of the live view *)

Section LiveWindow.
Import Kepler OrbMath Plot.

Lemma update_map e (g : R -> R) M :
  update e M (map g M) = map (fun m => step e m (g m)) M.
Proof.
  unfold update, deltas, step.
  induction M as [|m M IH]; cbn [map map2]; [reflexivity|]. now rewrite IH.
Qed.

Lemma iter_update_map e k (g : R -> R) M :
  Nat.iter k (update e M) (map g M) = map (fun m => Nat.iter k (step e m) (g m)) M.
Proof.
  induction k as [|k IH]; [reflexivity|].
  change (Nat.iter (S k) (update e M) (map g M))
    with (update e M (Nat.iter k (update e M) (map g M))).
  rewrite IH. now rewrite update_map.
Qed.

(** The solver works on each mean anomaly by itself, once the number of
    updates of the batch is fixed. *)
Lemma kepler_E_pointwise M e tol maxiter :
  exists G : R -> R, kepler_E M e tol maxiter = map G (map normalize M).
Proof.
  unfold kepler_E. rewrite newton_unfold.
  set (K := iterations e tol (map normalize M) (initial_guess e (map normalize M)) maxiter).
  clearbody K. unfold initial_guess.
  destruct (Rltb 0.8 (Rabs e)).
  - exists (fun m => Nat.iter K (step e m) PI).
    apply (iter_update_map e K (fun _ => PI)).
  - exists (fun m => Nat.iter K (step e m) m).
    pose proof (iter_update_map e K (fun m => m) (map normalize M)) as H.
    now rewrite map_id in H.
Qed.

Lemma propagate_orbit_pointwise a e i_deg raan_deg argp_deg M0_deg times :
  a <> 0 ->
  exists H : R -> vec3,
    propagate_orbit [a; e; i_deg; raan_deg; argp_deg; M0_deg] times 0
    = Ok (map (fun t => H (normalize (deg2rad M0_deg + sqrt (MU_EARTH / a ^ 3) * (t - 0))))
            times).
Proof.
  intros Ha. rewrite propagate_orbit_value by exact Ha.
  unfold kepler_E_default.
  destruct (kepler_E_pointwise
              (map normalize
                 (map (fun t => deg2rad M0_deg + sqrt (MU_EARTH / a ^ 3) * (t - 0)) times))
              e default_tol default_maxiter) as [G HG].
  rewrite HG.
  exists (fun m => mat_vec (Q_pX i_deg raan_deg argp_deg) (perifocal a e (G (normalize m)))).
  now rewrite !map_map.
Qed.

Lemma nth_map_inside {A B} (f : A -> B) l i d d' :
  (i < length l)%nat -> nth i (map f l) d' = f (nth i l d).
Proof.
  intros H. rewrite (nth_indep _ d' (f d)) by (rewrite length_map; lia).
  apply map_nth.
Qed.

Lemma rotate_rows_nth theta rows d :
  forall idx out,
    rotate_rows theta idx rows = Ok out ->
    forall i, (i < length rows)%nat ->
      nth i out d = mat_vec (rot_ecef (nth (idx + i) theta 0)) (nth i rows d).
Proof.
  induction rows as [|r rest IH]; intros idx out H i Hi; [cbn [length] in Hi; lia|].
  cbn [rotate_rows] in H.
  destruct (nth_error theta idx) as [th|] eqn:Hth; [|discriminate].
  destruct (rotate_rows theta (S idx) rest) as [out'|ex] eqn:Hrest; [|discriminate].
  cbn [bind] in H. inversion H; subst.
  destruct i as [|i].
  - cbn [nth]. rewrite Nat.add_0_r. now rewrite (nth_error_nth _ _ 0 Hth).
  - cbn [nth length] in *. rewrite (IH (S idx) out' Hrest i) by lia.
    now replace (idx + S i)%nat with (S idx + i)%nat by lia.
Qed.

Lemma rot_ecef_add th dl v :
  mat_vec (rot_ecef (th + dl)) v = mat_vec (rot_ecef dl) (mat_vec (rot_ecef th) v).
Proof.
  destruct v as [x y z]. unfold rot_ecef, mat_vec, dot.
  cbn [row1 row2 row3 vx vy vz]. rewrite cos_plus, sin_plus. f_equal; ring.
Qed.

Lemma rotation_angles_many t_sec gst0 N :
  length t_sec <> 1%nat ->
  Track.rotation_angles t_sec gst0 N = map (fun t => gst0 + OMEGA_EARTH * t) t_sec.
Proof.
  intros H. unfold Track.rotation_angles.
  destruct t_sec as [|t [|t' rest]]; try reflexivity. now cbn [length] in H.
Qed.

Lemma linspace_nth start stop num ts i :
  linspace start stop num = Ok ts -> (Z.of_nat i < num)%Z ->
  length ts = Z.to_nat num
  /\ nth i ts 0 = start + INR i * ((stop - start) / IZR (num - 1)).
Proof.
  unfold linspace. intros H Hi.
  destruct (num <? 0)%Z; [discriminate|]. inversion H; subst. clear H.
  split; [now rewrite length_map, length_seq|].
  rewrite (nth_map_inside _ _ _ 0%nat) by (rewrite length_seq; lia).
  rewrite seq_nth by lia. reflexivity.
Qed.

End LiveWindow.

(** The track of the live view covers one revolution, centred on the clock
    reading: for six elements with [a > 0], [update_live] propagates 2000
    times that run from half a period before [now] to half a period after it
    (counted from the epoch).  The last inertial position is the first one
    again, and the last Earth-fixed position is the first one turned by the
    angle the Earth rotates in one period, [OMEGA_EARTH * period]. *)
Theorem update_live_track_spans_one_revolution
  (o : Plot.OrbitPlot) (a e i_deg raan_deg argp_deg M0_deg : R)
  (epoch_ts gst0 now : R) :
  Plot.elems o = [a; e; i_deg; raan_deg; argp_deg; M0_deg] ->
  0 < a ->
  let period := 2 * PI * sqrt (a ^ 3 / 398600.4418) in
  Live.period o = Ok period
  /\ exists t_rel r_eci rows,
       Live.update_live_track o period epoch_ts gst0 now = Ok (t_rel, r_eci, Batch rows)
       /\ length t_rel = 2000%nat /\ length r_eci = 2000%nat /\ length rows = 2000%nat
       /\ nth 0 t_rel 0 = now - period / 2 - epoch_ts
       /\ nth 1999 t_rel 0 = now + period / 2 - epoch_ts
       /\ nth 1999 r_eci (mkVec 0 0 0) = nth 0 r_eci (mkVec 0 0 0)
       /\ nth 1999 rows (mkVec 0 0 0)
          = mat_vec (OrbMath.rot_ecef (OMEGA_EARTH * period)) (nth 0 rows (mkVec 0 0 0)).
Proof.
  intros Hel Ha period.
  assert (Hper : Live.period o = Ok period).
  { unfold Live.period. rewrite Hel. cbn [bind].
    rewrite (proj2 (math_sqrt_axis a)) by lra. reflexivity. }
  split; [exact Hper|].
  unfold Live.update_live_track.
  destruct (Plot.linspace (- (period / 2)) (period / 2) Live.sample_points)
    as [window|ex] eqn:Hwin;
    [|unfold Plot.linspace, Live.sample_points in Hwin;
      change (2000 <? 0)%Z with false in Hwin; discriminate].
  cbn [bind].
  set (t_rel := map (fun t => t - epoch_ts) (map (fun t => t + now) window)).
  assert (Hw0 := linspace_nth _ _ _ _ 0%nat Hwin).
  assert (Hw1 := linspace_nth _ _ _ _ 1999%nat Hwin).
  unfold Live.sample_points in Hw0, Hw1.
  destruct Hw0 as [Hlen Hw0]; [lia|]. destruct Hw1 as [_ Hw1]; [lia|].
  assert (Hlen' : length window = 2000%nat) by (rewrite Hlen; lia).
  assert (Hlt : length t_rel = 2000%nat) by (unfold t_rel; now rewrite !length_map).
  assert (Ht0 : nth 0 t_rel 0 = now - period / 2 - epoch_ts).
  { unfold t_rel. rewrite (nth_map_inside _ _ _ 0) by (rewrite length_map; lia).
    rewrite (nth_map_inside _ _ _ 0) by lia.
    rewrite Hw0. cbn [INR]. lra. }
  assert (Ht1 : nth 1999 t_rel 0 = now + period / 2 - epoch_ts).
  { unfold t_rel. rewrite (nth_map_inside _ _ _ 0) by (rewrite length_map; lia).
    rewrite (nth_map_inside _ _ _ 0) by lia.
    rewrite Hw1. rewrite INR_IZR_INZ.
    replace (Z.of_nat 1999) with 1999%Z by reflexivity.
    replace (2000 - 1)%Z with 1999%Z by reflexivity.
    field. }
  clearbody t_rel. clear Hwin Hw0 Hw1 Hlen Hlen' window.
  rewrite Hel.
  destruct (propagate_orbit_pointwise a e i_deg raan_deg argp_deg M0_deg t_rel ltac:(lra))
    as [H Hprop].
  rewrite Hprop. cbn [bind].
  set (r_eci := map (fun t => H (Kepler.normalize
                                   (deg2rad M0_deg + sqrt (MU_EARTH / a ^ 3) * (t - 0))))
                  t_rel).
  assert (Hlr : length r_eci = 2000%nat) by (unfold r_eci; now rewrite length_map).
  destruct (eci_to_ecef_rows (Batch r_eci) t_rel gst0) as [r_ecef [Hecef _]].
  { right. cbn [OrbMath.rows_of]. lia. }
  destruct (eci_to_ecef_ok _ _ _ _ Hecef) as [Hrot Hshape].
  destruct r_ecef as [v|rows]; [contradiction|].
  rewrite Hecef. cbn [bind].
  cbn [OrbMath.rows_of] in Hrot.
  rewrite rotation_angles_many in Hrot by lia.
  pose proof (rotate_rows_length _ _ _ _ Hrot) as Hlrows.
  assert (Hsame : nth 1999 r_eci (mkVec 0 0 0) = nth 0 r_eci (mkVec 0 0 0)).
  { unfold r_eci. rewrite !(nth_map_inside _ _ _ 0) by lia.
    rewrite Ht0, Ht1. f_equal.
    rewrite <- (normalize_add_turns
                  (deg2rad M0_deg
                   + sqrt (MU_EARTH / a ^ 3) * (now - period / 2 - epoch_ts - 0)) 1).
    f_equal.
    pose proof (mean_motion_period a Ha) as Hn. fold period in Hn.
    set (n := sqrt (MU_EARTH / a ^ 3)) in *.
    replace (n * (now + period / 2 - epoch_ts - 0))
      with (n * (now - period / 2 - epoch_ts - 0) + n * period) by field.
    rewrite Hn. ring. }
  exists t_rel, r_eci, rows.
  split; [reflexivity|]. split; [exact Hlt|]. split; [exact Hlr|].
  split; [lia|]. split; [exact Ht0|]. split; [exact Ht1|]. split; [exact Hsame|].
  rewrite (rotate_rows_nth _ _ (mkVec 0 0 0) _ _ Hrot 1999) by lia.
  rewrite (rotate_rows_nth _ _ (mkVec 0 0 0) _ _ Hrot 0) by lia.
  rewrite Hsame. rewrite <- rot_ecef_add. do 2 f_equal.
  cbn [Nat.add].
  rewrite !(nth_map_inside _ _ _ 0) by lia.
  rewrite Ht0, Ht1. field.
Qed.

Lemma update_live_track_spans_one_revolution_witness :
  Plot.elems (Plot.mkOrbitPlot [7000; 0.1; 51.6; 10; 20; 30] false None None None 30)
  = [7000; 0.1; 51.6; 10; 20; 30]
  /\ 0 < 7000
  /\ Live.period (Plot.mkOrbitPlot [7000; 0.1; 51.6; 10; 20; 30] false None None None 30)
     = Ok (2 * PI * sqrt (7000 ^ 3 / 398600.4418))
  /\ exists t_rel r_eci rows,
       Live.update_live_track
         (Plot.mkOrbitPlot [7000; 0.1; 51.6; 10; 20; 30] false None None None 30)
         (2 * PI * sqrt (7000 ^ 3 / 398600.4418)) 30 0 100
       = Ok (t_rel, r_eci, Batch rows)
       /\ length t_rel = 2000%nat /\ length r_eci = 2000%nat /\ length rows = 2000%nat
       /\ nth 0 t_rel 0 = 100 - 2 * PI * sqrt (7000 ^ 3 / 398600.4418) / 2 - 30
       /\ nth 1999 t_rel 0 = 100 + 2 * PI * sqrt (7000 ^ 3 / 398600.4418) / 2 - 30
       /\ nth 1999 r_eci (mkVec 0 0 0) = nth 0 r_eci (mkVec 0 0 0)
       /\ nth 1999 rows (mkVec 0 0 0)
          = mat_vec (OrbMath.rot_ecef (OMEGA_EARTH * (2 * PI * sqrt (7000 ^ 3 / 398600.4418))))
              (nth 0 rows (mkVec 0 0 0)).
Proof.
  assert (Ha : 0 < 7000) by lra.
  split; [reflexivity|]. split; [exact Ha|].
  exact (update_live_track_spans_one_revolution
           (Plot.mkOrbitPlot [7000; 0.1; 51.6; 10; 20; 30] false None None None 30)
           7000 0.1 51.6 10 20 30 30 0 100 eq_refl Ha).
Defined.
